(** * taskflow: a dependency-aware task scheduler

    A shallow embedding of [src/taskflow/task.py] and
    [src/taskflow/scheduler.py], and the properties of the scheduling
    engine proved over it.

    Python objects live in a store indexed by object identity.  A reference
    to a [Task] carries the object's address together with its [_task_id]:
    the identifier is assigned once in [__init__] and never written again,
    and it is all that [__eq__] and [__hash__] look at.  Two different
    objects may share an identifier; they are then equal as dictionary keys
    but keep separate statuses.

    Dictionaries are association lists in insertion order (the order a
    Python [dict] iterates in).  Sets are lists without two elements of the
    same identifier; nothing proved below depends on their order.

    Calls run one after the other: the condition variable of the
    Scheduler is not modelled beyond the [notifyAll] a handler performs
    and the [wait()] a generator parks in, and a call to [execute_task]
    runs to its end, callbacks included, before anything else happens.

    A work function or a callback returns or raises.  What is raised is
    an [Exception], which the [except Exception] clause of
    [execute_task] catches, or another [BaseException], which it lets
    through.  A callback slot is called when the object it holds has a
    true truth value. *)

From Stdlib Require Import String ZArith Lia Bool Arith PeanoNat List.
Import ListNotations.
Local Open Scope string_scope.
Local Open Scope list_scope.
Local Open Scope nat_scope.

(* ================================================================= *)
(** * Task (task.py) *)
(* ================================================================= *)

Inductive TaskStatus : Type :=
| PENDING
| SCHEDULED
| RUNNING
| FAILED
| COMPLETED
| CANCELED.

Definition TaskStatus_eqb (a b : TaskStatus) : bool :=
  match a, b with
  | PENDING, PENDING | SCHEDULED, SCHEDULED | RUNNING, RUNNING
  | FAILED, FAILED | COMPLETED, COMPLETED | CANCELED, CANCELED => true
  | _, _ => false
  end.

(** What can be raised.  [SchedulingException] is the scheduler's own;
    [KeyError] is what subscripting a plain [dict] with a missing key
    raises; [Error msg] stands for any other [Exception];
    [Interrupt name] stands for a [BaseException] that is not an
    [Exception] ([KeyboardInterrupt], [SystemExit], [GeneratorExit]). *)
Inductive exn : Type :=
| SchedulingException (msg : string)
| KeyError
| Error (msg : string)
| Interrupt (name : string).

(** [isinstance(e, Exception)]: what [except Exception] catches. *)
Definition is_Exception (e : exn) : bool :=
  match e with
  | Interrupt _ => false
  | _ => true
  end.

(** Values a work function returns and [_task_result] holds. *)
Inductive value : Type :=
| VNone
| VInt (z : Z)
| VExc (e : exn).

(** What a call does: it returns a value or raises. *)
Inductive completion : Type :=
| Returns (v : value)
| Raises (e : exn).

(** A reference to a Task object. *)
Record TaskRef : Type := mkRef { addr : nat; task_id : string }.

(** [Task.__eq__]: [self._task_id == other._task_id]. *)
Definition Task_eqb (a b : TaskRef) : bool := String.eqb (task_id a) (task_id b).

(** A [set] of tasks. *)
Definition taskset : Type := list TaskRef.

(** [t in s]. *)
Definition set_contains (t : TaskRef) (s : taskset) : bool :=
  existsb (Task_eqb t) s.

(** [s.add(t)]: an element equal to [t] already in the set is kept. *)
Definition set_add (t : TaskRef) (s : taskset) : taskset :=
  if set_contains t s then s else s ++ [t].

(** [set(iterable)] / [frozenset(iterable)]. *)
Definition set_of (l : list TaskRef) : taskset :=
  fold_left (fun s t => set_add t s) l [].

(** What a callback slot can hold: the three bound methods the
    Scheduler registers, or an object supplied by the caller, of which
    only the truth value and the completion of a call are modelled (a
    call touches neither tasks nor scheduler).  [Callable] is an object
    whose truth value is true, as a function or a bound method is;
    [Falsy] is one whose truth value is false (its [__bool__] or
    [__len__] says so). *)
Inductive callback : Type :=
| Scheduler_on_task_completed
| Scheduler_on_task_failed
| Scheduler_on_task_canceled
| Callable (c : completion)
| Falsy (c : completion).

(** [bool(f)]. *)
Definition truthy (f : callback) : bool :=
  match f with
  | Falsy _ => false
  | _ => true
  end.

(** [if slot: slot(self)]: what is called, if anything.  An empty slot
    holds [None]. *)
Definition armed (slot : option callback) : option callback :=
  match slot with
  | Some f => if truthy f then Some f else None
  | None => None
  end.

(** The fields of a Task object.  [execute] is the abstract work method
    as the subclass implements it, seen as a black box that returns or
    raises. *)
Record Task : Type := mkTask {
  dependencies : list TaskRef;
  task_status : TaskStatus;
  on_task_completed : option callback;
  on_task_canceled : option callback;
  on_task_failed : option callback;
  canceled_event : bool;
  task_result : value;
  execute : completion
}.

(** [Task.__init__]: what [Task(dependencies, task_id)] builds; the
    dependencies are frozen into a [frozenset]. *)
Definition Task_init (deps : list TaskRef) (work : completion) : Task :=
  {| dependencies := set_of deps;
     task_status := PENDING;
     on_task_completed := None;
     on_task_canceled := None;
     on_task_failed := None;
     canceled_event := false;
     task_result := VNone;
     execute := work |}.

(** The store of Task objects: what lives at each address (object
    identity).  The tasks are built by the caller before any of the
    operations below runs, so the store is given whole. *)
Definition store : Type := nat -> Task.

(** The store holding the listed objects at addresses 0, 1, ... *)
Definition store_of (objects : list Task) : store :=
  fun a => nth a objects (Task_init [] (Returns VNone)).

(** The object at address [a]. *)
Definition get (st : store) (a : nat) : Task := st a.

(** Writing fields of the object at address [a]. *)
Definition alter (f : Task -> Task) (a : nat) (st : store) : store :=
  fun b => if Nat.eqb b a then f (st b) else st b.

Definition set_status (s : TaskStatus) (o : Task) : Task :=
  {| dependencies := dependencies o;
     task_status := s;
     on_task_completed := on_task_completed o;
     on_task_canceled := on_task_canceled o;
     on_task_failed := on_task_failed o;
     canceled_event := canceled_event o;
     task_result := task_result o;
     execute := execute o |}.

Definition set_result (v : value) (o : Task) : Task :=
  {| dependencies := dependencies o;
     task_status := task_status o;
     on_task_completed := on_task_completed o;
     on_task_canceled := on_task_canceled o;
     on_task_failed := on_task_failed o;
     canceled_event := canceled_event o;
     task_result := v;
     execute := execute o |}.

Definition set_canceled_event (o : Task) : Task :=
  {| dependencies := dependencies o;
     task_status := task_status o;
     on_task_completed := on_task_completed o;
     on_task_canceled := on_task_canceled o;
     on_task_failed := on_task_failed o;
     canceled_event := true;
     task_result := task_result o;
     execute := execute o |}.

Definition set_on_task_completed (f : callback) (o : Task) : Task :=
  {| dependencies := dependencies o;
     task_status := task_status o;
     on_task_completed := Some f;
     on_task_canceled := on_task_canceled o;
     on_task_failed := on_task_failed o;
     canceled_event := canceled_event o;
     task_result := task_result o;
     execute := execute o |}.

Definition set_on_task_failed (f : callback) (o : Task) : Task :=
  {| dependencies := dependencies o;
     task_status := task_status o;
     on_task_completed := on_task_completed o;
     on_task_canceled := on_task_canceled o;
     on_task_failed := Some f;
     canceled_event := canceled_event o;
     task_result := task_result o;
     execute := execute o |}.

Definition set_on_task_canceled (f : callback) (o : Task) : Task :=
  {| dependencies := dependencies o;
     task_status := task_status o;
     on_task_completed := on_task_completed o;
     on_task_canceled := Some f;
     on_task_failed := on_task_failed o;
     canceled_event := canceled_event o;
     task_result := task_result o;
     execute := execute o |}.

(** [Task.status], the property. *)
Definition status (st : store) (t : TaskRef) : TaskStatus :=
  task_status (get st (addr t)).

(** [Task.result], the property. *)
Definition result (st : store) (t : TaskRef) : value :=
  task_result (get st (addr t)).

(** [Task.cancel]: [self.__canceled_event.set()]. *)
Definition cancel (st : store) (t : TaskRef) : store :=
  alter set_canceled_event (addr t) st.

(** [Task.mark_as_scheduled]: [self.__task_status = TaskStatus.SCHEDULED]. *)
Definition mark_as_scheduled (st : store) (t : TaskRef) : store :=
  alter (set_status SCHEDULED) (addr t) st.

Definition register_on_task_completed (st : store) (t : TaskRef) (f : callback) : store :=
  alter (set_on_task_completed f) (addr t) st.

Definition register_on_task_failed (st : store) (t : TaskRef) (f : callback) : store :=
  alter (set_on_task_failed f) (addr t) st.

Definition register_on_task_canceled (st : store) (t : TaskRef) (f : callback) : store :=
  alter (set_on_task_canceled f) (addr t) st.

(* ================================================================= *)
(** * Dictionaries and sets keyed by Task *)
(* ================================================================= *)

(** A [dict] with Task keys. *)
Definition dict (V : Type) : Type := list (TaskRef * V).

(** [d.get(k)]: the value under a key equal to [k]. *)
Fixpoint dict_find {V : Type} (k : TaskRef) (d : dict V) : option V :=
  match d with
  | [] => None
  | (k', v) :: d' => if Task_eqb k k' then Some v else dict_find k d'
  end.

(** [k in d]. *)
Definition dict_contains {V : Type} (k : TaskRef) (d : dict V) : bool :=
  match dict_find k d with Some _ => true | None => false end.

(** [d[k] = v]: the value is replaced in place under an existing key
    (which keeps its key object), a new key goes to the end. *)
Fixpoint dict_set {V : Type} (k : TaskRef) (v : V) (d : dict V) : dict V :=
  match d with
  | [] => [(k, v)]
  | (k', v') :: d' =>
      if Task_eqb k k' then (k', v) :: d' else (k', v') :: dict_set k v d'
  end.

(** [d[k]] on a [defaultdict(set)]: a missing key is first stored with
    an empty set. *)
Definition defaultdict_getitem (k : TaskRef) (d : dict taskset) : taskset * dict taskset :=
  match dict_find k d with
  | Some v => (v, d)
  | None => ([], d ++ [(k, [])])
  end.

(* ================================================================= *)
(** * Scheduler (scheduler.py) *)
(* ================================================================= *)

Record Scheduler : Type := mkScheduler {
  task_to_dependencies : dict taskset;
  task_to_dependents : dict taskset
}.

(** [Scheduler()] with no tasks. *)
Definition Scheduler_init : Scheduler :=
  {| task_to_dependencies := []; task_to_dependents := [] |}.

(** What a call observes, in order. *)
Inductive event : Type :=
| StatusSet (t : TaskRef) (s : TaskStatus)
| WorkInvoked (t : TaskRef)
| ResultSet (t : TaskRef) (v : value)
| CompletedFired (t : TaskRef)
| FailedFired (t : TaskRef)
| CanceledFired (t : TaskRef)
| NotifyAll.

(** The state a call runs in and leaves behind, what it did, and how it
    ended ([None]: it returned). *)
Record run : Type := mkRun {
  run_store : store;
  run_sched : Scheduler;
  run_trace : list event;
  run_raised : option exn
}.

(** [for dependents in ...: dependents.cancel()]. *)
Definition cancel_all (st : store) (ts : taskset) : store :=
  fold_left cancel ts st.

(** [Scheduler.__on_task_completed]. *)
Definition Scheduler__on_task_completed (st : store) (s : Scheduler) (task : TaskRef) : run :=
  mkRun st s [NotifyAll] None.

(** [Scheduler.__on_task_failed]. *)
Definition Scheduler__on_task_failed (st : store) (s : Scheduler) (task : TaskRef) : run :=
  let '(dependents, t2d) := defaultdict_getitem task (task_to_dependents s) in
  mkRun (cancel_all st dependents)
        {| task_to_dependencies := task_to_dependencies s; task_to_dependents := t2d |}
        [NotifyAll] None.

(** [Scheduler.__on_task_canceled]. *)
Definition Scheduler__on_task_canceled (st : store) (s : Scheduler) (task : TaskRef) : run :=
  let '(dependents, t2d) := defaultdict_getitem task (task_to_dependents s) in
  mkRun (cancel_all st dependents)
        {| task_to_dependencies := task_to_dependencies s; task_to_dependents := t2d |}
        [NotifyAll] None.

(** Calling what a callback slot holds, with the task as argument. *)
Definition call (f : callback) (st : store) (s : Scheduler) (task : TaskRef) : run :=
  match f with
  | Scheduler_on_task_completed => Scheduler__on_task_completed st s task
  | Scheduler_on_task_failed => Scheduler__on_task_failed st s task
  | Scheduler_on_task_canceled => Scheduler__on_task_canceled st s task
  | Callable (Returns _) | Falsy (Returns _) => mkRun st s [] None
  | Callable (Raises e) | Falsy (Raises e) => mkRun st s [] (Some e)
  end.

(** The [except Exception as exception:] block of [execute_task]; [tr]
    is what happened before the exception was caught. *)
Definition execute_task_except (st : store) (s : Scheduler) (self : TaskRef)
    (tr : list event) (exception : exn) : run :=
  let st1 := alter (set_result (VExc exception)) (addr self) st in
  let st2 := alter (set_status FAILED) (addr self) st1 in
  let tr2 := tr ++ [ResultSet self (VExc exception); StatusSet self FAILED] in
  match armed (on_task_failed (get st2 (addr self))) with
  | Some f =>
      let r := call f st2 s self in
      mkRun (run_store r) (run_sched r) (tr2 ++ [FailedFired self] ++ run_trace r) (run_raised r)
  | None => mkRun st2 s tr2 None
  end.

(** [Task.execute_task].  What is raised inside the [try] block, by the
    work function or by the on-completed callback, is caught when it is
    an [Exception] and leaves the call as it is otherwise; the
    on-canceled and on-failed callbacks are called outside any [try]. *)
Definition execute_task (st : store) (s : Scheduler) (self : TaskRef) : run :=
  if canceled_event (get st (addr self)) then
    let st1 := alter (set_status CANCELED) (addr self) st in
    match armed (on_task_canceled (get st1 (addr self))) with
    | Some f =>
        let r := call f st1 s self in
        mkRun (run_store r) (run_sched r)
              ([StatusSet self CANCELED; CanceledFired self] ++ run_trace r) (run_raised r)
    | None => mkRun st1 s [StatusSet self CANCELED] None
    end
  else
    let st1 := alter (set_status RUNNING) (addr self) st in
    let tr1 := [StatusSet self RUNNING; WorkInvoked self] in
    match execute (get st1 (addr self)) with
    | Raises exception =>
        if is_Exception exception then execute_task_except st1 s self tr1 exception
        else mkRun st1 s tr1 (Some exception)
    | Returns v =>
        let st2 := alter (set_result v) (addr self) st1 in
        let st3 := alter (set_status COMPLETED) (addr self) st2 in
        let tr3 := tr1 ++ [ResultSet self v; StatusSet self COMPLETED] in
        match armed (on_task_completed (get st3 (addr self))) with
        | None => mkRun st3 s tr3 None
        | Some f =>
            let r := call f st3 s self in
            let tr4 := tr3 ++ [CompletedFired self] ++ run_trace r in
            match run_raised r with
            | None => mkRun (run_store r) (run_sched r) tr4 None
            | Some exception =>
                if is_Exception exception then
                  execute_task_except (run_store r) (run_sched r) self tr4 exception
                else mkRun (run_store r) (run_sched r) tr4 (Some exception)
            end
        end
    end.

(** [Scheduler.schedule]. *)
Definition schedule (st : store) (s : Scheduler) (task : TaskRef) : run :=
  if dict_contains task (task_to_dependencies s) then
    mkRun st s [] (Some (SchedulingException "Task already exists in the scheduler."))
  else
    let st1 := register_on_task_completed st task Scheduler_on_task_completed in
    let st2 := register_on_task_failed st1 task Scheduler_on_task_failed in
    let st3 := register_on_task_canceled st2 task Scheduler_on_task_canceled in
    let deps := dependencies (get st3 (addr task)) in
    let t2d := dict_set task (set_of deps) (task_to_dependencies s) in
    let t2ds :=
      fold_left
        (fun d dependency =>
           let '(v, d1) := defaultdict_getitem dependency d in
           dict_set dependency (set_add task v) d1)
        deps (task_to_dependents s) in
    mkRun st3 {| task_to_dependencies := t2d; task_to_dependents := t2ds |} [] None.

(** How a loop run on bounded fuel ends. *)
Inductive loop_result (A : Type) : Type :=
| Done (a : A)
| Raised (e : exn)
| OutOfFuel.
Arguments Done {A} a.
Arguments Raised {A} e.
Arguments OutOfFuel {A}.

(** The inner loop of [__has_cycles]:
    [for dependent in self.__task_to_dependents[task]], where
    [out_degree[dependent] -= 1] raises [KeyError] ([None]) on a key the
    table does not hold. *)
Fixpoint visit_dependents (dependents : taskset) (out_degree : dict Z)
    (ready_queue : list TaskRef) : option (dict Z * list TaskRef) :=
  match dependents with
  | [] => Some (out_degree, ready_queue)
  | dependent :: rest =>
      match dict_find dependent out_degree with
      | None => None
      | Some n =>
          let out_degree' := dict_set dependent (n - 1)%Z out_degree in
          let ready_queue' :=
            if (n - 1 =? 0)%Z then ready_queue ++ [dependent] else ready_queue in
          visit_dependents rest out_degree' ready_queue'
      end
  end.

(** The [while ready_queue:] loop of [__has_cycles], one unit of fuel
    per task popped. *)
Fixpoint kahn_loop (fuel : nat) (t2ds : dict taskset) (out_degree : dict Z)
    (ready_queue : list TaskRef) (processed_count : nat)
  : dict taskset * loop_result nat :=
  match ready_queue with
  | [] => (t2ds, Done processed_count)
  | task :: ready_queue' =>
      match fuel with
      | O => (t2ds, OutOfFuel)
      | S fuel' =>
          let '(dependents, t2ds1) := defaultdict_getitem task t2ds in
          match visit_dependents dependents out_degree ready_queue' with
          | None => (t2ds1, Raised KeyError)
          | Some (out_degree', ready_queue'') =>
              kahn_loop fuel' t2ds1 out_degree' ready_queue'' (S processed_count)
          end
      end
  end.

(** [out_degree = {task: len(dependencies) for ...}]. *)
Definition out_degree_of (t2d : dict taskset) : dict Z :=
  map (fun '(task, deps) => (task, Z.of_nat (length deps))) t2d.

(** [deque(task for task, degree in out_degree.items() if degree == 0)]. *)
Definition ready_queue_of (out_degree : dict Z) : list TaskRef :=
  map fst (filter (fun '(_, degree) => (degree =? 0)%Z) out_degree).

(** The number of tasks [__has_cycles] pops, on the given fuel. *)
Definition processed (fuel : nat) (s : Scheduler) : dict taskset * loop_result nat :=
  let out_degree := out_degree_of (task_to_dependencies s) in
  kahn_loop fuel (task_to_dependents s) out_degree (ready_queue_of out_degree) 0.

(** [Scheduler.__has_cycles].  Every pass of the loop pops one task, and
    the fuel is one more than the number of registered tasks. *)
Definition Scheduler__has_cycles (s : Scheduler) : Scheduler * loop_result bool :=
  let '(t2ds, r) := processed (S (length (task_to_dependencies s))) s in
  ({| task_to_dependencies := task_to_dependencies s; task_to_dependents := t2ds |},
   match r with
   | Done processed_count =>
       Done (negb (processed_count =? length (task_to_dependencies s)))
   | Raised e => Raised e
   | OutOfFuel => OutOfFuel
   end).

(** A generator made by reading the [ready_tasks] property: not yet
    advanced, suspended at [yield], parked in [self.__condition.wait()],
    or finished. *)
Inductive generator : Type :=
| GEN_CREATED
| GEN_SUSPENDED
| GEN_WAITING
| GEN_CLOSED.

(** What advancing the generator gives its consumer: a task, the end of
    the sequence, an exception, or a thread parked until the next
    [notifyAll]. *)
Inductive signal : Type :=
| Yield (task : TaskRef)
| StopIteration
| Raise (e : exn)
| Wait
| Unbounded.

(** [dep.status != RUNNING and dep.status != PENDING and
    dep.status != SCHEDULED]. *)
Definition dep_settled (st : store) (dep : TaskRef) : bool :=
  negb (TaskStatus_eqb (status st dep) RUNNING)
  && negb (TaskStatus_eqb (status st dep) PENDING)
  && negb (TaskStatus_eqb (status st dep) SCHEDULED).

(** [all(... for dep in dependencies)]. *)
Definition all_deps_completed (st : store) (deps : taskset) : bool :=
  forallb (dep_settled st) deps.

(** [any(task.status == TaskStatus.PENDING for task in ...keys())]. *)
Definition has_pending_tasks (st : store) (t2d : dict taskset) : bool :=
  existsb (fun task => TaskStatus_eqb (status st task) PENDING) (map fst t2d).

(** The [for task, dependencies in ...items()] scan: the first pending
    task whose dependencies are all settled, if any. *)
Fixpoint find_ready (st : store) (items : dict taskset) : option TaskRef :=
  match items with
  | [] => None
  | (task, deps) :: rest =>
      if negb (TaskStatus_eqb (status st task) PENDING) then find_ready st rest
      else if all_deps_completed st deps then Some task
      else find_ready st rest
  end.

(** One pass of the [while True:] loop of [ready_tasks], up to its
    [return], [yield] or [wait()]. *)
Definition ready_tasks_pass (st : store) (s : Scheduler) : store * generator * signal :=
  if negb (has_pending_tasks st (task_to_dependencies s)) then
    (st, GEN_CLOSED, StopIteration)
  else
    match find_ready st (task_to_dependencies s) with
    | Some ready_task =>
        (mark_as_scheduled st ready_task, GEN_SUSPENDED, Yield ready_task)
    | None => (st, GEN_WAITING, Wait)
    end.

(** Advancing a [ready_tasks] generator: [next(gen)], or the wake-up of
    the thread parked in it.  The cycle check sits before the loop and
    so runs when the generator is first advanced. *)
Definition next (st : store) (s : Scheduler) (g : generator)
  : store * Scheduler * generator * signal :=
  match g with
  | GEN_CREATED =>
      let '(s', r) := Scheduler__has_cycles s in
      match r with
      | Done true =>
          (st, s', GEN_CLOSED,
           Raise (SchedulingException "Dependency graph contains circular dependencies"))
      | Done false =>
          let '(st', g', sig) := ready_tasks_pass st s' in (st', s', g', sig)
      | Raised e => (st, s', GEN_CLOSED, Raise e)
      | OutOfFuel => (st, s', GEN_CLOSED, Unbounded)
      end
  | GEN_SUSPENDED | GEN_WAITING =>
      let '(st', g', sig) := ready_tasks_pass st s in (st', s, g', sig)
  | GEN_CLOSED => (st, s, GEN_CLOSED, StopIteration)
  end.

(* ================================================================= *)
(** * The consumer *)
(* ================================================================= *)

(** What a drain leaves behind: the final state, the tasks it was
    handed in order, what the executions did, and the signal that
    ended it. *)
Record drained : Type := mkDrained {
  d_store : store;
  d_sched : Scheduler;
  d_yielded : list TaskRef;
  d_trace : list event;
  d_signal : signal
}.

(** The consumer the scheduler is written for, on one thread:
    [for task in scheduler.ready_tasks: task.execute_task()].
    Each task the generator yields is executed before the generator is
    advanced again; an exception of [execute_task] ends the loop.  One
    unit of fuel per advance of the generator. *)
Fixpoint drain (fuel : nat) (st : store) (s : Scheduler) (g : generator)
    (ys : list TaskRef) (tr : list event) : drained :=
  match fuel with
  | O => mkDrained st s ys tr Unbounded
  | S fuel' =>
      let '(st1, s1, g1, sig) := next st s g in
      match sig with
      | Yield task =>
          let r := execute_task st1 s1 task in
          match run_raised r with
          | Some e =>
              mkDrained (run_store r) (run_sched r) (ys ++ [task])
                        (tr ++ run_trace r) (Raise e)
          | None =>
              drain fuel' (run_store r) (run_sched r) g1 (ys ++ [task])
                    (tr ++ run_trace r)
          end
      | _ => mkDrained st1 s1 ys tr sig
      end
  end.

(* ================================================================= *)
(** * Vocabulary of the properties *)
(* ================================================================= *)

Definition ids (l : list TaskRef) : list string := map task_id l.

Definition keys {V : Type} (d : dict V) : list TaskRef := map fst d.

(** A task with this identifier has been passed to [schedule]. *)
Definition registered (s : Scheduler) (t : TaskRef) : Prop :=
  In (task_id t) (ids (keys (task_to_dependencies s))).

(** The content of [task_to_dependents] under a key; a key that is
    missing and a key that holds the empty set read the same. *)
Definition dependents_of (t2ds : dict taskset) (t : TaskRef) : taskset :=
  match dict_find t t2ds with Some v => v | None => [] end.

(** [t] is registered and [d] is one of the dependencies recorded for it. *)
Definition depends_on (s : Scheduler) (t d : TaskRef) : Prop :=
  exists deps, dict_find t (task_to_dependencies s) = Some deps
               /\ In (task_id d) (ids deps).

(** A path of one or more dependency edges between registered tasks. *)
Inductive chain (s : Scheduler) : TaskRef -> TaskRef -> Prop :=
| chain_edge : forall a b, depends_on s a b -> registered s b -> chain s a b
| chain_step : forall a b c,
    depends_on s a b -> registered s b -> chain s b c -> chain s a c.

(** The graph contains a cycle among registered tasks. *)
Definition cyclic (s : Scheduler) : Prop := exists t, chain s t t.

(** Completed, Failed or Canceled. *)
Definition settled (x : TaskStatus) : Prop :=
  x = COMPLETED \/ x = FAILED \/ x = CANCELED.

(** The invariant of the scheduler's two mappings: identifiers are
    registered once, the recorded sets have no two members of the same
    identifier, and [task_to_dependents] is the transpose of
    [task_to_dependencies]. *)
Record sched_wf (s : Scheduler) : Prop := mk_sched_wf {
  wf_keys : NoDup (ids (keys (task_to_dependencies s)));
  wf_deps : forall t deps,
      In (t, deps) (task_to_dependencies s) -> NoDup (ids deps);
  wf_dependents : forall p, NoDup (ids (dependents_of (task_to_dependents s) p));
  wf_transpose : forall p t,
      In (task_id t) (ids (dependents_of (task_to_dependents s) p))
      <-> depends_on s t p
}.

(** [x] is among the identifiers [P]. *)
Definition inb (x : string) (P : list string) : bool := existsb (String.eqb x) P.

(** How many of the dependencies [deps] are not among the tasks [P]
    popped so far. *)
Definition remaining (P : list string) (deps : taskset) : nat :=
  List.length (filter (fun d => negb (inb (task_id d) P)) deps).

(** [P] lists tasks in a topological order of the graph: the
    dependencies recorded for each member all stand before it. *)
Definition topological (t2d : dict taskset) (P : list string) : Prop :=
  forall P1 x P2, P = P1 ++ x :: P2 ->
  forall t deps, task_id t = x -> dict_find t t2d = Some deps ->
  forall d, In d deps -> In (task_id d) P1.

(** A set of identifiers none of which can come first: each member
    that is registered has a dependency that is in the set or is not
    registered.  The tasks on a cycle form such a set, and so does a
    task with an unregistered dependency on its own. *)
Definition blocked (s : Scheduler) (B : string -> Prop) : Prop :=
  forall t deps, B (task_id t) ->
    dict_find t (task_to_dependencies s) = Some deps ->
    exists d, In d deps /\ (B (task_id d) \/ ~ registered s d).

(** What the inner loop of [__has_cycles] enqueues: the dependents
    whose count drops to zero. *)
Definition hits_zero (out_degree : dict Z) (t : TaskRef) : bool :=
  match dict_find t out_degree with
  | Some n => (n - 1 =? 0)%Z
  | None => false
  end.

(** The state of the loop of [__has_cycles] after the tasks [P] have
    been popped, with [Q] waiting in the queue and the counts [D]. *)
Record kahn_inv (s : Scheduler) (P : list string) (Q : list TaskRef) (D : dict Z)
  : Prop := mk_kahn_inv {
  ki_nodup : NoDup (P ++ ids Q);
  ki_reg : forall x, In x (P ++ ids Q) -> In x (ids (keys (task_to_dependencies s)));
  ki_deg : forall t,
      dict_find t D
      = option_map (fun deps => Z.of_nat (remaining P deps))
          (dict_find t (task_to_dependencies s));
  ki_zero : forall t deps,
      dict_find t (task_to_dependencies s) = Some deps ->
      In (task_id t) (P ++ ids Q) -> remaining P deps = 0;
  ki_topo : topological (task_to_dependencies s) P
}.

(** The identifiers of the tasks that lie on a cycle. *)
Definition on_cycle (s : Scheduler) (x : string) : Prop :=
  exists t, task_id t = x /\ chain s t t.

(** The error [ready_tasks] raises when the cycle check answers yes. *)
Definition circular_dependencies : exn :=
  SchedulingException "Dependency graph contains circular dependencies".

(** The states the two classes can be brought to: from a fresh
    Scheduler, by scheduling, executing, marking and canceling tasks,
    registering callbacks, and advancing generators, in any order. *)
Inductive reachable : store -> Scheduler -> Prop :=
| reach_init : forall st, reachable st Scheduler_init
| reach_schedule : forall st s t,
    reachable st s ->
    reachable (run_store (schedule st s t)) (run_sched (schedule st s t))
| reach_execute_task : forall st s t,
    reachable st s ->
    reachable (run_store (execute_task st s t)) (run_sched (execute_task st s t))
| reach_cancel : forall st s t, reachable st s -> reachable (cancel st t) s
| reach_mark_as_scheduled : forall st s t,
    reachable st s -> reachable (mark_as_scheduled st t) s
| reach_register_completed : forall st s t f,
    reachable st s -> reachable (register_on_task_completed st t f) s
| reach_register_failed : forall st s t f,
    reachable st s -> reachable (register_on_task_failed st t f) s
| reach_register_canceled : forall st s t f,
    reachable st s -> reachable (register_on_task_canceled st t f) s
| reach_next : forall st s g,
    reachable st s ->
    reachable (fst (fst (fst (next st s g)))) (snd (fst (fst (next st s g)))).

(** All fields but the cancellation flag agree. *)
Definition same_but_flag (o o' : Task) : Prop :=
  dependencies o' = dependencies o
  /\ task_status o' = task_status o
  /\ on_task_completed o' = on_task_completed o
  /\ on_task_canceled o' = on_task_canceled o
  /\ on_task_failed o' = on_task_failed o
  /\ task_result o' = task_result o
  /\ execute o' = execute o.

(** What a call of the callback raises, if anything; the Scheduler's
    handlers return. *)
Definition callback_raises (f : callback) : option exn :=
  match f with
  | Callable (Raises e) | Falsy (Raises e) => Some e
  | _ => None
  end.

(** What [if slot: slot(self)] raises, if anything. *)
Definition slot_raises (slot : option callback) : option exn :=
  match armed slot with
  | Some f => callback_raises f
  | None => None
  end.

(** A callback slot whose call, if one is made, returns: the slot is
    empty, or holds an object that is skipped or that returns; the
    Scheduler's handlers return. *)
Definition returns_normally (f : option callback) : Prop :=
  forall e, f <> Some (Callable (Raises e)).

(** The work function of the object returns or raises an [Exception]. *)
Definition work_catchable (o : Task) : Prop :=
  forall e, execute o = Raises e -> is_Exception e = true.

(** The callback slots as [schedule] leaves them. *)
Definition scheduler_callbacks (o : Task) : Prop :=
  on_task_completed o = Some Scheduler_on_task_completed
  /\ on_task_failed o = Some Scheduler_on_task_failed
  /\ on_task_canceled o = Some Scheduler_on_task_canceled.

(** [cancel] called [n] times on the same task. *)
Fixpoint cancel_times (n : nat) (st : store) (t : TaskRef) : store :=
  match n with
  | O => st
  | S n' => cancel (cancel_times n' st t) t
  end.

(** The statuses a call writes to [t], in order. *)
Fixpoint statuses_written (t : TaskRef) (tr : list event) : list TaskStatus :=
  match tr with
  | [] => []
  | StatusSet u s :: tr' =>
      if Nat.eqb (addr u) (addr t) then s :: statuses_written t tr'
      else statuses_written t tr'
  | _ :: tr' => statuses_written t tr'
  end.

(** How often a call invokes the work function of [t]. *)
Fixpoint work_invocations (t : TaskRef) (tr : list event) : nat :=
  match tr with
  | [] => 0
  | WorkInvoked u :: tr' =>
      (if Nat.eqb (addr u) (addr t) then 1 else 0) + work_invocations t tr'
  | _ :: tr' => work_invocations t tr'
  end.

(** The lifecycle callbacks a call fires, in order. *)
Fixpoint callbacks_fired (tr : list event) : list event :=
  match tr with
  | [] => []
  | CompletedFired u :: tr' => CompletedFired u :: callbacks_fired tr'
  | FailedFired u :: tr' => FailedFired u :: callbacks_fired tr'
  | CanceledFired u :: tr' => CanceledFired u :: callbacks_fired tr'
  | _ :: tr' => callbacks_fired tr'
  end.

(** Every reference the two mappings hold is a registered task object
    itself, and different registered tasks are different objects: the
    caller has passed to [schedule] each task another one depends on,
    and no second object carries a registered identifier. *)
Record objects_wf (s : Scheduler) : Prop := mk_objects_wf {
  ow_addr : NoDup (map addr (keys (task_to_dependencies s)));
  ow_deps : forall t deps d,
      In (t, deps) (task_to_dependencies s) -> In d deps ->
      In d (keys (task_to_dependencies s));
  ow_dependents : forall p u,
      In u (dependents_of (task_to_dependents s) p) ->
      In u (keys (task_to_dependencies s))
}.

(** What a call may do to a task object besides writing its status and
    result: the dependency set, the callbacks and the work function
    stay, and a flag that is set stays set. *)
Definition evolves (o o' : Task) : Prop :=
  dependencies o' = dependencies o
  /\ on_task_completed o' = on_task_completed o
  /\ on_task_canceled o' = on_task_canceled o
  /\ on_task_failed o' = on_task_failed o
  /\ execute o' = execute o
  /\ (canceled_event o = true -> canceled_event o' = true).

(** The state between two advances of the generator in a drain, over
    the registered tasks [t2d]: [ys] have been yielded and executed so
    far, and the executions did [tr]. *)
Record drain_inv (t2d : dict taskset) (st : store) (ys : list TaskRef)
    (tr : list event) : Prop := mk_drain_inv {
  di_status : forall t, In t (keys t2d) ->
      status st t = PENDING \/ settled (status st t);
  di_flag : forall t deps d, In (t, deps) t2d -> In d deps ->
      status st d = FAILED \/ status st d = CANCELED ->
      canceled_event (get st (addr t)) = true;
  di_done : forall t deps d, In (t, deps) t2d ->
      status st t = COMPLETED \/ status st t = FAILED ->
      In d deps -> status st d = COMPLETED;
  di_callbacks : forall t, In t (keys t2d) -> scheduler_callbacks (get st (addr t));
  di_work : forall t, In t (keys t2d) ->
      status st t = PENDING \/ status st t = CANCELED ->
      work_invocations t tr = 0;
  di_yielded : forall t, In t (keys t2d) -> settled (status st t) -> In t ys;
  di_ys : forall t, In t ys -> In t (keys t2d) /\ settled (status st t);
  di_ys_nodup : NoDup ys;
  di_catchable : forall t, In t (keys t2d) -> work_catchable (get st (addr t))
}.

(* ================================================================= *)
(** * More of the two classes *)
(* ================================================================= *)

(** The loop of [Scheduler.__init__]: [for task in ...: self.schedule(task)];
    the first exception ends it. *)
Fixpoint schedule_each (st : store) (s : Scheduler) (tasks : list TaskRef) : run :=
  match tasks with
  | [] => mkRun st s [] None
  | task :: rest =>
      match run_raised (schedule st s task) with
      | Some e => schedule st s task
      | None =>
          schedule_each (run_store (schedule st s task))
                        (run_sched (schedule st s task)) rest
      end
  end.

(** [Scheduler.__init__]: [Scheduler(tasks)]; [None] and an empty
    collection both give [tasks if tasks else set()] the empty set. *)
Definition Scheduler_new (st : store) (tasks : option (list TaskRef)) : run :=
  schedule_each st Scheduler_init
    (match tasks with Some ts => ts | None => [] end).

(** What the calls of the two classes, made in any order from a given
    state, can lead to. *)
Inductive leads_to (st0 : store) (s0 : Scheduler) : store -> Scheduler -> Prop :=
| lead_here : leads_to st0 s0 st0 s0
| lead_schedule : forall st s t,
    leads_to st0 s0 st s ->
    leads_to st0 s0 (run_store (schedule st s t)) (run_sched (schedule st s t))
| lead_execute_task : forall st s t,
    leads_to st0 s0 st s ->
    leads_to st0 s0 (run_store (execute_task st s t)) (run_sched (execute_task st s t))
| lead_cancel : forall st s t, leads_to st0 s0 st s -> leads_to st0 s0 (cancel st t) s
| lead_mark_as_scheduled : forall st s t,
    leads_to st0 s0 st s -> leads_to st0 s0 (mark_as_scheduled st t) s
| lead_register_completed : forall st s t f,
    leads_to st0 s0 st s -> leads_to st0 s0 (register_on_task_completed st t f) s
| lead_register_failed : forall st s t f,
    leads_to st0 s0 st s -> leads_to st0 s0 (register_on_task_failed st t f) s
| lead_register_canceled : forall st s t f,
    leads_to st0 s0 st s -> leads_to st0 s0 (register_on_task_canceled st t f) s
| lead_next : forall st s g,
    leads_to st0 s0 st s ->
    leads_to st0 s0 (fst (fst (fst (next st s g)))) (snd (fst (fst (next st s g)))).

(** A path along dependency edges through registered tasks, listed
    from the dependent end. *)
Inductive walk (s : Scheduler) : list TaskRef -> Prop :=
| walk_one : forall u, registered s u -> walk s [u]
| walk_cons : forall u v w,
    registered s u -> depends_on s u v -> walk s (v :: w) -> walk s (u :: v :: w).

(** Some registered task has a dependency that is not registered. *)
Definition dangling (s : Scheduler) : Prop :=
  exists t d, depends_on s t d /\ ~ registered s d.

(** The loop of [__has_cycles] misses no task: whoever has all its
    dependencies popped is popped or queued. *)
Definition kahn_full (s : Scheduler) (P : list string) (Q : list TaskRef) : Prop :=
  forall t deps,
    dict_find t (task_to_dependencies s) = Some deps ->
    remaining P deps = 0 -> In (task_id t) (P ++ ids Q).


(** More of what holds between two advances of the generator in a
    drain that started in the store [st0]: the order of the yields, how
    often the work functions ran, where results and flags come from. *)
Record drain_more (t2d : dict taskset) (st0 st : store) (ys : list TaskRef)
    (tr : list event) : Prop := mk_drain_more {
  dm_order : forall ys1 t ys2, ys = ys1 ++ t :: ys2 ->
      forall deps d, In (t, deps) t2d -> In d deps -> In d ys1;
  dm_work : forall t, In t (keys t2d) ->
      status st t = COMPLETED \/ status st t = FAILED ->
      work_invocations t tr = 1;
  dm_completed : forall t, In t (keys t2d) -> status st t = COMPLETED ->
      execute (get st0 (addr t)) = Returns (result st t);
  dm_failed : forall t, In t (keys t2d) -> status st t = FAILED ->
      exists e, execute (get st0 (addr t)) = Raises e /\ result st t = VExc e;
  dm_untouched : forall t, In t (keys t2d) ->
      status st t = PENDING \/ status st t = CANCELED ->
      result st t = result st0 t;
  dm_evolves : forall a, evolves (get st0 a) (get st a);
  dm_flag : forall t, In t (keys t2d) -> canceled_event (get st (addr t)) = true ->
      canceled_event (get st0 (addr t)) = true
      \/ exists deps d, In (t, deps) t2d /\ In d deps
                        /\ (status st d = FAILED \/ status st d = CANCELED);
  dm_canceled : forall t, In t (keys t2d) -> status st t = CANCELED ->
      canceled_event (get st (addr t)) = true;
  dm_unflagged : forall t, In t (keys t2d) ->
      status st t = COMPLETED \/ status st t = FAILED ->
      canceled_event (get st (addr t)) = false
}.

(** The state a drain starts from: every registered task is Pending,
    carries the Scheduler's handlers, and has a work function that
    returns or raises an [Exception]. *)
Definition drain_start (st : store) (s : Scheduler) : Prop :=
  forall t, In t (keys (task_to_dependencies s)) ->
    scheduler_callbacks (get st (addr t)) /\ status st t = PENDING
    /\ work_catchable (get st (addr t)).

(** The drain of all registered tasks from a fresh generator. *)
Definition drain_all (st : store) (s : Scheduler) : drained :=
  drain (S (List.length (task_to_dependencies s))) st s GEN_CREATED [] [].


(* ================================================================= *)
(** * Example states *)
(* ================================================================= *)

Module Examples.

(** A fails, B depends on A. *)
Definition A : TaskRef := mkRef 0 "a".
Definition B : TaskRef := mkRef 1 "b".
Definition objects_AB : store :=
  store_of [Task_init [] (Raises (Error "boom")); Task_init [A] (Returns (VInt 1))].
Definition scheduled_A : run := schedule objects_AB Scheduler_init A.
Definition scheduled_AB : run := schedule (run_store scheduled_A) (run_sched scheduled_A) B.

(** The consumer pulls A, runs it (it fails), and pulls again. *)
Definition pulled_A : store * Scheduler * generator * signal :=
  next (run_store scheduled_AB) (run_sched scheduled_AB) GEN_CREATED.
Definition executed_A : run :=
  execute_task (fst (fst (fst pulled_A))) (snd (fst (fst pulled_A))) A.
Definition pulled_B : store * Scheduler * generator * signal :=
  next (run_store executed_A) (run_sched executed_A) GEN_SUSPENDED.
Definition executed_B : run :=
  execute_task (fst (fst (fst pulled_B))) (snd (fst (fst pulled_B))) B.

(** X stands alone; P and Q name each other through second objects
    carrying the same identifiers, which closes a cycle p -> q -> p. *)
Definition X : TaskRef := mkRef 0 "x".
Definition Q0 : TaskRef := mkRef 1 "q".
Definition P : TaskRef := mkRef 2 "p".
Definition Q : TaskRef := mkRef 3 "q".
Definition objects_XPQ : store :=
  store_of [Task_init [] (Returns VNone); Task_init [] (Returns VNone);
            Task_init [Q0] (Returns VNone); Task_init [P] (Returns VNone)].
Definition scheduled_X : run := schedule objects_XPQ Scheduler_init X.
Definition scheduled_XP : run := schedule (run_store scheduled_X) (run_sched scheduled_X) P.
Definition scheduled_XPQ : run := schedule (run_store scheduled_XP) (run_sched scheduled_XP) Q.

(** A generator is started while only X is registered and yields X;
    P and Q are registered afterwards; the suspended generator is
    resumed. *)
Definition pulled_X : store * Scheduler * generator * signal :=
  next (run_store scheduled_X) (run_sched scheduled_X) GEN_CREATED.
Definition then_P : run :=
  schedule (fst (fst (fst pulled_X))) (snd (fst (fst pulled_X))) P.
Definition then_Q : run := schedule (run_store then_P) (run_sched then_P) Q.
Definition resumed : store * Scheduler * generator * signal :=
  next (run_store then_Q) (run_sched then_Q) GEN_SUSPENDED.

(** D depends on U, and U is never passed to [schedule]. *)
Definition U : TaskRef := mkRef 0 "u".
Definition D : TaskRef := mkRef 1 "d".
Definition objects_UD : store :=
  store_of [Task_init [] (Returns VNone); Task_init [U] (Returns VNone)].
Definition scheduled_D : run := schedule objects_UD Scheduler_init D.

(** A task on its own, its work function returning 7, with an
    on-completed callback that raises and an on-failed callback that
    returns. *)
Definition W : TaskRef := mkRef 0 "w".
Definition objects_W : store :=
  register_on_task_failed
    (register_on_task_completed
       (store_of [Task_init [] (Returns (VInt 7))]) W
       (Callable (Raises (Error "callback"))))
    W (Callable (Returns VNone)).


(** A task on its own whose work function is interrupted from the
    keyboard. *)
Definition K : TaskRef := mkRef 0 "k".
Definition objects_K : store :=
  store_of [Task_init [] (Raises (Interrupt "KeyboardInterrupt"))].

(** G and H both succeed, H depends on G. *)
Definition G : TaskRef := mkRef 0 "g".
Definition H : TaskRef := mkRef 1 "h".
Definition objects_GH : store :=
  store_of [Task_init [] (Returns (VInt 1)); Task_init [G] (Returns (VInt 2))].
Definition scheduled_GH : run :=
  Scheduler_new objects_GH (Some [G; H]).


End Examples.

(* ================================================================= *)
(** * Basic facts: store, keys, dictionaries *)
(* ================================================================= *)

Lemma get_alter (f : Task -> Task) (a b : nat) (st : store) :
  get (alter f a st) b = if Nat.eqb b a then f (get st b) else get st b.
Proof. reflexivity. Qed.

Lemma get_alter_same (f : Task -> Task) (a : nat) (st : store) :
  get (alter f a st) a = f (get st a).
Proof. rewrite get_alter, Nat.eqb_refl; reflexivity. Qed.

Lemma get_alter_other (f : Task -> Task) (a b : nat) (st : store) :
  b <> a -> get (alter f a st) b = get st b.
Proof.
  intros Hne. rewrite get_alter.
  destruct (Nat.eqb_spec b a); [contradiction | reflexivity].
Qed.

Lemma Task_eqb_eq (a b : TaskRef) : Task_eqb a b = true <-> task_id a = task_id b.
Proof. unfold Task_eqb. apply String.eqb_eq. Qed.

Lemma Task_eqb_neq (a b : TaskRef) : Task_eqb a b = false <-> task_id a <> task_id b.
Proof. unfold Task_eqb. apply String.eqb_neq. Qed.

Lemma Task_eqb_refl (a : TaskRef) : Task_eqb a a = true.
Proof. apply Task_eqb_eq; reflexivity. Qed.

Lemma Task_eqb_cong (a a' b : TaskRef) :
  task_id a = task_id a' -> Task_eqb a b = Task_eqb a' b.
Proof. unfold Task_eqb. intros ->. reflexivity. Qed.

Lemma dict_find_cong {V : Type} (k k' : TaskRef) (d : dict V) :
  task_id k = task_id k' -> dict_find k d = dict_find k' d.
Proof.
  intros Hid. induction d as [|[k0 v] d IH]; simpl; [reflexivity|].
  rewrite (Task_eqb_cong k k' k0 Hid), IH. reflexivity.
Qed.

Lemma dict_find_Some_In {V : Type} (k : TaskRef) (v : V) (d : dict V) :
  dict_find k d = Some v -> exists k', In (k', v) d /\ task_id k' = task_id k.
Proof.
  induction d as [|[k0 v0] d IH]; simpl; [discriminate|].
  destruct (Task_eqb k k0) eqn:E.
  - intros [= <-]. exists k0. split; [now left|]. symmetry. now apply Task_eqb_eq.
  - intros H. destruct (IH H) as (k' & Hin & Hid). exists k'. split; [now right|assumption].
Qed.

Lemma dict_find_None {V : Type} (k : TaskRef) (d : dict V) :
  dict_find k d = None <-> ~ In (task_id k) (ids (keys d)).
Proof.
  induction d as [|[k0 v0] d IH]; simpl.
  - split; [intros _ []|reflexivity].
  - destruct (Task_eqb k k0) eqn:E.
    + apply Task_eqb_eq in E. split; [discriminate|]. intros H. exfalso. apply H. now left.
    + apply Task_eqb_neq in E. rewrite IH. split.
      * intros H [H1|H1]; [now apply E|now apply H].
      * intros H H1. apply H. now right.
Qed.

Lemma dict_find_is_Some {V : Type} (k : TaskRef) (d : dict V) :
  In (task_id k) (ids (keys d)) -> exists v, dict_find k d = Some v.
Proof.
  intros H. destruct (dict_find k d) eqn:E; [eauto|].
  apply dict_find_None in E. contradiction.
Qed.

Lemma dict_contains_registered (s : Scheduler) (t : TaskRef) :
  dict_contains t (task_to_dependencies s) = true <-> registered s t.
Proof.
  unfold dict_contains, registered.
  destruct (dict_find t (task_to_dependencies s)) eqn:E.
  - split; [intros _|reflexivity].
    destruct (dict_find_Some_In _ _ _ E) as (k & Hin & Hid).
    rewrite <- Hid. unfold ids, keys. apply in_map, (in_map fst _ _ Hin).
  - apply dict_find_None in E. split; [discriminate|contradiction].
Qed.

Lemma dict_find_set {V : Type} (k k' : TaskRef) (v : V) (d : dict V) :
  dict_find k (dict_set k' v d) = if Task_eqb k k' then Some v else dict_find k d.
Proof.
  induction d as [|[k0 v0] d IH]; simpl.
  - reflexivity.
  - destruct (Task_eqb k' k0) eqn:E'; simpl.
    + destruct (Task_eqb k k0) eqn:E.
      * apply Task_eqb_eq in E, E'.
        assert (Task_eqb k k' = true) as -> by (apply Task_eqb_eq; congruence).
        reflexivity.
      * apply Task_eqb_eq in E'. apply Task_eqb_neq in E.
        assert (Task_eqb k k' = false) as -> by (apply Task_eqb_neq; congruence).
        reflexivity.
    + destruct (Task_eqb k k0) eqn:E.
      * apply Task_eqb_eq in E. apply Task_eqb_neq in E'.
        assert (Task_eqb k k' = false) as -> by (apply Task_eqb_neq; congruence).
        reflexivity.
      * apply IH.
Qed.

Lemma dict_set_fresh {V : Type} (k : TaskRef) (v : V) (d : dict V) :
  dict_find k d = None -> dict_set k v d = d ++ [(k, v)].
Proof.
  induction d as [|[k0 v0] d IH]; simpl; [reflexivity|].
  destruct (Task_eqb k k0); [discriminate|]. intros H. now rewrite IH.
Qed.

Lemma keys_dict_set_present {V : Type} (k : TaskRef) (v : V) (d : dict V) :
  dict_find k d <> None -> keys (dict_set k v d) = keys d.
Proof.
  induction d as [|[k0 v0] d IH]; simpl; [congruence|].
  destruct (Task_eqb k k0); simpl; [reflexivity|]. intros H. now rewrite IH.
Qed.

(* ================================================================= *)
(** * Task.cancel *)
(* ================================================================= *)

Lemma same_but_flag_refl (o : Task) : same_but_flag o o.
Proof. repeat split. Qed.

Lemma same_but_flag_set (o : Task) : same_but_flag o (set_canceled_event o).
Proof. repeat split. Qed.

Lemma get_cancel_times (n : nat) (st : store) (t : TaskRef) (a : nat) :
  get (cancel_times n st t) a =
  if Nat.eqb a (addr t) && negb (Nat.eqb n 0)
  then set_canceled_event (get st a) else get st a.
Proof.
  induction n as [|n IH]; simpl.
  - now rewrite andb_false_r.
  - unfold cancel. rewrite get_alter, IH.
    destruct (Nat.eqb a (addr t)); simpl; [|reflexivity].
    destruct (Nat.eqb n 0); reflexivity.
Qed.

(** C9.  [cancel] writes the cancellation flag and nothing else: after
    any number of calls on a task, every object of the store has the
    status, result, dependency set, callbacks and work function it had,
    objects other than the task are untouched, one call sets the flag,
    and a second call leaves every object as the first call left it. *)
Theorem cancel_only_sets_flag (st : store) (t : TaskRef) (n : nat) (a : nat) :
  same_but_flag (get st a) (get (cancel_times n st t) a)
  /\ status (cancel_times n st t) t = status st t
  /\ result (cancel_times n st t) t = result st t
  /\ dependencies (get (cancel_times n st t) (addr t)) = dependencies (get st (addr t))
  /\ (a <> addr t -> get (cancel_times n st t) a = get st a)
  /\ canceled_event (get (cancel st t) (addr t)) = true
  /\ get (cancel (cancel st t) t) a = get (cancel st t) a.
Proof.
  assert (Hsame : forall b, same_but_flag (get st b) (get (cancel_times n st t) b)).
  { intros b. rewrite get_cancel_times.
    destruct (Nat.eqb b (addr t) && negb (Nat.eqb n 0));
      [apply same_but_flag_set | apply same_but_flag_refl]. }
  split; [apply Hsame|].
  destruct (Hsame (addr t)) as (Hd & Hs & _ & _ & _ & Hr & _).
  repeat split; try assumption.
  - intros Hne. rewrite get_cancel_times.
    destruct (Nat.eqb_spec a (addr t)); [contradiction|reflexivity].
  - unfold cancel. now rewrite get_alter_same.
  - unfold cancel. rewrite !get_alter.
    destruct (Nat.eqb a (addr t)); reflexivity.
Qed.

(** Canceling B twice: A is untouched, B keeps its status and has its
    flag set. *)
Lemma cancel_only_sets_flag_witness :
  get (cancel_times 2 Examples.objects_AB Examples.B) (addr Examples.A)
  = get Examples.objects_AB (addr Examples.A)
  /\ status (cancel_times 2 Examples.objects_AB Examples.B) Examples.B
     = status Examples.objects_AB Examples.B
  /\ canceled_event (get (cancel Examples.objects_AB Examples.B) (addr Examples.B)) = true.
Proof.
  destruct (cancel_only_sets_flag Examples.objects_AB Examples.B 2 (addr Examples.A))
    as (_ & Hs & _ & _ & Hother & Hflag & _).
  split; [apply Hother; vm_compute; discriminate|]. split; assumption.
Defined.

(* ================================================================= *)
(** * Scheduler.schedule *)
(* ================================================================= *)

(** C4.  [schedule] raises the scheduling error exactly when a task
    with the same identifier is already registered, it returns normally
    exactly when none is, and when it raises the two mappings (and the
    tasks) are as they were. *)
Theorem schedule_raises_iff_registered (st : store) (s : Scheduler) (t : TaskRef) :
  ((exists msg, run_raised (schedule st s t) = Some (SchedulingException msg))
   <-> registered s t)
  /\ (run_raised (schedule st s t) = None <-> ~ registered s t)
  /\ (run_raised (schedule st s t) <> None ->
      task_to_dependencies (run_sched (schedule st s t)) = task_to_dependencies s
      /\ task_to_dependents (run_sched (schedule st s t)) = task_to_dependents s
      /\ run_store (schedule st s t) = st).
Proof.
  unfold schedule.
  destruct (dict_contains t (task_to_dependencies s)) eqn:E; simpl.
  - apply dict_contains_registered in E.
    split; [|split].
    + split; [intros _; exact E | intros _; eexists; reflexivity].
    + split; [discriminate | intros H; contradiction].
    + intros _. repeat split.
  - assert (Hn : ~ registered s t).
    { intros H. apply dict_contains_registered in H. congruence. }
    split; [|split].
    + split; [intros [msg H]; discriminate | intros H; contradiction].
    + split; [intros _; exact Hn | reflexivity].
    + intros H. congruence.
Qed.

(** The scheduling error is raised for a second object that carries a
    registered identifier, and a new identifier is accepted. *)
Lemma schedule_raises_iff_registered_witness :
  (exists msg,
      run_raised (schedule (run_store Examples.scheduled_XPQ)
                           (run_sched Examples.scheduled_XPQ) Examples.Q0)
      = Some (SchedulingException msg))
  /\ run_raised (schedule (run_store Examples.scheduled_XP)
                          (run_sched Examples.scheduled_XP) Examples.Q) = None.
Proof.
  split.
  - apply (proj1 (schedule_raises_iff_registered
                    (run_store Examples.scheduled_XPQ)
                    (run_sched Examples.scheduled_XPQ) Examples.Q0)).
    unfold registered. vm_compute. right; right; left; reflexivity.
  - apply (proj1 (proj2 (schedule_raises_iff_registered
                           (run_store Examples.scheduled_XP)
                           (run_sched Examples.scheduled_XP) Examples.Q))).
    unfold registered. vm_compute. intros [H|[H|[]]]; discriminate.
Defined.

(* ================================================================= *)
(** * Scheduler.ready_tasks: one pass of the loop *)
(* ================================================================= *)

Lemma TaskStatus_eqb_eq (a b : TaskStatus) : TaskStatus_eqb a b = true <-> a = b.
Proof. destruct a, b; simpl; split; congruence. Qed.

Lemma dep_settled_iff (st : store) (dep : TaskRef) :
  dep_settled st dep = true <-> settled (status st dep).
Proof.
  unfold dep_settled, settled. destruct (status st dep); simpl; split; intros H;
    try discriminate; try tauto;
    destruct H as [H|[H|H]]; discriminate.
Qed.

Lemma all_deps_completed_iff (st : store) (deps : taskset) :
  all_deps_completed st deps = true
  <-> forall dep, In dep deps -> settled (status st dep).
Proof.
  unfold all_deps_completed. rewrite forallb_forall.
  split; intros H dep Hin; apply dep_settled_iff, H, Hin.
Qed.

Lemma has_pending_tasks_false (st : store) (t2d : dict taskset) :
  has_pending_tasks st t2d = false
  <-> forall t, In t (keys t2d) -> status st t <> PENDING.
Proof.
  unfold has_pending_tasks, keys. split.
  - intros H t Hin Hst.
    assert (existsb (fun task => TaskStatus_eqb (status st task) PENDING) (map fst t2d) = true).
    { apply existsb_exists. exists t. split; [assumption|]. now apply TaskStatus_eqb_eq. }
    congruence.
  - intros H. destruct (existsb _ _) eqn:E; [|reflexivity].
    apply existsb_exists in E. destruct E as (t & Hin & Hst).
    apply TaskStatus_eqb_eq in Hst. exfalso. exact (H t Hin Hst).
Qed.

Lemma find_ready_Some (st : store) (items : dict taskset) (task : TaskRef) :
  find_ready st items = Some task ->
  exists before deps after,
    items = before ++ (task, deps) :: after
    /\ status st task = PENDING
    /\ all_deps_completed st deps = true
    /\ forall t' deps', In (t', deps') before ->
         status st t' <> PENDING \/ all_deps_completed st deps' = false.
Proof.
  induction items as [|[t0 d0] items IH]; simpl; [discriminate|].
  destruct (TaskStatus_eqb (status st t0) PENDING) eqn:Ep; simpl.
  - destruct (all_deps_completed st d0) eqn:Ed.
    + intros [= <-]. exists [], d0, items. repeat split; try assumption.
      * now apply TaskStatus_eqb_eq.
      * intros ? ? [].
    + intros H. destruct (IH H) as (before & deps & after & -> & Hp & Hd & Hb).
      exists ((t0, d0) :: before), deps, after. repeat split; try assumption.
      intros t' deps' [[= <- <-]|Hin]; [now right | now apply Hb].
  - intros H. destruct (IH H) as (before & deps & after & -> & Hp & Hd & Hb).
    exists ((t0, d0) :: before), deps, after. repeat split; try assumption.
    intros t' deps' [[= <- <-]|Hin]; [|now apply Hb].
    left. intros Hst. apply TaskStatus_eqb_eq in Hst. congruence.
Qed.

Lemma find_ready_first (st : store) (before after : dict taskset)
    (task : TaskRef) (deps : taskset) :
  status st task = PENDING ->
  all_deps_completed st deps = true ->
  (forall t' deps', In (t', deps') before ->
     status st t' <> PENDING \/ all_deps_completed st deps' = false) ->
  find_ready st (before ++ (task, deps) :: after) = Some task.
Proof.
  intros Hp Hd. induction before as [|[t0 d0] before IH]; simpl; intros Hb.
  - apply TaskStatus_eqb_eq in Hp. now rewrite Hp, Hd.
  - assert (IH' := IH (fun t' deps' Hin => Hb t' deps' (or_intror Hin))).
    destruct (Hb t0 d0 (or_introl eq_refl)) as [Hn|Hn].
    + destruct (TaskStatus_eqb (status st t0) PENDING) eqn:E; simpl; [|exact IH'].
      apply TaskStatus_eqb_eq in E. contradiction.
    + rewrite Hn. destruct (negb _); exact IH'.
Qed.

Lemma ready_tasks_pass_Yield (st st' : store) (s : Scheduler) (g' : generator)
    (task : TaskRef) :
  ready_tasks_pass st s = (st', g', Yield task) ->
  find_ready st (task_to_dependencies s) = Some task
  /\ st' = mark_as_scheduled st task /\ g' = GEN_SUSPENDED.
Proof.
  unfold ready_tasks_pass.
  destruct (negb (has_pending_tasks st (task_to_dependencies s))); [discriminate|].
  destruct (find_ready st (task_to_dependencies s)); [|discriminate].
  intros [= <- <- <-]. repeat split.
Qed.

Lemma has_cycles_dependencies (s : Scheduler) :
  task_to_dependencies (fst (Scheduler__has_cycles s)) = task_to_dependencies s.
Proof.
  unfold Scheduler__has_cycles. destruct (processed _ s). reflexivity.
Qed.

Lemma next_Yield (st st' : store) (s s' : Scheduler) (g g' : generator)
    (task : TaskRef) :
  next st s g = (st', s', g', Yield task) ->
  task_to_dependencies s' = task_to_dependencies s
  /\ ready_tasks_pass st s' = (st', g', Yield task).
Proof.
  destruct g; simpl.
  - pose proof (has_cycles_dependencies s) as Hd.
    destruct (Scheduler__has_cycles s) as [s1 r]. simpl in Hd.
    destruct r as [[|]| |]; try discriminate.
    destruct (ready_tasks_pass st s1) as [[st1 g1] sig] eqn:E.
    intros [= <- <- <- ->]. split; [assumption|exact E].
  - destruct (ready_tasks_pass st s) as [[st1 g1] sig] eqn:E.
    intros [= <- <- <- ->]. split; [reflexivity|exact E].
  - destruct (ready_tasks_pass st s) as [[st1 g1] sig] eqn:E.
    intros [= <- <- <- ->]. split; [reflexivity|exact E].
  - discriminate.
Qed.

Lemma status_mark_as_scheduled (st : store) (task u : TaskRef) :
  status (mark_as_scheduled st task) u =
  if Nat.eqb (addr u) (addr task) then SCHEDULED else status st u.
Proof.
  unfold status, mark_as_scheduled. rewrite get_alter.
  destruct (Nat.eqb (addr u) (addr task)); reflexivity.
Qed.

(** C2.  Whenever advancing a [ready_tasks] generator yields a task,
    that task was Pending, is Scheduled at the yield, and every member
    of the dependency set recorded for it is Completed, Failed or
    Canceled at the moment of the yield; so none of them is Pending,
    Scheduled or Running. *)
Theorem yielded_task_dependencies_settled
    (st st' : store) (s s' : Scheduler) (g g' : generator) (task : TaskRef) :
  next st s g = (st', s', g', Yield task) ->
  exists deps,
    In (task, deps) (task_to_dependencies s)
    /\ status st task = PENDING
    /\ status st' task = SCHEDULED
    /\ forall dep, In dep deps ->
         settled (status st' dep)
         /\ status st' dep <> PENDING
         /\ status st' dep <> SCHEDULED
         /\ status st' dep <> RUNNING.
Proof.
  intros Hnext. apply next_Yield in Hnext. destruct Hnext as [Hd Hpass].
  apply ready_tasks_pass_Yield in Hpass. destruct Hpass as (Hfind & -> & ->).
  rewrite Hd in Hfind.
  apply find_ready_Some in Hfind.
  destruct Hfind as (before & deps & after & Heq & Hp & Hall & _).
  exists deps. split; [rewrite Heq; apply in_or_app; right; now left|].
  split; [assumption|]. split.
  - rewrite status_mark_as_scheduled, Nat.eqb_refl. reflexivity.
  - intros dep Hin.
    assert (Hs : settled (status st dep))
      by (apply (proj1 (all_deps_completed_iff st deps) Hall), Hin).
    assert (Hsame : status (mark_as_scheduled st task) dep = status st dep).
    { rewrite status_mark_as_scheduled.
      destruct (Nat.eqb_spec (addr dep) (addr task)) as [Ha|]; [|reflexivity].
      exfalso. unfold status in Hs, Hp. rewrite Ha, Hp in Hs.
      destruct Hs as [H|[H|H]]; discriminate. }
    rewrite Hsame. split; [assumption|].
    destruct Hs as [H|[H|H]]; rewrite H; repeat split; discriminate.
Qed.


Lemma quad_eta {A B C D : Type} (x : A * B * C * D) :
  x = (fst (fst (fst x)), snd (fst (fst x)), snd (fst x), snd x).
Proof. destruct x as [[[? ?] ?] ?]. reflexivity. Qed.


(** After A has failed, B is yielded: its one dependency is settled. *)
Lemma yielded_task_dependencies_settled_witness :
  exists deps,
    In (Examples.B, deps) (task_to_dependencies (run_sched Examples.executed_A))
    /\ status (run_store Examples.executed_A) Examples.B = PENDING
    /\ status (fst (fst (fst Examples.pulled_B))) Examples.B = SCHEDULED
    /\ forall dep, In dep deps ->
         settled (status (fst (fst (fst Examples.pulled_B))) dep)
         /\ status (fst (fst (fst Examples.pulled_B))) dep <> PENDING
         /\ status (fst (fst (fst Examples.pulled_B))) dep <> SCHEDULED
         /\ status (fst (fst (fst Examples.pulled_B))) dep <> RUNNING.
Proof.
  unfold Examples.pulled_B.
  assert (H : snd (next (run_store Examples.executed_A)
                        (run_sched Examples.executed_A) GEN_SUSPENDED)
              = Yield Examples.B) by (vm_compute; reflexivity).
  pose proof (quad_eta (next (run_store Examples.executed_A)
                             (run_sched Examples.executed_A) GEN_SUSPENDED)) as E.
  rewrite H in E.
  exact (yielded_task_dependencies_settled _ _ _ _ _ _ _ E).
Defined.

(** C7.  One pass of the loop of [ready_tasks]: when no registered
    task is Pending the sequence ends without an error and without
    touching a task; when some Pending task has all its recorded
    dependencies settled, the pass yields the first such task in the
    iteration order of [task_to_dependencies] (every entry before it is
    not Pending or has an unsettled dependency), and that task is already
    Scheduled in the state the consumer receives with it. *)
Theorem ready_tasks_pass_selects_first (st : store) (s : Scheduler) :
  ((forall t, In t (keys (task_to_dependencies s)) -> status st t <> PENDING) ->
   ready_tasks_pass st s = (st, GEN_CLOSED, StopIteration))
  /\ (forall before task deps after,
        task_to_dependencies s = before ++ (task, deps) :: after ->
        status st task = PENDING ->
        (forall dep, In dep deps -> settled (status st dep)) ->
        (forall t' deps', In (t', deps') before ->
           ~ (status st t' = PENDING
              /\ forall dep, In dep deps' -> settled (status st dep))) ->
        ready_tasks_pass st s = (mark_as_scheduled st task, GEN_SUSPENDED, Yield task)
        /\ status (mark_as_scheduled st task) task = SCHEDULED).
Proof.
  split.
  - intros H. apply has_pending_tasks_false in H.
    unfold ready_tasks_pass. now rewrite H.
  - intros before task deps after Heq Hp Hd Hb. split.
    + unfold ready_tasks_pass.
      destruct (has_pending_tasks st (task_to_dependencies s)) eqn:E.
      * simpl. rewrite Heq. rewrite find_ready_first; try assumption.
        -- reflexivity.
        -- now apply all_deps_completed_iff.
        -- intros t' deps' Hin.
           destruct (all_deps_completed st deps') eqn:Ea; [|now right].
           left. intros Hp'. apply (Hb t' deps' Hin). split; [assumption|].
           now apply all_deps_completed_iff.
      * exfalso. rewrite has_pending_tasks_false in E. apply (E task); [|assumption].
        rewrite Heq. unfold keys. rewrite map_app. apply in_or_app. right. now left.
    + rewrite status_mark_as_scheduled, Nat.eqb_refl. reflexivity.
Qed.

(** With A failed, the pass skips A and yields B; once B has been run
    nothing is Pending and the sequence ends. *)
Lemma ready_tasks_pass_selects_first_witness :
  ready_tasks_pass (run_store Examples.executed_B) (run_sched Examples.executed_B)
  = (run_store Examples.executed_B, GEN_CLOSED, StopIteration)
  /\ ready_tasks_pass (run_store Examples.executed_A) (run_sched Examples.executed_A)
     = (mark_as_scheduled (run_store Examples.executed_A) Examples.B,
        GEN_SUSPENDED, Yield Examples.B)
  /\ status (mark_as_scheduled (run_store Examples.executed_A) Examples.B) Examples.B
     = SCHEDULED.
Proof.
  split.
  - apply (proj1 (ready_tasks_pass_selects_first
                    (run_store Examples.executed_B) (run_sched Examples.executed_B))).
    intros t Hin.
    assert (Hk : keys (task_to_dependencies (run_sched Examples.executed_B))
                 = [Examples.A; Examples.B]) by (vm_compute; reflexivity).
    rewrite Hk in Hin.
    destruct Hin as [<-|[<-|[]]]; vm_compute; discriminate.
  - apply (proj2 (ready_tasks_pass_selects_first
                    (run_store Examples.executed_A) (run_sched Examples.executed_A))
             [(Examples.A, [])] Examples.B [Examples.A] []).
    + vm_compute. reflexivity.
    + vm_compute. reflexivity.
    + intros dep [<-|[]]. right; left. vm_compute. reflexivity.
    + intros t' deps' [Heq|[]] [Hst _]. injection Heq as <- <-. vm_compute in Hst. discriminate.
Defined.

(* ================================================================= *)
(** * Task.execute_task and the Scheduler's handlers *)
(* ================================================================= *)

Lemma same_but_flag_trans (o1 o2 o3 : Task) :
  same_but_flag o1 o2 -> same_but_flag o2 o3 -> same_but_flag o1 o3.
Proof.
  unfold same_but_flag.
  intros (A1 & A2 & A3 & A4 & A5 & A6 & A7) (B1 & B2 & B3 & B4 & B5 & B6 & B7).
  repeat split; congruence.
Qed.

Lemma cancel_all_same_but_flag (ts : taskset) (st : store) (a : nat) :
  same_but_flag (get st a) (get (cancel_all st ts) a).
Proof.
  unfold cancel_all. revert st.
  induction ts as [|t ts IH]; intros st; simpl; [apply same_but_flag_refl|].
  eapply same_but_flag_trans; [|apply IH].
  unfold cancel. rewrite get_alter.
  destruct (Nat.eqb a (addr t)); [apply same_but_flag_set|apply same_but_flag_refl].
Qed.

Lemma cancel_all_flag (ts : taskset) (st : store) (a : nat) :
  canceled_event (get (cancel_all st ts) a)
  = canceled_event (get st a) || existsb (fun t => Nat.eqb a (addr t)) ts.
Proof.
  unfold cancel_all. revert st.
  induction ts as [|t ts IH]; intros st; simpl; [now rewrite orb_false_r|].
  rewrite IH. unfold cancel. rewrite get_alter.
  destruct (Nat.eqb a (addr t)); simpl; [now rewrite orb_true_r|reflexivity].
Qed.

Lemma defaultdict_getitem_fst (k : TaskRef) (d : dict taskset) :
  fst (defaultdict_getitem k d) = dependents_of d k.
Proof.
  unfold defaultdict_getitem, dependents_of. destruct (dict_find k d); reflexivity.
Qed.

Lemma dict_find_app_fresh {V : Type} (k k' : TaskRef) (v : V) (d : dict V) :
  dict_find k' d = None ->
  dict_find k (d ++ [(k', v)]) = if Task_eqb k k' then Some v else dict_find k d.
Proof.
  intros H. rewrite <- (dict_set_fresh k' v d H). apply dict_find_set.
Qed.

Lemma defaultdict_getitem_snd (k p : TaskRef) (d : dict taskset) :
  dependents_of (snd (defaultdict_getitem k d)) p = dependents_of d p.
Proof.
  unfold defaultdict_getitem, dependents_of.
  destruct (dict_find k d) eqn:E; simpl; [reflexivity|].
  rewrite dict_find_app_fresh by assumption.
  destruct (Task_eqb p k) eqn:Ep; [|reflexivity].
  apply Task_eqb_eq in Ep. rewrite (dict_find_cong p k d Ep), E. reflexivity.
Qed.

Lemma call_same_but_flag (f : callback) (st : store) (s : Scheduler)
    (t : TaskRef) (a : nat) :
  same_but_flag (get st a) (get (run_store (call f st s t)) a).
Proof.
  destruct f as [| | |[v|e]|[v|e]]; simpl; try apply same_but_flag_refl.
  - unfold Scheduler__on_task_failed.
    destruct (defaultdict_getitem t (task_to_dependents s)); simpl.
    apply cancel_all_same_but_flag.
  - unfold Scheduler__on_task_canceled.
    destruct (defaultdict_getitem t (task_to_dependents s)); simpl.
    apply cancel_all_same_but_flag.
Qed.

Lemma call_trace (f : callback) (st : store) (s : Scheduler) (t : TaskRef) :
  run_trace (call f st s t) = [NotifyAll] \/ run_trace (call f st s t) = [].
Proof.
  destruct f as [| | |[v|e]|[v|e]]; simpl; auto.
  - unfold Scheduler__on_task_failed.
    destruct (defaultdict_getitem t (task_to_dependents s)); simpl; auto.
  - unfold Scheduler__on_task_canceled.
    destruct (defaultdict_getitem t (task_to_dependents s)); simpl; auto.
Qed.

Lemma call_raised (f : callback) (st : store) (s : Scheduler) (t : TaskRef) :
  run_raised (call f st s t) = callback_raises f.
Proof.
  destruct f as [| | |[v|e]|[v|e]]; simpl; auto.
  - unfold Scheduler__on_task_failed.
    destruct (defaultdict_getitem t (task_to_dependents s)); reflexivity.
  - unfold Scheduler__on_task_canceled.
    destruct (defaultdict_getitem t (task_to_dependents s)); reflexivity.
Qed.

Lemma statuses_written_app (t : TaskRef) (tr1 tr2 : list event) :
  statuses_written t (tr1 ++ tr2) = statuses_written t tr1 ++ statuses_written t tr2.
Proof.
  induction tr1 as [|e tr1 IH]; simpl; [reflexivity|].
  destruct e; try assumption.
  destruct (Nat.eqb (addr t0) (addr t)); simpl; now rewrite IH.
Qed.

Lemma work_invocations_app (t : TaskRef) (tr1 tr2 : list event) :
  work_invocations t (tr1 ++ tr2) = work_invocations t tr1 + work_invocations t tr2.
Proof.
  induction tr1 as [|e tr1 IH]; simpl; [reflexivity|].
  destruct e; try assumption. rewrite IH. lia.
Qed.

Lemma callbacks_fired_app (tr1 tr2 : list event) :
  callbacks_fired (tr1 ++ tr2) = callbacks_fired tr1 ++ callbacks_fired tr2.
Proof.
  induction tr1 as [|e tr1 IH]; simpl; [reflexivity|].
  destruct e; simpl; try assumption; now rewrite IH.
Qed.

Lemma call_quiet (f : callback) (st : store) (s : Scheduler) (t u : TaskRef) :
  statuses_written u (run_trace (call f st s t)) = []
  /\ work_invocations u (run_trace (call f st s t)) = 0
  /\ callbacks_fired (run_trace (call f st s t)) = [].
Proof.
  destruct (call_trace f st s t) as [-> | ->]; repeat split.
Qed.

(** What the fields of [self] are after a call, read through the
    callbacks' frame: a callback leaves every field but the flag. *)
Lemma status_after_call (f : callback) (st : store) (s : Scheduler) (t u : TaskRef) :
  status (run_store (call f st s t)) u = status st u.
Proof. unfold status. apply (call_same_but_flag f st s t (addr u)). Qed.

Lemma result_after_call (f : callback) (st : store) (s : Scheduler) (t u : TaskRef) :
  result (run_store (call f st s t)) u = result st u.
Proof. unfold result. apply (call_same_but_flag f st s t (addr u)). Qed.

Lemma on_task_failed_after_call (f : callback) (st : store) (s : Scheduler)
    (t : TaskRef) (a : nat) :
  on_task_failed (get (run_store (call f st s t)) a) = on_task_failed (get st a).
Proof. apply (call_same_but_flag f st s t a). Qed.

Ltac read_own_fields :=
  repeat first
    [ rewrite status_after_call
    | rewrite result_after_call
    | rewrite on_task_failed_after_call
    | rewrite statuses_written_app
    | rewrite work_invocations_app
    | rewrite callbacks_fired_app ];
  unfold status, result;
  repeat rewrite get_alter_same;
  simpl;
  repeat rewrite Nat.eqb_refl;
  simpl.

Ltac quiet_call f st s t u :=
  let Hw := fresh "Hw" in
  let Hi := fresh "Hi" in
  let Hf := fresh "Hf" in
  destruct (call_quiet f st s t u) as (Hw & Hi & Hf);
  try rewrite Hw; try rewrite Hi; try rewrite Hf.

Lemma slot_raises_armed (slot : option callback) (f : callback) :
  armed slot = Some f -> slot_raises slot = callback_raises f.
Proof. unfold slot_raises. now intros ->. Qed.

Lemma slot_raises_None (slot : option callback) :
  armed slot = None -> slot_raises slot = None.
Proof. unfold slot_raises. now intros ->. Qed.

Lemma returns_normally_slot (slot : option callback) :
  returns_normally slot <-> slot_raises slot = None.
Proof.
  unfold returns_normally, slot_raises, armed. split.
  - intros Hn. destruct slot as [f|]; [|reflexivity].
    destruct f as [| | |[v|e]|[v|e]]; simpl; try reflexivity.
    exfalso. now apply (Hn e).
  - intros H e ->. simpl in H. discriminate.
Qed.

(** The flag is set: Canceled, on-canceled fired, no work. *)
Lemma execute_task_flag_set (st : store) (s : Scheduler) (self : TaskRef) :
  canceled_event (get st (addr self)) = true ->
  statuses_written self (run_trace (execute_task st s self)) = [CANCELED]
  /\ status (run_store (execute_task st s self)) self = CANCELED
  /\ work_invocations self (run_trace (execute_task st s self)) = 0
  /\ result (run_store (execute_task st s self)) self = result st self
  /\ callbacks_fired (run_trace (execute_task st s self))
     = match armed (on_task_canceled (get st (addr self))) with
       | Some _ => [CanceledFired self]
       | None => []
       end.
Proof.
  intros Hc. unfold execute_task. rewrite Hc, get_alter_same.
  simpl (on_task_canceled _).
  destruct (armed (on_task_canceled (get st (addr self)))) as [f|];
    simpl run_trace; simpl run_store.
  - quiet_call f (alter (set_status CANCELED) (addr self) st) s self self.
    read_own_fields. rewrite ?Hw, ?Hi, ?Hf. repeat split.
  - read_own_fields. repeat split.
Qed.

(** The [except] block: Failed, the exception stored, on-failed fired. *)
Lemma execute_task_except_spec (st : store) (s : Scheduler) (self : TaskRef)
    (tr : list event) (e : exn) :
  statuses_written self (run_trace (execute_task_except st s self tr e))
  = statuses_written self tr ++ [FAILED]
  /\ status (run_store (execute_task_except st s self tr e)) self = FAILED
  /\ work_invocations self (run_trace (execute_task_except st s self tr e))
     = work_invocations self tr
  /\ result (run_store (execute_task_except st s self tr e)) self = VExc e
  /\ callbacks_fired (run_trace (execute_task_except st s self tr e))
     = callbacks_fired tr
       ++ match armed (on_task_failed (get st (addr self))) with
          | Some _ => [FailedFired self]
          | None => []
          end.
Proof.
  unfold execute_task_except. rewrite !get_alter_same.
  simpl (on_task_failed _).
  destruct (armed (on_task_failed (get st (addr self)))) as [f|];
    simpl run_trace; simpl run_store.
  - quiet_call f (alter (set_status FAILED) (addr self)
                    (alter (set_result (VExc e)) (addr self) st)) s self self.
    read_own_fields. rewrite ?Hw, ?Hi, ?Hf. rewrite ?app_nil_r.
    repeat split. lia.
  - read_own_fields. rewrite ?app_nil_r. repeat split. lia.
Qed.

Lemma execute_task_except_raised (st : store) (s : Scheduler) (self : TaskRef)
    (tr : list event) (e : exn) :
  run_raised (execute_task_except st s self tr e)
  = slot_raises (on_task_failed (get st (addr self))).
Proof.
  unfold execute_task_except, slot_raises. rewrite !get_alter_same.
  simpl (on_task_failed _).
  destruct (armed (on_task_failed (get st (addr self)))) as [f|]; simpl run_raised;
    [apply call_raised|reflexivity].
Qed.

(** The flag is unset and the work function raises an [Exception]. *)
Lemma execute_task_work_raises (st : store) (s : Scheduler) (self : TaskRef) (e : exn) :
  canceled_event (get st (addr self)) = false ->
  execute (get st (addr self)) = Raises e ->
  is_Exception e = true ->
  statuses_written self (run_trace (execute_task st s self)) = [RUNNING; FAILED]
  /\ status (run_store (execute_task st s self)) self = FAILED
  /\ work_invocations self (run_trace (execute_task st s self)) = 1
  /\ result (run_store (execute_task st s self)) self = VExc e
  /\ callbacks_fired (run_trace (execute_task st s self))
     = match armed (on_task_failed (get st (addr self))) with
       | Some _ => [FailedFired self]
       | None => []
       end.
Proof.
  intros Hc He Hx. unfold execute_task. rewrite Hc, get_alter_same.
  simpl (execute _). rewrite He, Hx.
  destruct (execute_task_except_spec
              (alter (set_status RUNNING) (addr self) st) s self
              [StatusSet self RUNNING; WorkInvoked self] e)
    as (H1 & H2 & H3 & H4 & H5).
  rewrite H1, H2, H3, H4, H5. rewrite get_alter_same. simpl.
  rewrite Nat.eqb_refl. repeat split.
Qed.

(** The flag is unset and the work function raises what is not an
    [Exception]: nothing catches it.  The task stays Running, its
    result is as before, no callback fires, and no other object is
    touched. *)
Lemma execute_task_work_escapes (st : store) (s : Scheduler) (self : TaskRef) (e : exn) :
  canceled_event (get st (addr self)) = false ->
  execute (get st (addr self)) = Raises e ->
  is_Exception e = false ->
  execute_task st s self
  = mkRun (alter (set_status RUNNING) (addr self) st) s
          [StatusSet self RUNNING; WorkInvoked self] (Some e).
Proof.
  intros Hc He Hx. unfold execute_task. rewrite Hc, get_alter_same.
  simpl (execute _). rewrite He, Hx. reflexivity.
Qed.

(** The flag is unset, the work function returns, and the on-completed
    callback (if any is called) returns. *)
Lemma execute_task_work_returns (st : store) (s : Scheduler) (self : TaskRef) (v : value) :
  canceled_event (get st (addr self)) = false ->
  execute (get st (addr self)) = Returns v ->
  returns_normally (on_task_completed (get st (addr self))) ->
  statuses_written self (run_trace (execute_task st s self)) = [RUNNING; COMPLETED]
  /\ status (run_store (execute_task st s self)) self = COMPLETED
  /\ work_invocations self (run_trace (execute_task st s self)) = 1
  /\ result (run_store (execute_task st s self)) self = v
  /\ callbacks_fired (run_trace (execute_task st s self))
     = match armed (on_task_completed (get st (addr self))) with
       | Some _ => [CompletedFired self]
       | None => []
       end.
Proof.
  intros Hc He Hn. apply returns_normally_slot in Hn.
  unfold execute_task. rewrite Hc, get_alter_same.
  simpl (execute _). rewrite He. rewrite !get_alter_same.
  simpl (on_task_completed _).
  destruct (armed (on_task_completed (get st (addr self)))) as [f|] eqn:Ef.
  - rewrite call_raised.
    set (st3 := alter (set_status COMPLETED) (addr self)
                  (alter (set_result v) (addr self)
                     (alter (set_status RUNNING) (addr self) st))).
    quiet_call f st3 s self self.
    rewrite <- (slot_raises_armed _ f Ef), Hn.
    simpl run_trace; simpl run_store. subst st3.
    read_own_fields. rewrite ?Hw, ?Hi, ?Hf. repeat split.
  - simpl run_trace; simpl run_store. read_own_fields. repeat split.
Qed.



(** Under a work function that raises nothing but an [Exception] and an
    on-completed callback that returns, a call has exactly one of three
    outcomes, told apart by the flag and by how the work function
    ends. *)
Lemma execute_task_three_outcomes (st : store) (s : Scheduler) (self : TaskRef) :
  returns_normally (on_task_completed (get st (addr self))) ->
  work_catchable (get st (addr self)) ->
  (canceled_event (get st (addr self)) = true
   /\ statuses_written self (run_trace (execute_task st s self)) = [CANCELED]
   /\ status (run_store (execute_task st s self)) self = CANCELED
   /\ work_invocations self (run_trace (execute_task st s self)) = 0
   /\ callbacks_fired (run_trace (execute_task st s self))
      = match armed (on_task_canceled (get st (addr self))) with
        | Some _ => [CanceledFired self]
        | None => []
        end)
  \/ (canceled_event (get st (addr self)) = false
      /\ (exists v, execute (get st (addr self)) = Returns v
                    /\ result (run_store (execute_task st s self)) self = v)
      /\ statuses_written self (run_trace (execute_task st s self)) = [RUNNING; COMPLETED]
      /\ status (run_store (execute_task st s self)) self = COMPLETED
      /\ work_invocations self (run_trace (execute_task st s self)) = 1
      /\ callbacks_fired (run_trace (execute_task st s self))
         = match armed (on_task_completed (get st (addr self))) with
           | Some _ => [CompletedFired self]
           | None => []
           end)
  \/ (canceled_event (get st (addr self)) = false
      /\ (exists e, execute (get st (addr self)) = Raises e
                    /\ result (run_store (execute_task st s self)) self = VExc e)
      /\ statuses_written self (run_trace (execute_task st s self)) = [RUNNING; FAILED]
      /\ status (run_store (execute_task st s self)) self = FAILED
      /\ work_invocations self (run_trace (execute_task st s self)) = 1
      /\ callbacks_fired (run_trace (execute_task st s self))
         = match armed (on_task_failed (get st (addr self))) with
           | Some _ => [FailedFired self]
           | None => []
           end).
Proof.
  intros Hn Hx.
  destruct (canceled_event (get st (addr self))) eqn:Hc.
  - left. destruct (execute_task_flag_set st s self Hc) as (H1 & H2 & H3 & _ & H5).
    repeat split; assumption.
  - right. destruct (execute (get st (addr self))) as [v|e] eqn:He.
    + left.
      destruct (execute_task_work_returns st s self v Hc He Hn) as (H1 & H2 & H3 & H4 & H5).
      repeat split; try assumption. exists v. split; [reflexivity|assumption].
    + right.
      destruct (execute_task_work_raises st s self e Hc He (Hx e He))
        as (H1 & H2 & H3 & H4 & H5).
      repeat split; try assumption. exists e. split; [reflexivity|assumption].
Qed.

(** [execute_task] writes the fields of its own task only, apart from
    the flags its callbacks set. *)
Lemma execute_task_except_frame (st : store) (s : Scheduler) (self : TaskRef)
    (tr : list event) (e : exn) (a : nat) :
  a <> addr self ->
  same_but_flag (get st a) (get (run_store (execute_task_except st s self tr e)) a).
Proof.
  intros Hne. unfold execute_task_except.
  match goal with
  | |- context [match ?c with Some _ => _ | None => _ end] => destruct c as [f|]
  end; simpl run_store.
  - eapply same_but_flag_trans; [|apply call_same_but_flag].
    rewrite !get_alter_other by assumption. apply same_but_flag_refl.
  - rewrite !get_alter_other by assumption. apply same_but_flag_refl.
Qed.

Lemma execute_task_frame (st : store) (s : Scheduler) (self : TaskRef) (a : nat) :
  a <> addr self ->
  same_but_flag (get st a) (get (run_store (execute_task st s self)) a).
Proof.
  intros Hne. unfold execute_task.
  destruct (canceled_event (get st (addr self))).
  - match goal with
    | |- context [match ?c with Some _ => _ | None => _ end] => destruct c as [f|]
    end; simpl run_store.
    + eapply same_but_flag_trans; [|apply call_same_but_flag].
      rewrite !get_alter_other by assumption. apply same_but_flag_refl.
    + rewrite !get_alter_other by assumption. apply same_but_flag_refl.
  - destruct (execute _) as [v|e].
    + match goal with
      | |- context [match ?c with Some _ => _ | None => _ end] => destruct c as [f|]
      end; simpl run_store.
      * destruct (run_raised (call f _ s self)) as [e|]; simpl run_store;
          [destruct (is_Exception e); simpl run_store|].
        -- eapply same_but_flag_trans; [|apply execute_task_except_frame; assumption].
           eapply same_but_flag_trans; [|apply call_same_but_flag].
           rewrite !get_alter_other by assumption. apply same_but_flag_refl.
        -- eapply same_but_flag_trans; [|apply call_same_but_flag].
           rewrite !get_alter_other by assumption. apply same_but_flag_refl.
        -- eapply same_but_flag_trans; [|apply call_same_but_flag].
           rewrite !get_alter_other by assumption. apply same_but_flag_refl.
      * rewrite !get_alter_other by assumption. apply same_but_flag_refl.
    + destruct (is_Exception e); simpl run_store.
      * eapply same_but_flag_trans; [|apply execute_task_except_frame; assumption].
        rewrite !get_alter_other by assumption. apply same_but_flag_refl.
      * rewrite !get_alter_other by assumption. apply same_but_flag_refl.
Qed.

Lemma execute_task_status_frame (st : store) (s : Scheduler) (self u : TaskRef) :
  addr u <> addr self ->
  status (run_store (execute_task st s self)) u = status st u.
Proof.
  intros Hne. unfold status. now apply (execute_task_frame st s self (addr u)).
Qed.

(** C6 (the code departs from it).  A task whose flag is unset, whose
    work function returns 7, and whose on-completed callback raises: one
    call to [execute_task] makes it Completed, fires on-completed, then
    catches the callback's exception in the [except] block meant for the
    work function, overwrites the result with that exception, makes the
    task Failed and fires on-failed as well. *)
Theorem execute_task_completed_then_failed :
  canceled_event (get Examples.objects_W (addr Examples.W)) = false
  /\ execute (get Examples.objects_W (addr Examples.W)) = Returns (VInt 7)
  /\ statuses_written Examples.W
       (run_trace (execute_task Examples.objects_W Scheduler_init Examples.W))
     = [RUNNING; COMPLETED; FAILED]
  /\ callbacks_fired
       (run_trace (execute_task Examples.objects_W Scheduler_init Examples.W))
     = [CompletedFired Examples.W; FailedFired Examples.W]
  /\ work_invocations Examples.W
       (run_trace (execute_task Examples.objects_W Scheduler_init Examples.W)) = 1
  /\ status (run_store (execute_task Examples.objects_W Scheduler_init Examples.W))
       Examples.W = FAILED
  /\ result (run_store (execute_task Examples.objects_W Scheduler_init Examples.W))
       Examples.W = VExc (Error "callback").
Proof. vm_compute. repeat split. Qed.

(* ================================================================= *)
(** * The status state machine *)
(* ================================================================= *)

Lemma status_cancel (st : store) (t u : TaskRef) :
  status (cancel st t) u = status st u.
Proof.
  unfold status, cancel. rewrite get_alter.
  destruct (Nat.eqb (addr u) (addr t)); reflexivity.
Qed.





(* ================================================================= *)
(** * Cascading cancellation *)
(* ================================================================= *)

Lemma all_deps_completed_ext (st st' : store) (deps : taskset) :
  (forall u, status st' u = status st u) ->
  all_deps_completed st' deps = all_deps_completed st deps.
Proof.
  intros H. unfold all_deps_completed.
  induction deps as [|dep deps IH]; simpl; [reflexivity|].
  rewrite IH. unfold dep_settled. now rewrite H.
Qed.

Lemma find_ready_ext (st st' : store) (items : dict taskset) :
  (forall u, status st' u = status st u) ->
  find_ready st' items = find_ready st items.
Proof.
  intros H. induction items as [|[t d] items IH]; simpl; [reflexivity|].
  now rewrite H, IH, (all_deps_completed_ext st st' d H).
Qed.

Lemma has_pending_tasks_ext (st st' : store) (t2d : dict taskset) :
  (forall u, status st' u = status st u) ->
  has_pending_tasks st' t2d = has_pending_tasks st t2d.
Proof.
  intros H. unfold has_pending_tasks. induction (map fst t2d) as [|t l IH]; simpl;
    [reflexivity|]. now rewrite H, IH.
Qed.

Lemma ready_tasks_pass_ext (st st' : store) (s : Scheduler) :
  (forall u, status st' u = status st u) ->
  snd (ready_tasks_pass st' s) = snd (ready_tasks_pass st s).
Proof.
  intros H. unfold ready_tasks_pass.
  rewrite (has_pending_tasks_ext st st' _ H), (find_ready_ext st st' _ H).
  destruct (negb _); [reflexivity|]. destruct (find_ready _ _); reflexivity.
Qed.

Lemma In_existsb_addr (b : TaskRef) (ts : taskset) :
  In b ts -> existsb (fun t => Nat.eqb (addr b) (addr t)) ts = true.
Proof.
  intros H. apply existsb_exists. exists b. split; [assumption|apply Nat.eqb_refl].
Qed.

Lemma on_task_failed_cancels (st : store) (s : Scheduler) (task b : TaskRef) :
  In b (dependents_of (task_to_dependents s) task) ->
  canceled_event (get (run_store (Scheduler__on_task_failed st s task)) (addr b)) = true.
Proof.
  intros Hin. unfold Scheduler__on_task_failed.
  rewrite <- defaultdict_getitem_fst in Hin.
  destruct (defaultdict_getitem task (task_to_dependents s)) as [ds d']; simpl in *.
  rewrite cancel_all_flag, (In_existsb_addr b ds Hin). apply orb_true_r.
Qed.

Lemma on_task_canceled_cancels (st : store) (s : Scheduler) (task b : TaskRef) :
  In b (dependents_of (task_to_dependents s) task) ->
  canceled_event (get (run_store (Scheduler__on_task_canceled st s task)) (addr b)) = true.
Proof.
  intros Hin. unfold Scheduler__on_task_canceled.
  rewrite <- defaultdict_getitem_fst in Hin.
  destruct (defaultdict_getitem task (task_to_dependents s)) as [ds d']; simpl in *.
  rewrite cancel_all_flag, (In_existsb_addr b ds Hin). apply orb_true_r.
Qed.

(** A registered task that ends Failed or Canceled has the flag of each
    of its direct dependents set. *)
Lemma execute_task_cancels_dependents (st : store) (s : Scheduler) (a b : TaskRef) :
  scheduler_callbacks (get st (addr a)) ->
  status (run_store (execute_task st s a)) a = FAILED
  \/ status (run_store (execute_task st s a)) a = CANCELED ->
  In b (dependents_of (task_to_dependents s) a) ->
  canceled_event (get (run_store (execute_task st s a)) (addr b)) = true.
Proof.
  intros (Hoc & Hof & Hca) Hst Hin.
  destruct (canceled_event (get st (addr a))) eqn:Hc.
  - unfold execute_task. rewrite Hc, get_alter_same. simpl (on_task_canceled _).
    rewrite Hca. simpl. now apply on_task_canceled_cancels.
  - destruct (execute (get st (addr a))) as [v|e] eqn:He.
    + exfalso.
      assert (Hn : returns_normally (on_task_completed (get st (addr a)))).
      { intros e. rewrite Hoc. discriminate. }
      destruct (execute_task_work_returns st s a v Hc He Hn) as (_ & H2 & _).
      rewrite H2 in Hst. destruct Hst; discriminate.
    + destruct (is_Exception e) eqn:Hx.
      * unfold execute_task. rewrite Hc, get_alter_same. simpl (execute _).
        rewrite He, Hx.
        unfold execute_task_except. rewrite !get_alter_same. simpl (on_task_failed _).
        rewrite Hof. simpl. now apply on_task_failed_cancels.
      * exfalso. rewrite (execute_task_work_escapes st s a e Hc He Hx) in Hst.
        unfold status in Hst. simpl in Hst. rewrite get_alter_same in Hst.
        simpl in Hst. destruct Hst; discriminate.
Qed.


(** How cancellation travels: as a flag, one level of the graph per
    executed task.  When [execute_task] leaves a task that
    carries the Scheduler's handlers Failed or Canceled, the flag of each
    of its direct dependents is set and the status of every other task is
    as before.  The flag is invisible to [ready_tasks]: a pass over a
    store with one more flag set gives the same signal, so a flagged
    dependent is yielded as soon as its dependencies are settled.  When
    [execute_task] runs on a task whose flag is set, the task becomes
    Canceled and its work function is not invoked. *)
Theorem cancellation_cascades_by_flag (st : store) (s : Scheduler) (a : TaskRef) :
  scheduler_callbacks (get st (addr a)) ->
  (status (run_store (execute_task st s a)) a = FAILED
   \/ status (run_store (execute_task st s a)) a = CANCELED ->
   forall b, In b (dependents_of (task_to_dependents s) a) ->
     canceled_event (get (run_store (execute_task st s a)) (addr b)) = true
     /\ (addr b <> addr a -> status (run_store (execute_task st s a)) b = status st b))
  /\ (forall st0 t,
        snd (ready_tasks_pass (cancel st0 t) s) = snd (ready_tasks_pass st0 s))
  /\ (canceled_event (get st (addr a)) = true ->
      status (run_store (execute_task st s a)) a = CANCELED
      /\ work_invocations a (run_trace (execute_task st s a)) = 0).
Proof.
  intros Hcb. split; [|split].
  - intros Hst b Hin. split.
    + now apply execute_task_cancels_dependents.
    + apply execute_task_status_frame.
  - intros st0 t. apply ready_tasks_pass_ext. intros u. apply status_cancel.
  - intros Hc. destruct (execute_task_flag_set st s a Hc) as (_ & H2 & H3 & _).
    split; assumption.
Qed.

(** A fails: the flag of B is set and B stays Pending; then B, flagged,
    is run: it becomes Canceled without its work function running. *)
Lemma cancellation_cascades_by_flag_witness :
  (canceled_event (get (run_store Examples.executed_A) (addr Examples.B)) = true
   /\ status (run_store Examples.executed_A) Examples.B = PENDING)
  /\ (status (run_store Examples.executed_B) Examples.B = CANCELED
      /\ work_invocations Examples.B (run_trace Examples.executed_B) = 0).
Proof.
  split.
  - unfold Examples.executed_A.
    assert (Hcb : scheduler_callbacks
                    (get (fst (fst (fst Examples.pulled_A))) (addr Examples.A))).
    { vm_compute. repeat split. }
    destruct (cancellation_cascades_by_flag
                (fst (fst (fst Examples.pulled_A))) (snd (fst (fst Examples.pulled_A)))
                Examples.A Hcb) as (H1 & _ & _).
    assert (Hst : status (run_store
                            (execute_task (fst (fst (fst Examples.pulled_A)))
                               (snd (fst (fst Examples.pulled_A))) Examples.A))
                    Examples.A = FAILED) by (vm_compute; reflexivity).
    assert (Hin : In Examples.B
                    (dependents_of
                       (task_to_dependents (snd (fst (fst Examples.pulled_A))))
                       Examples.A)) by (vm_compute; left; reflexivity).
    destruct (H1 (or_introl Hst) Examples.B Hin) as (Hflag & Hsame).
    split; [exact Hflag|].
    rewrite Hsame; [vm_compute; reflexivity | vm_compute; discriminate].
  - unfold Examples.executed_B.
    assert (Hcb : scheduler_callbacks
                    (get (fst (fst (fst Examples.pulled_B))) (addr Examples.B))).
    { vm_compute. repeat split. }
    destruct (cancellation_cascades_by_flag
                (fst (fst (fst Examples.pulled_B))) (snd (fst (fst Examples.pulled_B)))
                Examples.B Hcb) as (_ & _ & H3).
    apply H3. vm_compute. reflexivity.
Defined.

(* ================================================================= *)
(** * Counting unpopped dependencies *)
(* ================================================================= *)

Lemma inb_In (x : string) (P : list string) : inb x P = true <-> In x P.
Proof.
  unfold inb. rewrite existsb_exists. split.
  - intros (y & Hin & Heq). apply String.eqb_eq in Heq. now subst.
  - intros Hin. exists x. split; [assumption|apply String.eqb_refl].
Qed.

Lemma inb_false (x : string) (P : list string) : inb x P = false <-> ~ In x P.
Proof.
  rewrite <- inb_In. destruct (inb x P); split; congruence.
Qed.

Lemma inb_snoc (x y : string) (P : list string) :
  inb x (P ++ [y]) = inb x P || String.eqb x y.
Proof.
  unfold inb. rewrite existsb_app. simpl. now rewrite orb_false_r.
Qed.

Lemma remaining_nil (deps : taskset) : remaining [] deps = List.length deps.
Proof.
  unfold remaining. induction deps as [|d deps IH]; simpl; [reflexivity|].
  f_equal. exact IH.
Qed.

Lemma remaining_snoc_notin (P : list string) (x : string) (deps : taskset) :
  ~ In x (ids deps) -> remaining (P ++ [x]) deps = remaining P deps.
Proof.
  unfold remaining. induction deps as [|d deps IH]; simpl; [reflexivity|].
  intros Hn. rewrite inb_snoc.
  assert (String.eqb (task_id d) x = false) as ->.
  { apply String.eqb_neq. intros Heq. apply Hn. now left. }
  rewrite orb_false_r.
  assert (IH' := IH (fun H => Hn (or_intror H))).
  destruct (negb (inb (task_id d) P)); simpl; now rewrite IH'.
Qed.

Lemma remaining_snoc_in (P : list string) (x : string) (deps : taskset) :
  NoDup (ids deps) -> In x (ids deps) -> ~ In x P ->
  remaining P deps = S (remaining (P ++ [x]) deps).
Proof.
  induction deps as [|d deps IH]; simpl; [intros _ []|].
  intros Hnd Hin Hp. inversion Hnd as [|? ? Hd Hnd']; subst.
  destruct (String.eqb_spec (task_id d) x) as [Heq|Hne].
  - subst x.
    assert (E := remaining_snoc_notin P (task_id d) deps Hd).
    unfold remaining in *. simpl. rewrite inb_snoc, String.eqb_refl, orb_true_r.
    apply inb_false in Hp. rewrite Hp. simpl. now rewrite E.
  - destruct Hin as [Heq|Hin]; [contradiction|].
    assert (E := IH Hnd' Hin Hp).
    unfold remaining in *. simpl. rewrite inb_snoc.
    assert (String.eqb (task_id d) x = false) as -> by now apply String.eqb_neq.
    rewrite orb_false_r. destruct (negb (inb (task_id d) P)); simpl; now rewrite E.
Qed.

Lemma remaining_snoc_le (P : list string) (x : string) (deps : taskset) :
  remaining (P ++ [x]) deps <= remaining P deps.
Proof.
  unfold remaining. induction deps as [|d deps IH]; simpl; [lia|].
  rewrite inb_snoc.
  destruct (inb (task_id d) P); simpl; [assumption|].
  destruct (String.eqb (task_id d) x); simpl; lia.
Qed.

Lemma remaining_zero (P : list string) (deps : taskset) :
  remaining P deps = 0 <-> forall d, In d deps -> In (task_id d) P.
Proof.
  unfold remaining. induction deps as [|d deps IH]; simpl.
  - split; [intros _ ? []|reflexivity].
  - destruct (inb (task_id d) P) eqn:E; simpl.
    + rewrite IH. apply inb_In in E. split.
      * intros H d' [<-|Hin]; [assumption|now apply H].
      * intros H d' Hin. apply H. now right.
    + apply inb_false in E. split; [discriminate|].
      intros H. exfalso. apply E, H. now left.
Qed.

Lemma set_contains_In (t : TaskRef) (l : taskset) :
  set_contains t l = true <-> In (task_id t) (ids l).
Proof.
  unfold set_contains, ids. rewrite existsb_exists, in_map_iff. split.
  - intros (y & Hin & Heq). apply Task_eqb_eq in Heq. exists y. now split.
  - intros (y & Heq & Hin). exists y. split; [assumption|]. now apply Task_eqb_eq.
Qed.

Lemma dict_find_In_NoDup {V : Type} (k : TaskRef) (v : V) (d : dict V) :
  NoDup (ids (keys d)) -> In (k, v) d -> dict_find k d = Some v.
Proof.
  induction d as [|[k0 v0] d IH]; simpl; [intros _ []|].
  intros Hnd Hin. inversion Hnd as [|? ? Hk Hnd']; subst.
  destruct Hin as [[= -> ->]|Hin].
  - now rewrite Task_eqb_refl.
  - destruct (Task_eqb k k0) eqn:E; [|now apply IH].
    exfalso. apply Hk. apply Task_eqb_eq in E. rewrite <- E.
    unfold ids, keys. apply in_map, (in_map fst _ _ Hin).
Qed.

Lemma dict_find_out_degree (t : TaskRef) (t2d : dict taskset) :
  dict_find t (out_degree_of t2d)
  = option_map (fun deps => Z.of_nat (List.length deps)) (dict_find t t2d).
Proof.
  unfold out_degree_of. induction t2d as [|[k v] d IH]; simpl; [reflexivity|].
  destruct (Task_eqb t k); [reflexivity|assumption].
Qed.

Lemma ready_queue_of_out_degree (t2d : dict taskset) (q : TaskRef) :
  In q (ready_queue_of (out_degree_of t2d)) -> In (q, []) t2d.
Proof.
  unfold ready_queue_of, out_degree_of.
  induction t2d as [|[k v] d IH]; simpl; [intros []|].
  destruct (Z.eqb_spec (Z.of_nat (List.length v)) 0) as [Hz|Hz]; simpl.
  - intros [<-|Hin]; [|right; now apply IH].
    left. destruct v; [reflexivity|simpl in Hz; lia].
  - intros Hin. right. now apply IH.
Qed.

Lemma ready_queue_of_NoDup (t2d : dict taskset) :
  NoDup (ids (keys t2d)) -> NoDup (ids (ready_queue_of (out_degree_of t2d))).
Proof.
  unfold ready_queue_of, out_degree_of, ids, keys.
  induction t2d as [|[k v] d IH]; simpl; [constructor|].
  intros Hnd. inversion Hnd as [|? ? Hk Hnd']; subst.
  destruct (Z.of_nat (List.length v) =? 0)%Z; simpl; [|now apply IH].
  constructor; [|now apply IH].
  intros Hin. apply Hk. clear - Hin.
  induction d as [|[k' v'] d IH]; simpl in *; [assumption|].
  destruct (Z.of_nat (List.length v') =? 0)%Z; simpl in *.
  - destruct Hin as [H|H]; [now left|right; now apply IH].
  - right. now apply IH.
Qed.

(* ================================================================= *)
(** * The loop of __has_cycles *)
(* ================================================================= *)

Lemma ids_filter_NoDup (f : TaskRef -> bool) (l : taskset) :
  NoDup (ids l) -> NoDup (ids (filter f l)).
Proof.
  unfold ids. induction l as [|a l IH]; simpl; [constructor|].
  intros Hnd. inversion Hnd as [|? ? Ha Hnd']; subst.
  destruct (f a); simpl; [|now apply IH].
  constructor; [|now apply IH].
  intros Hin. apply Ha. apply in_map_iff in Hin. destruct Hin as (y & Heq & Hin).
  apply filter_In in Hin. rewrite <- Heq. apply in_map, Hin.
Qed.

Lemma In_ids (x : string) (l : taskset) :
  In x (ids l) <-> exists t, In t l /\ task_id t = x.
Proof.
  unfold ids. rewrite in_map_iff. split; intros (t & H1 & H2); exists t; now split.
Qed.

Lemma visit_dependents_spec (L : taskset) :
  forall (D : dict Z) (Q : list TaskRef),
    NoDup (ids L) ->
    (forall t, In t L -> dict_find t D <> None) ->
    exists D',
      visit_dependents L D Q = Some (D', Q ++ filter (hits_zero D) L)
      /\ forall t, dict_find t D'
                   = if set_contains t L
                     then option_map (fun n => (n - 1)%Z) (dict_find t D)
                     else dict_find t D.
Proof.
  induction L as [|a L IH]; intros D Q Hnd Hin.
  - exists D. simpl. rewrite app_nil_r. split; reflexivity.
  - simpl. inversion Hnd as [|? ? Ha Hnd']; subst.
    destruct (dict_find a D) as [n|] eqn:Ea;
      [|exfalso; apply (Hin a); [now left|assumption]].
    assert (Hother : forall t, In t L -> Task_eqb t a = false).
    { intros t Ht. apply Task_eqb_neq. intros Heq. apply Ha. rewrite <- Heq.
      apply In_ids. now exists t. }
    destruct (IH (dict_set a (n - 1)%Z D)
                 (if (n - 1 =? 0)%Z then Q ++ [a] else Q) Hnd') as (D' & Hv & Hf).
    { intros t Ht. rewrite dict_find_set, (Hother t Ht). apply Hin. now right. }
    exists D'. split.
    + rewrite Hv. f_equal. f_equal.
      rewrite (filter_ext_in (hits_zero (dict_set a (n - 1)%Z D)) (hits_zero D) L).
      * unfold hits_zero at 2. rewrite Ea.
        destruct (n - 1 =? 0)%Z; [rewrite <- app_assoc|]; reflexivity.
      * intros t Ht. unfold hits_zero. now rewrite dict_find_set, (Hother t Ht).
    + intros t. rewrite Hf, dict_find_set.
      destruct (Task_eqb t a) eqn:Et; simpl.
      * assert (set_contains t L = false) as ->.
        { destruct (set_contains t L) eqn:Ec; [|reflexivity].
          apply set_contains_In in Ec. apply Task_eqb_eq in Et.
          rewrite Et in Ec. contradiction. }
        apply Task_eqb_eq in Et. now rewrite (dict_find_cong t a D Et), Ea.
      * reflexivity.
Qed.

Lemma topological_snoc (t2d : dict taskset) (P : list string) (x : string) :
  topological t2d P ->
  (forall t deps, task_id t = x -> dict_find t t2d = Some deps ->
     forall d, In d deps -> In (task_id d) P) ->
  topological t2d (P ++ [x]).
Proof.
  intros Htopo Hx P1 y P2 Heq.
  destruct P2 as [|z P2] using rev_ind.
  - apply app_inj_tail in Heq. destruct Heq as [<- <-]. exact Hx.
  - clear IHP2. change (y :: P2 ++ [z]) with ((y :: P2) ++ [z]) in Heq.
    rewrite app_assoc in Heq. apply app_inj_tail in Heq. destruct Heq as [Heq _].
    exact (Htopo P1 y P2 Heq).
Qed.

Lemma depends_on_registered (s : Scheduler) (t p : TaskRef) :
  depends_on s t p -> registered s t.
Proof.
  intros (deps & Hf & _). unfold registered.
  destruct (dict_find_Some_In _ _ _ Hf) as (k & Hin & Hid).
  rewrite <- Hid. unfold ids, keys. apply in_map, (in_map fst _ _ Hin).
Qed.

Lemma kahn_inv_init (s : Scheduler) :
  sched_wf s ->
  kahn_inv s [] (ready_queue_of (out_degree_of (task_to_dependencies s)))
           (out_degree_of (task_to_dependencies s)).
Proof.
  intros Hwf. constructor; simpl.
  - apply ready_queue_of_NoDup, (wf_keys s Hwf).
  - intros x Hx. apply In_ids in Hx. destruct Hx as (q & Hq & <-).
    apply ready_queue_of_out_degree in Hq.
    unfold ids, keys. apply in_map, (in_map fst _ _ Hq).
  - intros t. rewrite dict_find_out_degree.
    destruct (dict_find t (task_to_dependencies s)); simpl; [|reflexivity].
    now rewrite remaining_nil.
  - intros t deps Hf Hx. apply In_ids in Hx. destruct Hx as (q & Hq & Hid).
    apply ready_queue_of_out_degree in Hq.
    apply (dict_find_In_NoDup _ _ _ (wf_keys s Hwf)) in Hq.
    rewrite (dict_find_cong q t _ Hid) in Hq.
    assert (deps = []) as -> by congruence. reflexivity.
  - intros P1 x P2 Heq. destruct P1; discriminate.
Qed.

Lemma kahn_inv_step (s : Scheduler) (P : list string) (p : TaskRef)
    (Q : list TaskRef) (D : dict Z) :
  sched_wf s ->
  kahn_inv s P (p :: Q) D ->
  exists D' Q',
    visit_dependents (dependents_of (task_to_dependents s) p) D Q = Some (D', Q')
    /\ kahn_inv s (P ++ [task_id p]) Q' D'.
Proof.
  intros Hwf Hinv.
  set (L := dependents_of (task_to_dependents s) p).
  assert (HL : forall t, In (task_id t) (ids L) ->
                 exists deps, dict_find t (task_to_dependencies s) = Some deps
                              /\ In (task_id p) (ids deps) /\ NoDup (ids deps)).
  { intros t Ht. apply (wf_transpose s Hwf) in Ht. destruct Ht as (deps & Hf & Hp).
    exists deps. repeat split; try assumption.
    destruct (dict_find_Some_In _ _ _ Hf) as (k & Hk & _).
    exact (wf_deps s Hwf k deps Hk). }
  assert (Hp : ~ In (task_id p) P).
  { pose proof (ki_nodup _ _ _ _ Hinv) as Hnd. simpl in Hnd.
    apply NoDup_remove_2 in Hnd. intros H. apply Hnd. apply in_or_app. now left. }
  assert (Hdeg : forall t deps, dict_find t (task_to_dependencies s) = Some deps ->
                   dict_find t D = Some (Z.of_nat (remaining P deps))).
  { intros t deps Hf. rewrite (ki_deg _ _ _ _ Hinv), Hf. reflexivity. }
  destruct (visit_dependents_spec L D Q (wf_dependents s Hwf p)) as (D' & Hv & Hfind).
  { intros t Ht. destruct (HL t) as (deps & Hf & _).
    - apply In_ids. now exists t.
    - rewrite (Hdeg t deps Hf). discriminate. }
  exists D', (Q ++ filter (hits_zero D) L). split; [exact Hv|].
  assert (Hnew : forall x, In x (ids (filter (hits_zero D) L)) ->
                   exists t deps, task_id t = x /\ In (task_id t) (ids L)
                     /\ dict_find t (task_to_dependencies s) = Some deps
                     /\ In (task_id p) (ids deps) /\ NoDup (ids deps)
                     /\ remaining P deps = 1).
  { intros x Hx. apply In_ids in Hx. destruct Hx as (t & Ht & <-).
    apply filter_In in Ht. destruct Ht as [Ht Hz].
    assert (HtL : In (task_id t) (ids L)) by (apply In_ids; now exists t).
    destruct (HL t HtL) as (deps & Hf & Hpd & Hnd).
    exists t, deps. repeat split; try assumption.
    unfold hits_zero in Hz. rewrite (Hdeg t deps Hf) in Hz.
    apply Z.eqb_eq in Hz. lia. }
  assert (Hsplit : forall x, In x ((P ++ [task_id p]) ++ ids (Q ++ filter (hits_zero D) L)) ->
                     In x (P ++ ids (p :: Q)) \/ In x (ids (filter (hits_zero D) L))).
  { intros x Hx. unfold ids in *. rewrite map_app in Hx. simpl.
    rewrite !in_app_iff in Hx. simpl in Hx. rewrite in_app_iff. simpl. tauto. }
  constructor.
  - replace ((P ++ [task_id p]) ++ ids (Q ++ filter (hits_zero D) L))
      with ((P ++ ids (p :: Q)) ++ ids (filter (hits_zero D) L)).
    2:{ unfold ids. rewrite map_app. simpl. rewrite <- !app_assoc. reflexivity. }
    apply NoDup_app.
    + exact (ki_nodup _ _ _ _ Hinv).
    + apply ids_filter_NoDup, (wf_dependents s Hwf p).
    + intros x Hold Hx. destruct (Hnew x Hx) as (t & deps & <- & _ & Hf & Hpd & _ & Hone).
      rewrite (ki_zero _ _ _ _ Hinv t deps Hf Hold) in Hone. discriminate.
  - intros x Hx. destruct (Hsplit x Hx) as [Hold|Hx'].
    + exact (ki_reg _ _ _ _ Hinv x Hold).
    + destruct (Hnew x Hx') as (t & deps & <- & _ & Hf & _).
      destruct (dict_find_Some_In _ _ _ Hf) as (k & Hk & Hid).
      rewrite <- Hid. unfold ids, keys. apply in_map, (in_map fst _ _ Hk).
  - intros t. rewrite Hfind.
    destruct (dict_find t (task_to_dependencies s)) as [deps|] eqn:Hf; simpl.
    + rewrite (Hdeg t deps Hf). simpl.
      destruct (set_contains t L) eqn:Ec.
      * apply set_contains_In in Ec. destruct (HL t Ec) as (deps' & Hf' & Hpd & Hnd).
        assert (deps' = deps) as -> by congruence.
        rewrite (remaining_snoc_in P (task_id p) deps Hnd Hpd Hp). f_equal. lia.
      * rewrite remaining_snoc_notin; [reflexivity|].
        intros Hpd. assert (In (task_id t) (ids L)) as Hc.
        { apply (wf_transpose s Hwf). exists deps. now split. }
        apply set_contains_In in Hc. congruence.
    + rewrite (ki_deg _ _ _ _ Hinv), Hf. simpl. destruct (set_contains t L); reflexivity.
  - intros t deps Hf Hx. destruct (Hsplit _ Hx) as [Hold|Hx'].
    + pose proof (ki_zero _ _ _ _ Hinv t deps Hf Hold) as Hz.
      pose proof (remaining_snoc_le P (task_id p) deps). lia.
    + destruct (Hnew _ Hx') as (t' & deps' & Hid & _ & Hf' & Hpd & Hnd & Hone).
      rewrite (dict_find_cong t' t _ Hid) in Hf'.
      assert (deps' = deps) as -> by congruence.
      rewrite (remaining_snoc_in P (task_id p) deps Hnd Hpd Hp) in Hone. lia.
  - apply topological_snoc; [exact (ki_topo _ _ _ _ Hinv)|].
    intros t deps Hid Hf. apply remaining_zero.
    apply (ki_zero _ _ _ _ Hinv t deps Hf). rewrite Hid.
    apply in_or_app. right. now left.
Qed.

Lemma kahn_inv_length (s : Scheduler) (P : list string) (Q : list TaskRef) (D : dict Z) :
  kahn_inv s P Q D ->
  List.length P + List.length Q <= List.length (task_to_dependencies s).
Proof.
  intros Hinv.
  pose proof (NoDup_incl_length (ki_nodup _ _ _ _ Hinv)
                (fun x Hx => ki_reg _ _ _ _ Hinv x Hx)) as Hle.
  unfold ids, keys in Hle. rewrite length_app, !length_map in Hle. exact Hle.
Qed.

(** On fuel enough for the tasks not yet popped, the loop ends, and it
    has popped a duplicate-free sequence of registered tasks in
    topological order. *)
Lemma kahn_loop_runs (s : Scheduler) :
  sched_wf s ->
  forall (fuel : nat) (E : dict taskset) (P : list string) (Q : list TaskRef) (D : dict Z),
    (forall k, dependents_of E k = dependents_of (task_to_dependents s) k) ->
    kahn_inv s P Q D ->
    List.length (task_to_dependencies s) <= fuel + List.length P ->
    exists E' P',
      kahn_loop fuel E D Q (List.length P) = (E', Done (List.length P'))
      /\ (forall k, dependents_of E' k = dependents_of (task_to_dependents s) k)
      /\ NoDup P'
      /\ (forall x, In x P' -> In x (ids (keys (task_to_dependencies s))))
      /\ topological (task_to_dependencies s) P'.
Proof.
  intros Hwf fuel. induction fuel as [|fuel IH]; intros E P Q D HE Hinv Hfuel.
  - destruct Q as [|p Q].
    + exists E, P. simpl. split; [reflexivity|]. split; [assumption|].
      pose proof (ki_nodup _ _ _ _ Hinv) as Hnd. simpl in Hnd. rewrite app_nil_r in Hnd.
      split; [assumption|]. split; [|exact (ki_topo _ _ _ _ Hinv)].
      intros x Hx. apply (ki_reg _ _ _ _ Hinv). apply in_or_app. now left.
    + exfalso. apply kahn_inv_length in Hinv. simpl in Hinv, Hfuel. lia.
  - destruct Q as [|p Q].
    + exists E, P. simpl. split; [reflexivity|]. split; [assumption|].
      pose proof (ki_nodup _ _ _ _ Hinv) as Hnd. simpl in Hnd. rewrite app_nil_r in Hnd.
      split; [assumption|]. split; [|exact (ki_topo _ _ _ _ Hinv)].
      intros x Hx. apply (ki_reg _ _ _ _ Hinv). apply in_or_app. now left.
    + simpl.
      pose proof (defaultdict_getitem_fst p E) as Hfst.
      pose proof (fun k => defaultdict_getitem_snd p k E) as Hsnd.
      destruct (defaultdict_getitem p E) as [L E1]. simpl in Hfst, Hsnd.
      rewrite Hfst, HE.
      destruct (kahn_inv_step s P p Q D Hwf Hinv) as (D' & Q' & Hv & Hinv').
      rewrite Hv.
      destruct (IH E1 (P ++ [task_id p]) Q' D') as (E' & P' & Hrun & Hrest).
      * intros k. now rewrite Hsnd, HE.
      * exact Hinv'.
      * rewrite last_length. lia.
      * rewrite last_length in Hrun. exists E', P'. split; assumption.
Qed.

(** More fuel does not change what the loop returns. *)
Lemma kahn_loop_more_fuel (fuel extra : nat) :
  forall (E : dict taskset) (D : dict Z) (Q : list TaskRef) (n m : nat) (E' : dict taskset),
    kahn_loop fuel E D Q n = (E', Done m) ->
    kahn_loop (fuel + extra) E D Q n = (E', Done m).
Proof.
  induction fuel as [|fuel IH]; intros E D Q n m E' H.
  - destruct Q; simpl in H; [|discriminate]. destruct extra; exact H.
  - destruct Q as [|p Q]; [exact H|]. simpl in *.
    destruct (defaultdict_getitem p E) as [L E1].
    destruct (visit_dependents L D Q) as [[D' Q']|]; [|discriminate].
    now apply IH.
Qed.

(** A topological order holds no member of a blocked set. *)
Lemma topological_avoids_blocked (s : Scheduler) (B : string -> Prop) (P : list string) :
  blocked s B ->
  topological (task_to_dependencies s) P ->
  (forall x, In x P -> In x (ids (keys (task_to_dependencies s)))) ->
  forall x, In x P -> ~ B x.
Proof.
  intros Hb Htopo Hreg.
  assert (H : forall P1 P2, P = P1 ++ P2 -> forall x, In x P1 -> ~ B x).
  { induction P1 as [|y P1 IH] using rev_ind; intros P2 Heq x Hx; [destruct Hx|].
    rewrite <- app_assoc in Heq. simpl in Heq.
    apply in_app_or in Hx. destruct Hx as [Hx|[<-|[]]].
    - exact (IH (y :: P2) Heq x Hx).
    - intros HB.
      assert (Hy : In y (ids (keys (task_to_dependencies s)))).
      { apply Hreg. rewrite Heq. apply in_or_app. right. now left. }
      unfold ids in Hy. apply in_map_iff in Hy. destruct Hy as (t & Hid & Ht).
      destruct (dict_find_is_Some t (task_to_dependencies s)) as (deps & Hf).
      { unfold ids. apply in_map, Ht. }
      subst y. destruct (Hb t deps HB Hf) as (d & Hd & Hcase).
      pose proof (Htopo P1 (task_id t) P2 Heq t deps eq_refl Hf d Hd) as Hin.
      destruct Hcase as [HBd|Hnr].
      + exact (IH (task_id t :: P2) Heq (task_id d) Hin HBd).
      + apply Hnr. unfold registered. apply Hreg. rewrite Heq.
        apply in_or_app. now left. }
  intros x Hx. apply (H P [] (eq_sym (app_nil_r P)) x Hx).
Qed.

(** The cycle check on a well-formed scheduler: it ends, having popped
    a duplicate-free topological sequence [P] of registered tasks, and
    answers whether fewer tasks were popped than are registered. *)
Lemma has_cycles_runs (s : Scheduler) :
  sched_wf s ->
  exists E' P,
    processed (S (List.length (task_to_dependencies s))) s = (E', Done (List.length P))
    /\ Scheduler__has_cycles s
       = ({| task_to_dependencies := task_to_dependencies s;
             task_to_dependents := E' |},
          Done (List.length P <? List.length (task_to_dependencies s)))
    /\ List.length P <= List.length (task_to_dependencies s)
    /\ (forall k, dependents_of E' k = dependents_of (task_to_dependents s) k)
    /\ NoDup P
    /\ (forall x, In x P -> In x (ids (keys (task_to_dependencies s))))
    /\ topological (task_to_dependencies s) P.
Proof.
  intros Hwf.
  destruct (kahn_loop_runs s Hwf (S (List.length (task_to_dependencies s)))
              (task_to_dependents s) []
              (ready_queue_of (out_degree_of (task_to_dependencies s)))
              (out_degree_of (task_to_dependencies s)))
    as (E' & P & Hrun & HE & Hnd & Hreg & Htopo).
  - reflexivity.
  - now apply kahn_inv_init.
  - simpl. lia.
  - assert (Hle : List.length P <= List.length (task_to_dependencies s)).
    { pose proof (NoDup_incl_length Hnd Hreg) as Hle.
      unfold ids, keys in Hle. now rewrite !length_map in Hle. }
    exists E', P. unfold Scheduler__has_cycles, processed.
    change (List.length (@nil string)) with 0 in Hrun. rewrite Hrun.
    repeat split; try assumption.
    f_equal. f_equal.
    destruct (Nat.eqb_spec (List.length P) (List.length (task_to_dependencies s)));
      destruct (Nat.ltb_spec (List.length P) (List.length (task_to_dependencies s)));
      simpl; try reflexivity; lia.
Qed.

(** A registered member of a blocked set makes the cycle check answer
    yes. *)
Lemma blocked_has_cycles (s : Scheduler) (B : string -> Prop) (t : TaskRef) :
  sched_wf s -> blocked s B -> registered s t -> B (task_id t) ->
  exists s',
    Scheduler__has_cycles s = (s', Done true)
    /\ task_to_dependencies s' = task_to_dependencies s.
Proof.
  intros Hwf Hb Hreg HB.
  destruct (has_cycles_runs s Hwf) as (E' & P & _ & Hc & _ & _ & Hnd & Hin & Htopo).
  exists {| task_to_dependencies := task_to_dependencies s;
            task_to_dependents := E' |}.
  split; [|reflexivity]. rewrite Hc. f_equal. f_equal.
  apply Nat.ltb_lt.
  assert (Hnot : ~ In (task_id t) P).
  { intros Hx. exact (topological_avoids_blocked s B P Hb Htopo Hin _ Hx HB). }
  assert (Hnd' : NoDup (task_id t :: P)) by now constructor.
  assert (Hincl : incl (task_id t :: P) (ids (keys (task_to_dependencies s)))).
  { intros x [<-|Hx]; [exact Hreg|now apply Hin]. }
  pose proof (NoDup_incl_length Hnd' Hincl) as Hle.
  unfold ids, keys in Hle. rewrite !length_map in Hle. simpl in Hle. lia.
Qed.

(* ================================================================= *)
(** * The invariant of the two mappings is kept *)
(* ================================================================= *)

Lemma ids_set_add (t : TaskRef) (l : taskset) (x : string) :
  In x (ids (set_add t l)) <-> x = task_id t \/ In x (ids l).
Proof.
  unfold set_add. destruct (set_contains t l) eqn:E.
  - apply set_contains_In in E. split; [now right|]. intros [->|H]; assumption.
  - unfold ids. rewrite map_app, in_app_iff. simpl. split.
    + intros [H|[H|[]]]; [now right|now left].
    + intros [H|H]; [right; now left|now left].
Qed.

Lemma set_add_NoDup (t : TaskRef) (l : taskset) :
  NoDup (ids l) -> NoDup (ids (set_add t l)).
Proof.
  intros Hnd. unfold set_add. destruct (set_contains t l) eqn:E; [assumption|].
  unfold ids. rewrite map_app. simpl. apply NoDup_app; [assumption|repeat constructor; intros []|].
  intros x Hx [<-|[]].
  assert (set_contains t l = true) by now apply set_contains_In. congruence.
Qed.

Lemma set_add_idem (t : TaskRef) (l : taskset) :
  set_add t (set_add t l) = set_add t l.
Proof.
  unfold set_add at 1.
  assert (set_contains t (set_add t l) = true) as ->; [|reflexivity].
  apply set_contains_In, ids_set_add. now left.
Qed.

Lemma set_of_spec (l : list TaskRef) :
  NoDup (ids (set_of l)) /\ forall x, In x (ids (set_of l)) <-> In x (ids l).
Proof.
  unfold set_of.
  assert (H : forall acc, NoDup (ids acc) ->
            NoDup (ids (fold_left (fun s t => set_add t s) l acc))
            /\ forall x, In x (ids (fold_left (fun s t => set_add t s) l acc))
                         <-> In x (ids acc) \/ In x (ids l)).
  { induction l as [|a l IH]; intros acc Hacc; simpl.
    - split; [assumption|]. intros x. tauto.
    - destruct (IH (set_add a acc) (set_add_NoDup a acc Hacc)) as [Hnd Hin].
      split; [assumption|]. intros x. rewrite Hin, ids_set_add. simpl.
      intuition (subst; auto). }
  destruct (H [] (NoDup_nil _)) as [Hnd Hin]. split; [assumption|].
  intros x. rewrite Hin. simpl. tauto.
Qed.

Lemma dependents_of_cong (d : dict taskset) (k k' : TaskRef) :
  task_id k = task_id k' -> dependents_of d k = dependents_of d k'.
Proof. intros H. unfold dependents_of. now rewrite (dict_find_cong k k' d H). Qed.

Lemma dependents_of_set (d : dict taskset) (k k' : TaskRef) (v : taskset) :
  dependents_of (dict_set k' v d) k = if Task_eqb k k' then v else dependents_of d k.
Proof.
  unfold dependents_of. rewrite dict_find_set. destruct (Task_eqb k k'); reflexivity.
Qed.

(** The dependents recorded after the [for dependency in
    task.dependencies] loop of [schedule]. *)
Lemma schedule_dependents (task : TaskRef) (deps : list TaskRef) :
  forall (E : dict taskset) (p : TaskRef),
    dependents_of
      (fold_left
         (fun d dependency =>
            let '(v, d1) := defaultdict_getitem dependency d in
            dict_set dependency (set_add task v) d1)
         deps E) p
    = if set_contains p deps then set_add task (dependents_of E p)
      else dependents_of E p.
Proof.
  induction deps as [|dep deps IH]; intros E p; simpl; [reflexivity|].
  rewrite IH.
  pose proof (defaultdict_getitem_fst dep E) as Hfst.
  pose proof (defaultdict_getitem_snd dep p E) as Hsnd.
  destruct (defaultdict_getitem dep E) as [v E1]. simpl in Hfst, Hsnd.
  rewrite dependents_of_set, Hsnd, Hfst.
  destruct (Task_eqb p dep) eqn:Ep; simpl.
  - apply Task_eqb_eq in Ep. rewrite (dependents_of_cong E dep p (eq_sym Ep)).
    destruct (set_contains p deps); [apply set_add_idem|reflexivity].
  - reflexivity.
Qed.

(** Freezing a set that is already one changes nothing. *)
Lemma set_of_frozen (l : taskset) : NoDup (ids l) -> set_of l = l.
Proof.
  unfold set_of.
  assert (H : forall acc, NoDup (ids (acc ++ l)) ->
            fold_left (fun s t => set_add t s) l acc = acc ++ l).
  { induction l as [|a l IH]; intros acc Hnd; simpl; [now rewrite app_nil_r|].
    assert (set_add a acc = acc ++ [a]) as ->.
    { unfold set_add. destruct (set_contains a acc) eqn:E; [|reflexivity].
      exfalso. apply set_contains_In in E. unfold ids in Hnd.
      rewrite map_app in Hnd. simpl in Hnd. apply NoDup_remove_2 in Hnd.
      apply Hnd. apply in_or_app. now left. }
    rewrite IH; [now rewrite <- app_assoc|].
    now rewrite <- app_assoc. }
  intros Hnd. exact (H [] Hnd).
Qed.

(** What [schedule] records for a task is the task's own dependency
    set. *)
Lemma schedule_records_dependencies (st : store) (s : Scheduler) (task : TaskRef) :
  run_raised (schedule st s task) = None ->
  dict_find task (task_to_dependencies (run_sched (schedule st s task)))
  = Some (set_of (dependencies (get st (addr task))))
  /\ forall a, dependencies (get (run_store (schedule st s task)) a)
               = dependencies (get st a).
Proof.
  unfold schedule. destruct (dict_contains task (task_to_dependencies s)); simpl;
    [discriminate|]. intros _. split.
  - rewrite dict_find_set, Task_eqb_refl.
    unfold register_on_task_canceled, register_on_task_failed,
      register_on_task_completed. rewrite !get_alter_same. reflexivity.
  - intros a. unfold register_on_task_canceled, register_on_task_failed,
      register_on_task_completed. rewrite !get_alter.
    destruct (Nat.eqb a (addr task)); reflexivity.
Qed.

Lemma sched_wf_init : sched_wf Scheduler_init.
Proof.
  constructor; simpl.
  - constructor.
  - intros ? ? [].
  - intros p. constructor.
  - intros p t. split; [intros []|]. intros (deps & Hf & _). discriminate.
Qed.

(** Only the content of [task_to_dependents] matters. *)
Lemma sched_wf_ext (s s' : Scheduler) :
  task_to_dependencies s' = task_to_dependencies s ->
  (forall k, dependents_of (task_to_dependents s') k
             = dependents_of (task_to_dependents s) k) ->
  sched_wf s -> sched_wf s'.
Proof.
  intros HT HE Hwf. constructor.
  - rewrite HT. exact (wf_keys s Hwf).
  - rewrite HT. exact (wf_deps s Hwf).
  - intros p. rewrite HE. exact (wf_dependents s Hwf p).
  - intros p t. rewrite HE. unfold depends_on. rewrite HT.
    exact (wf_transpose s Hwf p t).
Qed.

Lemma schedule_wf (st : store) (s : Scheduler) (task : TaskRef) :
  sched_wf s -> sched_wf (run_sched (schedule st s task)).
Proof.
  intros Hwf. unfold schedule.
  destruct (dict_contains task (task_to_dependencies s)) eqn:Ec; simpl; [assumption|].
  assert (Hfresh : dict_find task (task_to_dependencies s) = None).
  { unfold dict_contains in Ec.
    destruct (dict_find task (task_to_dependencies s)); [discriminate|reflexivity]. }
  assert (Hnot : ~ In (task_id task) (ids (keys (task_to_dependencies s))))
    by now apply dict_find_None.
  set (deps := dependencies
                 (get (register_on_task_canceled
                         (register_on_task_failed
                            (register_on_task_completed st task Scheduler_on_task_completed)
                            task Scheduler_on_task_failed)
                         task Scheduler_on_task_canceled) (addr task))).
  destruct (set_of_spec deps) as [Hnd Hin].
  constructor; simpl.
  - rewrite (dict_set_fresh _ _ _ Hfresh). unfold ids, keys. rewrite !map_app. simpl.
    apply NoDup_app; [exact (wf_keys s Hwf)|repeat constructor; intros []|].
    intros x Hx [<-|[]]. contradiction.
  - rewrite (dict_set_fresh _ _ _ Hfresh). intros t ds Ht.
    apply in_app_or in Ht. destruct Ht as [Ht|[[= <- <-]|[]]].
    + exact (wf_deps s Hwf t ds Ht).
    + exact Hnd.
  - intros p. rewrite schedule_dependents.
    destruct (set_contains p deps);
      [apply set_add_NoDup|]; exact (wf_dependents s Hwf p).
  - intros p t. rewrite schedule_dependents. unfold depends_on. simpl.
    rewrite dict_find_set.
    assert (Hreg : forall ds, dict_find t (task_to_dependencies s) = Some ds ->
                     Task_eqb t task = false).
    { intros ds Hf. apply Task_eqb_neq. intros Heq.
      rewrite (dict_find_cong t task _ Heq), Hfresh in Hf. discriminate. }
    destruct (set_contains p deps) eqn:Ep.
    + apply set_contains_In in Ep. rewrite ids_set_add. split.
      * intros [Heq|Hold].
        -- assert (Task_eqb t task = true) as -> by now apply Task_eqb_eq.
           exists (set_of deps). split; [reflexivity|]. now apply Hin.
        -- apply (wf_transpose s Hwf) in Hold. destruct Hold as (ds & Hf & Hp).
           rewrite (Hreg ds Hf). exists ds. now split.
      * intros (ds & Hf & Hp). destruct (Task_eqb t task) eqn:Et.
        -- left. now apply Task_eqb_eq.
        -- right. apply (wf_transpose s Hwf). exists ds. now split.
    + split.
      * intros Hold. apply (wf_transpose s Hwf) in Hold. destruct Hold as (ds & Hf & Hp).
        rewrite (Hreg ds Hf). exists ds. now split.
      * intros (ds & Hf & Hp). destruct (Task_eqb t task) eqn:Et.
        -- exfalso. injection Hf as <-. apply Hin in Hp.
           apply set_contains_In in Hp. congruence.
        -- apply (wf_transpose s Hwf). exists ds. now split.
Qed.

Lemma call_sched (f : callback) (st : store) (s : Scheduler) (t : TaskRef) :
  task_to_dependencies (run_sched (call f st s t)) = task_to_dependencies s
  /\ forall k, dependents_of (task_to_dependents (run_sched (call f st s t))) k
               = dependents_of (task_to_dependents s) k.
Proof.
  destruct f as [| | |[v|e]|[v|e]]; simpl; try (split; reflexivity).
  - unfold Scheduler__on_task_failed.
    pose proof (fun k => defaultdict_getitem_snd t k (task_to_dependents s)) as H.
    destruct (defaultdict_getitem t (task_to_dependents s)); simpl in *.
    split; [reflexivity|exact H].
  - unfold Scheduler__on_task_canceled.
    pose proof (fun k => defaultdict_getitem_snd t k (task_to_dependents s)) as H.
    destruct (defaultdict_getitem t (task_to_dependents s)); simpl in *.
    split; [reflexivity|exact H].
Qed.

Lemma execute_task_sched (st : store) (s : Scheduler) (self : TaskRef) :
  task_to_dependencies (run_sched (execute_task st s self)) = task_to_dependencies s
  /\ forall k, dependents_of (task_to_dependents (run_sched (execute_task st s self))) k
               = dependents_of (task_to_dependents s) k.
Proof.
  assert (Hexc : forall st' s' tr e,
             task_to_dependencies (run_sched (execute_task_except st' s' self tr e))
             = task_to_dependencies s'
             /\ forall k, dependents_of
                            (task_to_dependents
                               (run_sched (execute_task_except st' s' self tr e))) k
                          = dependents_of (task_to_dependents s') k).
  { intros st' s' tr e. unfold execute_task_except.
    match goal with
    | |- context [match ?c with Some _ => _ | None => _ end] => destruct c as [f|]
    end; simpl run_sched; [apply call_sched|split; reflexivity]. }
  unfold execute_task. destruct (canceled_event (get st (addr self))).
  - match goal with
    | |- context [match ?c with Some _ => _ | None => _ end] => destruct c as [f|]
    end; simpl run_sched; [apply call_sched|split; reflexivity].
  - destruct (execute _) as [v|e];
      [|destruct (is_Exception e); [apply Hexc|split; reflexivity]].
    match goal with
    | |- context [match ?c with Some _ => _ | None => _ end] => destruct c as [f|]
    end; simpl run_sched; [|split; reflexivity].
    match goal with
    | |- context [call f ?st' s self] =>
        destruct (call_sched f st' s self) as [HT HE];
        destruct (run_raised (call f st' s self)) as [e|]; simpl run_sched;
        [destruct (is_Exception e); simpl run_sched|]
    end.
    + match goal with
      | |- context [execute_task_except ?st' ?s' self ?tr ?e'] =>
          destruct (Hexc st' s' tr e') as [HT' HE']
      end.
      split; [congruence|]. intros k. rewrite <- HE. apply HE'.
    + split; assumption.
    + split; assumption.
Qed.

Lemma execute_task_wf (st : store) (s : Scheduler) (self : TaskRef) :
  sched_wf s -> sched_wf (run_sched (execute_task st s self)).
Proof.
  destruct (execute_task_sched st s self) as [HT HE]. now apply sched_wf_ext.
Qed.

Lemma next_wf (st : store) (s : Scheduler) (g : generator) :
  sched_wf s -> sched_wf (snd (fst (fst (next st s g)))).
Proof.
  intros Hwf. destruct g; simpl; try assumption.
  - destruct (has_cycles_runs s Hwf) as (E' & P & _ & Hc & _ & HE & _).
    rewrite Hc.
    assert (Hwf' : sched_wf {| task_to_dependencies := task_to_dependencies s;
                               task_to_dependents := E' |})
      by (apply (sched_wf_ext s); [reflexivity|exact HE|exact Hwf]).
    destruct (_ <? _); simpl; [assumption|].
    destruct (ready_tasks_pass st _) as [[st' g'] sig]. assumption.
  - destruct (ready_tasks_pass st s) as [[st' g'] sig]. assumption.
  - destruct (ready_tasks_pass st s) as [[st' g'] sig]. assumption.
Qed.

(** The invariant holds in every state the code can be brought to. *)
Lemma reachable_wf (st : store) (s : Scheduler) : reachable st s -> sched_wf s.
Proof.
  intros H. induction H; try assumption.
  - apply sched_wf_init.
  - now apply schedule_wf.
  - now apply execute_task_wf.
  - now apply next_wf.
Qed.

(* ================================================================= *)
(** * Cycles and unregistered dependencies *)
(* ================================================================= *)

Lemma depends_on_cong (s : Scheduler) (a a' b b' : TaskRef) :
  task_id a = task_id a' -> task_id b = task_id b' ->
  depends_on s a b -> depends_on s a' b'.
Proof.
  intros Ha Hb (deps & Hf & Hin). exists deps.
  rewrite <- (dict_find_cong a a' _ Ha), <- Hb. now split.
Qed.

Lemma chain_snoc (s : Scheduler) (a b c : TaskRef) :
  chain s a b -> depends_on s b c -> registered s c -> chain s a c.
Proof.
  intros Hab Hbc Hc. induction Hab as [a b Hd Hr|a b b' Hd Hr Hch IH].
  - eapply chain_step; [exact Hd|exact Hr|]. now apply chain_edge.
  - eapply chain_step; [exact Hd|exact Hr|]. now apply IH.
Qed.

Lemma depends_on_In (s : Scheduler) (t b : TaskRef) (deps : taskset) :
  depends_on s t b -> dict_find t (task_to_dependencies s) = Some deps ->
  exists d, In d deps /\ task_id d = task_id b.
Proof.
  intros (deps' & Hf & Hin) Hf'. assert (deps' = deps) as -> by congruence.
  apply In_ids in Hin. exact Hin.
Qed.

Lemma on_cycle_blocked (s : Scheduler) : blocked s (on_cycle s).
Proof.
  intros t deps (t' & Hid & Hch) Hf.
  rewrite <- (dict_find_cong t' t _ Hid) in Hf.
  inversion Hch as [a b Hd Hr|a b c Hd Hr Hch']; subst.
  - destruct (depends_on_In s t' t' deps Hd Hf) as (d & Hin & Hd').
    exists d. split; [assumption|]. left. exists t'. now split.
  - destruct (depends_on_In s t' b deps Hd Hf) as (d & Hin & Hd').
    exists d. split; [assumption|]. left. exists b. split; [now symmetry|].
    exact (chain_snoc s b t' b Hch' Hd Hr).
Qed.

Lemma chain_registered (s : Scheduler) (a b : TaskRef) : chain s a b -> registered s a.
Proof.
  intros H. destruct H as [a b Hd _|a b c Hd _ _]; exact (depends_on_registered s a b Hd).
Qed.

Lemma cyclic_has_cycles (s : Scheduler) :
  sched_wf s -> cyclic s ->
  exists s',
    Scheduler__has_cycles s = (s', Done true)
    /\ task_to_dependencies s' = task_to_dependencies s.
Proof.
  intros Hwf (t & Hch).
  apply (blocked_has_cycles s (on_cycle s) t Hwf (on_cycle_blocked s)).
  - exact (chain_registered s t t Hch).
  - exists t. now split.
Qed.

Lemma unregistered_blocked (s : Scheduler) (t d : TaskRef) :
  depends_on s t d -> ~ registered s d ->
  blocked s (fun x => x = task_id t).
Proof.
  intros Hd Hn u deps Hid Hf.
  rewrite (dict_find_cong u t _ Hid) in Hf.
  destruct (depends_on_In s t d deps Hd Hf) as (d' & Hin & Hd').
  exists d'. split; [assumption|]. right. unfold registered in *. now rewrite Hd'.
Qed.

Lemma next_created_raises (st : store) (s s' : Scheduler) :
  Scheduler__has_cycles s = (s', Done true) ->
  next st s GEN_CREATED = (st, s', GEN_CLOSED, Raise circular_dependencies).
Proof. intros H. simpl. rewrite H. reflexivity. Qed.

Lemma next_resumed_no_raise (st : store) (s : Scheduler) (g : generator) (e : exn) :
  g <> GEN_CREATED -> snd (next st s g) <> Raise e.
Proof.
  intros Hg. destruct g; [contradiction| | |]; simpl; try discriminate.
  - unfold ready_tasks_pass. destruct (negb _); [discriminate|].
    destruct (find_ready _ _); discriminate.
  - unfold ready_tasks_pass. destruct (negb _); [discriminate|].
    destruct (find_ready _ _); discriminate.
Qed.

Lemma next_resumed_sched (st : store) (s : Scheduler) (g : generator) :
  g <> GEN_CREATED -> snd (fst (fst (next st s g))) = s.
Proof.
  intros Hg. destruct g; [contradiction| | |]; simpl; try reflexivity.
  - destruct (ready_tasks_pass st s) as [[? ?] ?]. reflexivity.
  - destruct (ready_tasks_pass st s) as [[? ?] ?]. reflexivity.
Qed.

(** The example with the cycle p -> q -> p, registered before and after
    a generator is started. *)
Lemma Examples_XPQ_wf : sched_wf (run_sched Examples.scheduled_XPQ).
Proof. repeat apply schedule_wf. apply sched_wf_init. Qed.

Lemma Examples_XPQ_cyclic : cyclic (run_sched Examples.scheduled_XPQ).
Proof.
  exists Examples.P. apply chain_step with (b := Examples.Q).
  - exists [Examples.Q0]. split; [vm_compute; reflexivity|left; reflexivity].
  - unfold registered. vm_compute. right; right; left; reflexivity.
  - apply chain_edge.
    + exists [Examples.P]. split; [vm_compute; reflexivity|left; reflexivity].
    + unfold registered. vm_compute. right; left; reflexivity.
Qed.

Lemma Examples_then_Q_wf : sched_wf (run_sched Examples.then_Q).
Proof.
  unfold Examples.then_Q, Examples.then_P, Examples.pulled_X, Examples.scheduled_X.
  repeat apply schedule_wf. apply next_wf. apply schedule_wf. apply sched_wf_init.
Qed.

Lemma Examples_then_Q_cyclic : cyclic (run_sched Examples.then_Q).
Proof.
  exists Examples.P. apply chain_step with (b := Examples.Q).
  - exists [Examples.Q0]. split; [vm_compute; reflexivity|left; reflexivity].
  - unfold registered. vm_compute. right; right; left; reflexivity.
  - apply chain_edge.
    + exists [Examples.P]. split; [vm_compute; reflexivity|left; reflexivity].
    + unfold registered. vm_compute. right; left; reflexivity.
Qed.

(** C5, refuted as stated.  A generator yields X; the tasks P and Q,
    which form a cycle, are registered afterwards; the resumed generator
    does not raise: it finds no ready task and waits. *)
Lemma resumed_generator_does_not_raise :
  snd Examples.pulled_X = Yield Examples.X
  /\ cyclic (run_sched Examples.then_Q)
  /\ snd Examples.resumed = Wait.
Proof.
  split; [vm_compute; reflexivity|].
  split; [exact Examples_then_Q_cyclic|vm_compute; reflexivity].
Qed.

(** C5, as amended.  The cycle check runs when a generator is first
    advanced, and a new generator is made each time the [ready_tasks]
    property is read: with a cycle among the registered tasks the first
    advance raises the scheduling error.  Resuming a generator after a
    yield or a wait does not run the check: it never raises, and it
    leaves the scheduler's mappings untouched. *)
Theorem cycle_check_on_first_advance_only (st : store) (s : Scheduler) :
  sched_wf s -> cyclic s ->
  (exists s', next st s GEN_CREATED = (st, s', GEN_CLOSED, Raise circular_dependencies))
  /\ (forall g e, g <> GEN_CREATED -> snd (next st s g) <> Raise e)
  /\ (forall g, g <> GEN_CREATED -> snd (fst (fst (next st s g))) = s).
Proof.
  intros Hwf Hcyc. split; [|split].
  - destruct (cyclic_has_cycles s Hwf Hcyc) as (s' & Hc & _).
    exists s'. now apply next_created_raises.
  - intros g e Hg. now apply next_resumed_no_raise.
  - intros g Hg. now apply next_resumed_sched.
Qed.

(** With the cycle registered after the first yield: a new generator
    raises, the suspended one does not. *)
Lemma cycle_check_on_first_advance_only_witness :
  (exists s',
      next (run_store Examples.then_Q) (run_sched Examples.then_Q) GEN_CREATED
      = (run_store Examples.then_Q, s', GEN_CLOSED, Raise circular_dependencies))
  /\ snd (next (run_store Examples.then_Q) (run_sched Examples.then_Q) GEN_SUSPENDED)
     <> Raise circular_dependencies.
Proof.
  destruct (cycle_check_on_first_advance_only (run_store Examples.then_Q)
              (run_sched Examples.then_Q) Examples_then_Q_wf Examples_then_Q_cyclic)
    as (H1 & H2 & _).
  split; [exact H1|]. apply H2. discriminate.
Defined.

(** C10.  When a registered task has a dependency whose identifier was
    never passed to [schedule], the cycle check answers yes, and the
    first advance of a [ready_tasks] generator raises the
    circular-dependency error and yields nothing; whether the graph has
    a cycle does not enter. *)
Theorem unregistered_dependency_reported_as_cycle
    (st : store) (s : Scheduler) (t d : TaskRef) :
  sched_wf s -> depends_on s t d -> ~ registered s d ->
  exists s',
    Scheduler__has_cycles s = (s', Done true)
    /\ next st s GEN_CREATED = (st, s', GEN_CLOSED, Raise circular_dependencies).
Proof.
  intros Hwf Hd Hn.
  destruct (blocked_has_cycles s (fun x => x = task_id t) t Hwf
              (unregistered_blocked s t d Hd Hn)
              (depends_on_registered s t d Hd) eq_refl) as (s' & Hc & _).
  exists s'. split; [assumption|]. now apply next_created_raises.
Qed.

(** D depends on U and only D is registered: there is no cycle, and the
    first advance raises the circular-dependency error. *)
Lemma unregistered_dependency_reported_as_cycle_witness :
  ~ cyclic (run_sched Examples.scheduled_D)
  /\ exists s',
       Scheduler__has_cycles (run_sched Examples.scheduled_D) = (s', Done true)
       /\ next (run_store Examples.scheduled_D) (run_sched Examples.scheduled_D) GEN_CREATED
          = (run_store Examples.scheduled_D, s', GEN_CLOSED, Raise circular_dependencies).
Proof.
  split.
  - intros (t & Hch).
    assert (Hno : forall a b, depends_on (run_sched Examples.scheduled_D) a b ->
                    registered (run_sched Examples.scheduled_D) b -> False).
    { assert (HT : task_to_dependencies (run_sched Examples.scheduled_D)
                   = [(Examples.D, [Examples.U])]) by (vm_compute; reflexivity).
      intros a b (deps & Hf & Hin) Hr. unfold registered in Hr. rewrite HT in Hf, Hr.
      destruct (dict_find_Some_In _ _ _ Hf) as (k & [Hk|[]] & _).
      injection Hk as _ <-. simpl in Hin, Hr.
      destruct Hin as [Hin|[]]. destruct Hr as [Hr|[]]. congruence. }
    destruct Hch as [a b Hd Hr|a b c Hd Hr _]; exact (Hno a b Hd Hr).
  - apply (unregistered_dependency_reported_as_cycle
             (run_store Examples.scheduled_D) (run_sched Examples.scheduled_D)
             Examples.D Examples.U).
    + apply schedule_wf, sched_wf_init.
    + exists [Examples.U]. split; [vm_compute; reflexivity|left; reflexivity].
    + unfold registered. vm_compute. intros [H|[]]. discriminate.
Defined.

(* ================================================================= *)
(** * What execute_task keeps *)
(* ================================================================= *)

Lemma evolves_refl (o : Task) : evolves o o.
Proof. repeat split. auto. Qed.

Lemma evolves_trans (o1 o2 o3 : Task) : evolves o1 o2 -> evolves o2 o3 -> evolves o1 o3.
Proof.
  unfold evolves.
  intros (A1 & A2 & A3 & A4 & A5 & A6) (B1 & B2 & B3 & B4 & B5 & B6).
  repeat split; try congruence. auto.
Qed.

Lemma alter_status_evolves (x : TaskStatus) (a b : nat) (st : store) :
  evolves (get st b) (get (alter (set_status x) a st) b).
Proof.
  rewrite get_alter. destruct (Nat.eqb b a); [|apply evolves_refl].
  repeat split. auto.
Qed.

Lemma alter_result_evolves (v : value) (a b : nat) (st : store) :
  evolves (get st b) (get (alter (set_result v) a st) b).
Proof.
  rewrite get_alter. destruct (Nat.eqb b a); [|apply evolves_refl].
  repeat split. auto.
Qed.

Lemma call_evolves (f : callback) (st : store) (s : Scheduler) (t : TaskRef) (a : nat) :
  evolves (get st a) (get (run_store (call f st s t)) a).
Proof.
  destruct (call_same_but_flag f st s t a) as (H1 & _ & H3 & H4 & H5 & _ & H7).
  repeat split; try assumption.
  destruct f as [| | |[v|e]|[v|e]]; simpl; auto.
  - unfold Scheduler__on_task_failed.
    destruct (defaultdict_getitem t (task_to_dependents s)); simpl.
    rewrite cancel_all_flag. intros ->. reflexivity.
  - unfold Scheduler__on_task_canceled.
    destruct (defaultdict_getitem t (task_to_dependents s)); simpl.
    rewrite cancel_all_flag. intros ->. reflexivity.
Qed.

Lemma execute_task_except_evolves (st : store) (s : Scheduler) (self : TaskRef)
    (tr : list event) (e : exn) (a : nat) :
  evolves (get st a) (get (run_store (execute_task_except st s self tr e)) a).
Proof.
  unfold execute_task_except.
  match goal with
  | |- context [match ?c with Some _ => _ | None => _ end] => destruct c as [f|]
  end; simpl run_store.
  - eapply evolves_trans; [|apply call_evolves].
    eapply evolves_trans; [apply alter_result_evolves|apply alter_status_evolves].
  - eapply evolves_trans; [apply alter_result_evolves|apply alter_status_evolves].
Qed.

Lemma execute_task_evolves (st : store) (s : Scheduler) (self : TaskRef) (a : nat) :
  evolves (get st a) (get (run_store (execute_task st s self)) a).
Proof.
  unfold execute_task. destruct (canceled_event (get st (addr self))).
  - match goal with
    | |- context [match ?c with Some _ => _ | None => _ end] => destruct c as [f|]
    end; simpl run_store.
    + eapply evolves_trans; [apply alter_status_evolves|apply call_evolves].
    + apply alter_status_evolves.
  - destruct (execute _) as [v|e].
    + assert (H3 : evolves (get st a)
                     (get (alter (set_status COMPLETED) (addr self)
                             (alter (set_result v) (addr self)
                                (alter (set_status RUNNING) (addr self) st))) a)).
      { eapply evolves_trans; [apply alter_status_evolves|].
        eapply evolves_trans; [apply alter_result_evolves|apply alter_status_evolves]. }
      match goal with
      | |- context [match ?c with Some _ => _ | None => _ end] => destruct c as [f|]
      end; simpl run_store; [|exact H3].
      destruct (run_raised (call f _ s self)) as [e|]; simpl run_store;
        [destruct (is_Exception e); simpl run_store|].
      * eapply evolves_trans; [|apply execute_task_except_evolves].
        eapply evolves_trans; [exact H3|apply call_evolves].
      * eapply evolves_trans; [exact H3|apply call_evolves].
      * eapply evolves_trans; [exact H3|apply call_evolves].
    + destruct (is_Exception e); simpl run_store.
      * eapply evolves_trans;
          [apply alter_status_evolves|apply execute_task_except_evolves].
      * apply alter_status_evolves.
Qed.

Lemma evolves_callbacks (o o' : Task) :
  evolves o o' -> scheduler_callbacks o -> scheduler_callbacks o'.
Proof.
  intros (_ & H2 & H3 & H4 & _) (C1 & C2 & C3). repeat split; congruence.
Qed.

(** With the Scheduler's handlers registered and a work function that
    raises nothing but an [Exception], [execute_task] returns. *)
Lemma execute_task_returns (st : store) (s : Scheduler) (self : TaskRef) :
  scheduler_callbacks (get st (addr self)) ->
  work_catchable (get st (addr self)) ->
  run_raised (execute_task st s self) = None.
Proof.
  intros (Hoc & Hof & Hca) Hx. unfold execute_task, execute_task_except.
  destruct (canceled_event (get st (addr self))).
  - rewrite get_alter_same. simpl (on_task_canceled _). rewrite Hca.
    exact (call_raised Scheduler_on_task_canceled _ s self).
  - rewrite get_alter_same. simpl (execute _).
    destruct (execute (get st (addr self))) as [v|e] eqn:He.
    + rewrite !get_alter_same. simpl (on_task_completed _). rewrite Hoc.
      simpl armed. cbv iota. rewrite call_raised. reflexivity.
    + rewrite (Hx e He). rewrite !get_alter_same. simpl (on_task_failed _). rewrite Hof.
      exact (call_raised Scheduler_on_task_failed _ s self).
Qed.

Lemma work_invocations_other (st : store) (s : Scheduler) (self u : TaskRef) :
  addr u <> addr self ->
  work_invocations u (run_trace (execute_task st s self)) = 0.
Proof.
  intros Hne.
  assert (Hn : Nat.eqb (addr self) (addr u) = false)
    by (apply Nat.eqb_neq; congruence).
  assert (Hexc : forall st' s' tr e,
             work_invocations u (run_trace (execute_task_except st' s' self tr e))
             = work_invocations u tr).
  { intros st' s' tr e. unfold execute_task_except.
    match goal with
    | |- context [match ?c with Some _ => _ | None => _ end] => destruct c as [f|]
    end; simpl run_trace; rewrite !work_invocations_app; simpl.
    - destruct (call_quiet f (alter (set_status FAILED) (addr self)
                                (alter (set_result (VExc e)) (addr self) st'))
                  s' self u) as (_ & -> & _). lia.
    - lia. }
  unfold execute_task. destruct (canceled_event (get st (addr self))).
  - match goal with
    | |- context [match ?c with Some _ => _ | None => _ end] => destruct c as [f|]
    end; simpl run_trace; [|reflexivity].
    simpl. apply call_quiet.
  - destruct (execute _) as [v|e].
    + match goal with
      | |- context [match ?c with Some _ => _ | None => _ end] => destruct c as [f|]
      end; simpl run_trace.
      * match goal with
        | |- context [call f ?st' s self] =>
            destruct (call_quiet f st' s self u) as (_ & Hq & _);
            destruct (run_raised (call f st' s self)) as [e|]; simpl run_trace
        end.
        -- destruct (is_Exception e); simpl run_trace.
           ++ rewrite Hexc. simpl. rewrite Hn, Hq. reflexivity.
           ++ simpl. rewrite Hn, Hq. reflexivity.
        -- simpl. rewrite Hn, Hq. reflexivity.
      * simpl. rewrite Hn. reflexivity.
    + destruct (is_Exception e); simpl run_trace.
      * rewrite Hexc. simpl. rewrite Hn. reflexivity.
      * simpl. rewrite Hn. reflexivity.
Qed.

(* ================================================================= *)
(** * Draining the ready tasks *)
(* ================================================================= *)

Lemma NoDup_map_inj {A B : Type} (f : A -> B) (l : list A) (a b : A) :
  NoDup (map f l) -> In a l -> In b l -> f a = f b -> a = b.
Proof.
  induction l as [|x l IH]; simpl; [intros _ []|].
  intros Hnd Ha Hb Heq. inversion Hnd as [|? ? Hx Hnd']; subst.
  destruct Ha as [->|Ha], Hb as [->|Hb].
  - reflexivity.
  - exfalso. apply Hx. rewrite Heq. now apply in_map.
  - exfalso. apply Hx. rewrite <- Heq. now apply in_map.
  - now apply IH.
Qed.

Lemma In_keys_entry {V : Type} (t : TaskRef) (d : dict V) :
  In t (keys d) -> exists v, In (t, v) d.
Proof.
  unfold keys. intros H. apply in_map_iff in H. destruct H as ([k v] & <- & Hin).
  now exists v.
Qed.

Lemma In_entry_keys {V : Type} (t : TaskRef) (v : V) (d : dict V) :
  In (t, v) d -> In t (keys d).
Proof. intros H. unfold keys. exact (in_map fst _ _ H). Qed.

Lemma find_ready_complete (st : store) (items : dict taskset) (t : TaskRef)
    (deps : taskset) :
  In (t, deps) items -> status st t = PENDING -> all_deps_completed st deps = true ->
  find_ready st items <> None.
Proof.
  intros Hin Hp Hd. induction items as [|[t0 d0] items IH]; [destruct Hin|].
  simpl. destruct (negb (TaskStatus_eqb (status st t0) PENDING)) eqn:E.
  - destruct Hin as [[= -> ->]|Hin]; [|now apply IH].
    apply TaskStatus_eqb_eq in Hp. rewrite Hp in E. discriminate.
  - destruct (all_deps_completed st d0) eqn:Ed; [discriminate|].
    destruct Hin as [[= -> ->]|Hin]; [congruence|now apply IH].
Qed.

Lemma settled_not_pending (x : TaskStatus) : settled x -> x <> PENDING.
Proof. intros [H|[H|H]]; rewrite H; discriminate. Qed.

Lemma objects_wf_ext (s s' : Scheduler) :
  task_to_dependencies s' = task_to_dependencies s ->
  (forall k, dependents_of (task_to_dependents s') k
             = dependents_of (task_to_dependents s) k) ->
  objects_wf s -> objects_wf s'.
Proof.
  intros HT HE Hw. constructor.
  - rewrite HT. exact (ow_addr s Hw).
  - rewrite HT. exact (ow_deps s Hw).
  - intros p u. rewrite HT, HE. exact (ow_dependents s Hw p u).
Qed.

(** One round of the drain: the task the scan selects is executed, and
    the invariant holds again with that task settled. *)
Lemma drain_step (st : store) (s : Scheduler) (ys : list TaskRef) (tr : list event)
    (t : TaskRef) :
  sched_wf s -> objects_wf s ->
  drain_inv (task_to_dependencies s) st ys tr ->
  find_ready st (task_to_dependencies s) = Some t ->
  run_raised (execute_task (mark_as_scheduled st t) s t) = None
  /\ drain_inv (task_to_dependencies s)
       (run_store (execute_task (mark_as_scheduled st t) s t))
       (ys ++ [t]) (tr ++ run_trace (execute_task (mark_as_scheduled st t) s t)).
Proof.
  intros Hwf How Hinv Hfind.
  apply find_ready_Some in Hfind.
  destruct Hfind as (before & deps & after & HeqT & Hpend & Hall & _).
  assert (Ht : In (t, deps) (task_to_dependencies s))
    by (rewrite HeqT; apply in_or_app; right; now left).
  assert (Hk : In t (keys (task_to_dependencies s))) by exact (In_entry_keys _ _ _ Ht).
  set (st1 := mark_as_scheduled st t).
  set (r := execute_task st1 s t).
  assert (Hev : forall a, evolves (get st a) (get (run_store r) a)).
  { intros a. eapply evolves_trans; [|apply execute_task_evolves].
    apply alter_status_evolves. }
  assert (Hcb1 : scheduler_callbacks (get st1 (addr t))).
  { eapply evolves_callbacks; [apply alter_status_evolves|].
    exact (di_callbacks _ _ _ _ Hinv t Hk). }
  assert (Hflag1 : canceled_event (get st1 (addr t)) = canceled_event (get st (addr t))).
  { unfold st1, mark_as_scheduled. now rewrite get_alter_same. }
  assert (Hn : returns_normally (on_task_completed (get st1 (addr t)))).
  { intros e. destruct Hcb1 as (-> & _). discriminate. }
  assert (Hx1 : work_catchable (get st1 (addr t))).
  { intros e He. apply (di_catchable _ _ _ _ Hinv t Hk e).
    rewrite <- He. symmetry. apply (alter_status_evolves SCHEDULED (addr t) (addr t) st). }
  pose proof (execute_task_three_outcomes st1 s t Hn Hx1) as Hout. fold r in Hout.
  rewrite Hflag1 in Hout.
  assert (Hsettled : settled (status (run_store r) t)).
  { unfold settled.
    destruct Hout as [(_ & _ & H & _)|[(_ & _ & _ & H & _)|(_ & _ & _ & H & _)]];
      rewrite H; auto. }
  assert (Hframe : forall u, addr u <> addr t -> status (run_store r) u = status st u).
  { intros u Hne. unfold r. rewrite execute_task_status_frame by assumption.
    unfold st1. rewrite status_mark_as_scheduled.
    destruct (Nat.eqb_spec (addr u) (addr t)); [contradiction|reflexivity]. }
  assert (Hcase : forall u, In u (keys (task_to_dependencies s)) ->
                    u = t \/ (addr u <> addr t /\ status (run_store r) u = status st u)).
  { intros u Hu. destruct (Nat.eq_dec (addr u) (addr t)) as [Ha|Ha].
    - left. exact (NoDup_map_inj addr _ u t (ow_addr s How) Hu Hk Ha).
    - right. split; [assumption|now apply Hframe]. }
  assert (Hentry : forall u du, In (u, du) (task_to_dependencies s) ->
                     dict_find u (task_to_dependencies s) = Some du).
  { intros u du Hu. exact (dict_find_In_NoDup u du _ (wf_keys s Hwf) Hu). }
  split; [apply execute_task_returns; [exact Hcb1|exact Hx1]|].
  constructor.
  - intros u Hu. destruct (Hcase u Hu) as [->|[_ Hs]]; [now right|].
    rewrite Hs. exact (di_status _ _ _ _ Hinv u Hu).
  - intros u du d Hu Hd Hst.
    assert (Hdk : In d (keys (task_to_dependencies s))) by exact (ow_deps s How u du d Hu Hd).
    destruct (Hcase d Hdk) as [->|[_ Hs]].
    + assert (Hdep : depends_on s u t).
      { exists du. split; [now apply Hentry|]. apply In_ids. now exists t. }
      apply (wf_transpose s Hwf) in Hdep. apply In_ids in Hdep.
      destruct Hdep as (u' & Hu' & Hid).
      assert (u' = u) as ->.
      { apply (NoDup_map_inj task_id (keys (task_to_dependencies s))).
        - exact (wf_keys s Hwf).
        - exact (ow_dependents s How t u' Hu').
        - exact (In_entry_keys _ _ _ Hu).
        - exact Hid. }
      apply (execute_task_cancels_dependents st1 s t u Hcb1 Hst Hu').
    + rewrite Hs in Hst. apply (Hev (addr u)).
      exact (di_flag _ _ _ _ Hinv u du d Hu Hd Hst).
  - intros u du d Hu Hst Hd.
    assert (Hdk : In d (keys (task_to_dependencies s))) by exact (ow_deps s How u du d Hu Hd).
    assert (Hdt : status st d = COMPLETED -> status (run_store r) d = COMPLETED).
    { intros Hc. destruct (Hcase d Hdk) as [->|[_ Hs]]; [congruence|now rewrite Hs]. }
    apply Hdt.
    destruct (Hcase u (In_entry_keys _ _ _ Hu)) as [->|[_ Hs]].
    + assert (du = deps) as ->.
      { pose proof (Hentry t du Hu). pose proof (Hentry t deps Ht). congruence. }
      assert (Hunset : canceled_event (get st (addr t)) = false).
      { destruct Hout as [(_ & _ & H & _)|[(H & _)|(H & _)]]; try assumption.
        rewrite H in Hst. destruct Hst; discriminate. }
      pose proof (proj1 (all_deps_completed_iff st deps) Hall d Hd) as Hsd.
      destruct Hsd as [H|[H|H]]; [assumption| |].
      * pose proof (di_flag _ _ _ _ Hinv t deps d Ht Hd (or_introl H)). congruence.
      * pose proof (di_flag _ _ _ _ Hinv t deps d Ht Hd (or_intror H)). congruence.
    + rewrite Hs in Hst. exact (di_done _ _ _ _ Hinv u du d Hu Hst Hd).
  - intros u Hu. eapply evolves_callbacks; [apply Hev|].
    exact (di_callbacks _ _ _ _ Hinv u Hu).
  - intros u Hu Hst. rewrite work_invocations_app.
    destruct (Hcase u Hu) as [->|[Hne Hs]].
    + rewrite (di_work _ _ _ _ Hinv t Hk (or_introl Hpend)).
      destruct Hout as [(_ & _ & _ & H & _)|[(_ & _ & _ & H & _)|(_ & _ & _ & H & _)]].
      * rewrite H. reflexivity.
      * rewrite H in Hst. destruct Hst; discriminate.
      * rewrite H in Hst. destruct Hst; discriminate.
    + rewrite Hs in Hst. rewrite (di_work _ _ _ _ Hinv u Hu Hst).
      unfold r. now rewrite work_invocations_other.
  - intros u Hu Hst. apply in_or_app.
    destruct (Hcase u Hu) as [->|[_ Hs]]; [right; now left|].
    left. rewrite Hs in Hst. exact (di_yielded _ _ _ _ Hinv u Hu Hst).
  - intros u Hu. apply in_app_or in Hu. destruct Hu as [Hu|[<-|[]]]; [|now split].
    destruct (di_ys _ _ _ _ Hinv u Hu) as [Huk Hus]. split; [assumption|].
    destruct (Hcase u Huk) as [->|[_ Hs]]; [assumption|now rewrite Hs].
  - apply NoDup_app; [exact (di_ys_nodup _ _ _ _ Hinv)|repeat constructor; intros []|].
    intros u Hu [<-|[]]. destruct (di_ys _ _ _ _ Hinv t Hu) as [_ Hs].
    apply settled_not_pending in Hs. contradiction.
  - intros u Hu e He. apply (di_catchable _ _ _ _ Hinv u Hu e).
    rewrite <- He. symmetry. apply (Hev (addr u)).
Qed.

(** In a graph that has a topological order of all its registered
    tasks, with every task Pending or settled, some Pending task is
    ready. *)
Lemma drain_progress (st : store) (s : Scheduler) (ys : list TaskRef)
    (tr : list event) (P : list string) :
  sched_wf s -> objects_wf s ->
  drain_inv (task_to_dependencies s) st ys tr ->
  topological (task_to_dependencies s) P ->
  (forall t, In t (keys (task_to_dependencies s)) -> In (task_id t) P) ->
  has_pending_tasks st (task_to_dependencies s) = true ->
  find_ready st (task_to_dependencies s) <> None.
Proof.
  intros Hwf How Hinv Htopo Hcover Hpending.
  assert (H : forall P1 P2, P = P1 ++ P2 ->
            find_ready st (task_to_dependencies s) <> None
            \/ forall t, In t (keys (task_to_dependencies s)) ->
                 In (task_id t) P1 -> settled (status st t)).
  { induction P1 as [|x P1 IH] using rev_ind; intros P2 Heq.
    - right. intros t _ [].
    - rewrite <- app_assoc in Heq. simpl in Heq.
      destruct (IH (x :: P2) Heq) as [Hready|Hdone]; [now left|].
      destruct (in_dec string_dec x (ids (keys (task_to_dependencies s)))) as [Hx|Hx].
      + apply In_ids in Hx. destruct Hx as (t & Ht & Hid).
        destruct (di_status _ _ _ _ Hinv t Ht) as [Hp|Hs].
        * left. destruct (In_keys_entry t _ Ht) as (deps & Hentry).
          apply (find_ready_complete st _ t deps Hentry Hp).
          apply all_deps_completed_iff. intros d Hd.
          apply Hdone; [exact (ow_deps s How t deps d Hentry Hd)|].
          apply (Htopo P1 x P2 Heq t deps Hid); [|exact Hd].
          exact (dict_find_In_NoDup t deps _ (wf_keys s Hwf) Hentry).
        * right. intros u Hu Hin. apply in_app_or in Hin.
          destruct Hin as [Hin|[Hin|[]]]; [now apply Hdone|].
          assert (u = t) as ->; [|assumption].
          apply (NoDup_map_inj task_id (keys (task_to_dependencies s)));
            [exact (wf_keys s Hwf)|assumption|assumption|congruence].
      + right. intros u Hu Hin. apply in_app_or in Hin.
        destruct Hin as [Hin|[Hin|[]]]; [now apply Hdone|].
        exfalso. apply Hx. rewrite Hin. apply In_ids. now exists u. }
  destruct (H P [] (eq_sym (app_nil_r P))) as [Hready|Hdone]; [assumption|].
  exfalso.
  assert (Hnone : has_pending_tasks st (task_to_dependencies s) = false).
  { apply has_pending_tasks_false. intros t Ht.
    apply settled_not_pending, Hdone; [assumption|now apply Hcover]. }
  congruence.
Qed.

Lemma drain_inv_bound (t2d : dict taskset) (st : store) (ys : list TaskRef)
    (tr : list event) :
  drain_inv t2d st ys tr -> List.length ys <= List.length t2d.
Proof.
  intros Hinv.
  assert (Hincl : incl ys (keys t2d)).
  { intros t Ht. exact (proj1 (di_ys _ _ _ _ Hinv t Ht)). }
  pose proof (NoDup_incl_length (di_ys_nodup _ _ _ _ Hinv) Hincl) as Hle.
  unfold keys in Hle. now rewrite length_map in Hle.
Qed.

(** A drain resumed from a suspended generator ends with the end of
    the sequence, every registered task settled. *)
Lemma drain_runs (P : list string) :
  forall (fuel : nat) (st : store) (s : Scheduler) (ys : list TaskRef) (tr : list event),
    sched_wf s -> objects_wf s ->
    drain_inv (task_to_dependencies s) st ys tr ->
    topological (task_to_dependencies s) P ->
    (forall t, In t (keys (task_to_dependencies s)) -> In (task_id t) P) ->
    List.length (task_to_dependencies s) < fuel + List.length ys ->
    d_signal (drain fuel st s GEN_SUSPENDED ys tr) = StopIteration
    /\ drain_inv (task_to_dependencies s)
         (d_store (drain fuel st s GEN_SUSPENDED ys tr))
         (d_yielded (drain fuel st s GEN_SUSPENDED ys tr))
         (d_trace (drain fuel st s GEN_SUSPENDED ys tr))
    /\ forall t, In t (keys (task_to_dependencies s)) ->
         status (d_store (drain fuel st s GEN_SUSPENDED ys tr)) t <> PENDING.
Proof.
  induction fuel as [|fuel IH]; intros st s ys tr Hwf How Hinv Htopo Hcover Hfuel.
  - exfalso. apply drain_inv_bound in Hinv. simpl in Hfuel. lia.
  - simpl. unfold ready_tasks_pass.
    destruct (has_pending_tasks st (task_to_dependencies s)) eqn:Hp; simpl.
    + pose proof (drain_progress st s ys tr P Hwf How Hinv Htopo Hcover Hp) as Hready.
      destruct (find_ready st (task_to_dependencies s)) as [t|] eqn:Hfind;
        [|contradiction].
      destruct (drain_step st s ys tr t Hwf How Hinv Hfind) as [Hret Hinv'].
      rewrite Hret.
      destruct (execute_task_sched (mark_as_scheduled st t) s t) as [HT HE].
      set (r := execute_task (mark_as_scheduled st t) s t) in *.
      rewrite <- HT in Hinv', Htopo, Hcover, Hfuel.
      destruct (IH (run_store r) (run_sched r) (ys ++ [t]) (tr ++ run_trace r))
        as (H1 & H2 & H3).
      * exact (execute_task_wf _ s t Hwf).
      * apply (objects_wf_ext s); [exact HT|exact HE|exact How].
      * exact Hinv'.
      * exact Htopo.
      * exact Hcover.
      * rewrite last_length. lia.
      * rewrite HT in H2, H3. split; [exact H1|split; [exact H2|exact H3]].
    + split; [reflexivity|split; [exact Hinv|]].
      now apply has_pending_tasks_false.
Qed.


Lemma drain_created (fuel : nat) (st : store) (s s1 : Scheduler)
    (ys : list TaskRef) (tr : list event) :
  Scheduler__has_cycles s = (s1, Done false) ->
  drain (S fuel) st s GEN_CREATED ys tr = drain (S fuel) st s1 GEN_SUSPENDED ys tr.
Proof.
  intros Hc. simpl. rewrite Hc.
  destruct (ready_tasks_pass st s1) as [[st' g'] sig]. reflexivity.
Qed.


Lemma Examples_AB_wf : sched_wf (run_sched Examples.scheduled_AB).
Proof. repeat apply schedule_wf. apply sched_wf_init. Qed.

Lemma Examples_AB_objects : objects_wf (run_sched Examples.scheduled_AB).
Proof.
  assert (HT : task_to_dependencies (run_sched Examples.scheduled_AB)
               = [(Examples.A, []); (Examples.B, [Examples.A])])
    by (vm_compute; reflexivity).
  assert (HE : task_to_dependents (run_sched Examples.scheduled_AB)
               = [(Examples.A, [Examples.B])])
    by (vm_compute; reflexivity).
  constructor; rewrite HT.
  - simpl. constructor; [intros [H|[]]; discriminate|].
    constructor; [intros []|constructor].
  - intros t deps d [H|[H|[]]] Hd; injection H as <- <-.
    + destruct Hd.
    + destruct Hd as [<-|[]]. left. reflexivity.
  - intros p u Hu. unfold dependents_of in Hu. rewrite HE in Hu. simpl in Hu.
    destruct (Task_eqb p Examples.A); [|destruct Hu].
    destruct Hu as [<-|[]]. right; left. reflexivity.
Qed.


(* ================================================================= *)
(** * Registration *)
(* ================================================================= *)

Lemma schedule_store (st : store) (s : Scheduler) (task : TaskRef) (a : nat) :
  dependencies (get (run_store (schedule st s task)) a) = dependencies (get st a)
  /\ task_status (get (run_store (schedule st s task)) a) = task_status (get st a)
  /\ canceled_event (get (run_store (schedule st s task)) a) = canceled_event (get st a)
  /\ task_result (get (run_store (schedule st s task)) a) = task_result (get st a)
  /\ execute (get (run_store (schedule st s task)) a) = execute (get st a)
  /\ (a <> addr task -> get (run_store (schedule st s task)) a = get st a).
Proof.
  unfold schedule. destruct (dict_contains task (task_to_dependencies s)); simpl.
  - repeat split.
  - unfold register_on_task_canceled, register_on_task_failed,
      register_on_task_completed. rewrite !get_alter.
    destruct (Nat.eqb_spec a (addr task)); repeat split; try reflexivity.
    intros Hne. contradiction.
Qed.

(** X1.  Scheduling a task whose identifier is not registered returns
    normally; the task goes to the end of the iteration order with its
    own dependency set recorded and every earlier entry kept; it is
    added to the dependents of each of its dependencies and of nobody
    else; its three callback slots hold the Scheduler's handlers; and no
    task changes status, flag, result, dependencies or work function. *)
Theorem schedule_registers (st : store) (s : Scheduler) (task : TaskRef) :
  ~ registered s task ->
  run_raised (schedule st s task) = None
  /\ task_to_dependencies (run_sched (schedule st s task))
     = task_to_dependencies s
       ++ [(task, set_of (dependencies (get st (addr task))))]
  /\ (forall p,
        dependents_of (task_to_dependents (run_sched (schedule st s task))) p
        = if set_contains p (dependencies (get st (addr task)))
          then set_add task (dependents_of (task_to_dependents s) p)
          else dependents_of (task_to_dependents s) p)
  /\ scheduler_callbacks (get (run_store (schedule st s task)) (addr task))
  /\ (forall a,
        dependencies (get (run_store (schedule st s task)) a) = dependencies (get st a)
        /\ task_status (get (run_store (schedule st s task)) a) = task_status (get st a)
        /\ canceled_event (get (run_store (schedule st s task)) a)
           = canceled_event (get st a)
        /\ task_result (get (run_store (schedule st s task)) a) = task_result (get st a)
        /\ execute (get (run_store (schedule st s task)) a) = execute (get st a)
        /\ (a <> addr task -> get (run_store (schedule st s task)) a = get st a)).
Proof.
  intros Hn.
  assert (Hc : dict_contains task (task_to_dependencies s) = false).
  { destruct (dict_contains task (task_to_dependencies s)) eqn:E; [|reflexivity].
    apply dict_contains_registered in E. contradiction. }
  assert (Hfresh : dict_find task (task_to_dependencies s) = None).
  { unfold dict_contains in Hc.
    destruct (dict_find task (task_to_dependencies s)); [discriminate|reflexivity]. }
  split; [|split; [|split; [|split]]].
  - unfold schedule. rewrite Hc. reflexivity.
  - unfold schedule. rewrite Hc. simpl.
    rewrite (dict_set_fresh _ _ _ Hfresh).
    unfold register_on_task_canceled, register_on_task_failed,
      register_on_task_completed. rewrite !get_alter_same. reflexivity.
  - intros p. unfold schedule. rewrite Hc. simpl. rewrite schedule_dependents.
    unfold register_on_task_canceled, register_on_task_failed,
      register_on_task_completed. rewrite !get_alter_same. reflexivity.
  - unfold schedule. rewrite Hc. simpl.
    unfold register_on_task_canceled, register_on_task_failed,
      register_on_task_completed. rewrite !get_alter_same. repeat split.
  - intros a. apply schedule_store.
Qed.

(** Q is scheduled after X and P: it goes last and becomes a dependent
    of P. *)
Lemma schedule_registers_witness :
  run_raised Examples.scheduled_XPQ = None
  /\ keys (task_to_dependencies (run_sched Examples.scheduled_XPQ))
     = [Examples.X; Examples.P; Examples.Q]
  /\ dependents_of (task_to_dependents (run_sched Examples.scheduled_XPQ)) Examples.P
     = [Examples.Q].
Proof.
  assert (Hn : ~ registered (run_sched Examples.scheduled_XP) Examples.Q).
  { unfold registered. vm_compute. intros [H|[H|[]]]; discriminate. }
  destruct (schedule_registers (run_store Examples.scheduled_XP)
              (run_sched Examples.scheduled_XP) Examples.Q Hn)
    as (H1 & H2 & H3 & _).
  split; [exact H1|]. split.
  - unfold Examples.scheduled_XPQ. rewrite H2. vm_compute. reflexivity.
  - unfold Examples.scheduled_XPQ. rewrite H3. vm_compute. reflexivity.
Defined.

Lemma schedule_keeps_callbacks (st : store) (s : Scheduler) (task : TaskRef) (a : nat) :
  scheduler_callbacks (get st a) ->
  scheduler_callbacks (get (run_store (schedule st s task)) a).
Proof.
  intros H. unfold schedule.
  destruct (dict_contains task (task_to_dependencies s)); simpl; [exact H|].
  unfold register_on_task_canceled, register_on_task_failed,
    register_on_task_completed. rewrite !get_alter.
  destruct (Nat.eqb a (addr task)); [repeat split|exact H].
Qed.

Lemma schedule_each_spec (tasks : list TaskRef) :
  forall (st : store) (s : Scheduler),
    (run_raised (schedule_each st s tasks) = None
     <-> NoDup (ids tasks) /\ forall t, In t tasks -> ~ registered s t)
    /\ (run_raised (schedule_each st s tasks) = None ->
        keys (task_to_dependencies (run_sched (schedule_each st s tasks)))
        = keys (task_to_dependencies s) ++ tasks
        /\ (sched_wf s -> sched_wf (run_sched (schedule_each st s tasks)))
        /\ (forall t, In t tasks ->
              scheduler_callbacks (get (run_store (schedule_each st s tasks)) (addr t)))
        /\ (forall a, scheduler_callbacks (get st a) ->
              scheduler_callbacks (get (run_store (schedule_each st s tasks)) a)))
    /\ (forall e, run_raised (schedule_each st s tasks) = Some e ->
        exists msg, e = SchedulingException msg).
Proof.
  induction tasks as [|task rest IH]; intros st s.
  - simpl. split; [|split].
    + split; [intros _; split; [constructor|intros ? []]|reflexivity].
    + intros _. rewrite app_nil_r.
      split; [reflexivity|split; [auto|split; [intros ? []|auto]]].
    + discriminate.
  - simpl.
    assert (Hraised : run_raised (schedule st s task)
                      = if dict_contains task (task_to_dependencies s)
                        then Some (SchedulingException
                                     "Task already exists in the scheduler.")
                        else None).
    { unfold schedule.
      destruct (dict_contains task (task_to_dependencies s)); reflexivity. }
    destruct (dict_contains task (task_to_dependencies s)) eqn:Ec.
    + assert (Hreg : registered s task) by now apply dict_contains_registered.
      rewrite Hraised. split; [|split].
      * rewrite Hraised. split; [discriminate|]. intros [_ H]. exfalso.
        apply (H task); [now left|exact Hreg].
      * rewrite Hraised. discriminate.
      * rewrite Hraised. intros e' [= <-]. eexists. reflexivity.
    + assert (Hn : ~ registered s task).
      { intros H. apply dict_contains_registered in H. congruence. }
      rewrite Hraised.
      destruct (schedule_registers st s task Hn) as (_ & HT & _ & Hcb & _).
      destruct (IH (run_store (schedule st s task)) (run_sched (schedule st s task)))
        as (Hiff & Hrest & Hexn).
      assert (Hregd : forall t,
                 registered (run_sched (schedule st s task)) t
                 <-> registered s t \/ task_id t = task_id task).
      { intros t. unfold registered. rewrite HT. unfold ids, keys.
        rewrite !map_app, in_app_iff. simpl. intuition congruence. }
      split; [|split].
      * rewrite Hiff. split.
        -- intros [Hnd Hnr]. split.
           ++ simpl. constructor; [|exact Hnd].
              intros Hin. apply In_ids in Hin. destruct Hin as (t & Ht & Hid).
              apply (Hnr t Ht). apply Hregd. now right.
           ++ intros t [<-|Ht]; [exact Hn|].
              intros Hr. apply (Hnr t Ht). apply Hregd. now left.
        -- intros [Hnd Hnr]. simpl in Hnd. inversion Hnd as [|? ? Hx Hnd']; subst.
           split; [exact Hnd'|]. intros t Ht Hr. apply Hregd in Hr.
           destruct Hr as [Hr|Hr].
           ++ apply (Hnr t); [now right|exact Hr].
           ++ apply Hx. rewrite <- Hr. apply In_ids. now exists t.
      * intros Hnone. destruct (Hrest Hnone) as (Hk & Hwf & Hcbs & Hkeep).
        split; [|split; [|split]].
        -- rewrite Hk, HT. unfold keys. rewrite map_app. simpl.
           rewrite <- app_assoc. reflexivity.
        -- intros Hs. apply Hwf. now apply schedule_wf.
        -- intros t [<-|Ht]; [apply Hkeep; exact Hcb|now apply Hcbs].
        -- intros a Ha. apply Hkeep. now apply schedule_keeps_callbacks.
      * exact Hexn.
Qed.

(** X2.  [Scheduler(tasks)] raises, and then the duplicate-registration
    error, exactly when two of the tasks share an identifier, which a
    [set] of tasks never does.  Otherwise the tasks are registered in
    the order they were iterated in, the two mappings satisfy the
    scheduler's invariant, and every task carries the Scheduler's
    handlers.  [Scheduler()] and [Scheduler(set())] register nothing. *)
Theorem Scheduler_new_registers (st : store) (tasks : list TaskRef) :
  (run_raised (Scheduler_new st (Some tasks)) = None <-> NoDup (ids tasks))
  /\ (forall e, run_raised (Scheduler_new st (Some tasks)) = Some e ->
      exists msg, e = SchedulingException msg)
  /\ (NoDup (ids tasks) ->
      keys (task_to_dependencies (run_sched (Scheduler_new st (Some tasks)))) = tasks
      /\ sched_wf (run_sched (Scheduler_new st (Some tasks)))
      /\ forall t, In t tasks ->
           scheduler_callbacks (get (run_store (Scheduler_new st (Some tasks))) (addr t)))
  /\ run_sched (Scheduler_new st None) = Scheduler_init
  /\ run_sched (Scheduler_new st (Some [])) = Scheduler_init.
Proof.
  unfold Scheduler_new.
  destruct (schedule_each_spec tasks st Scheduler_init) as (Hiff & Hrest & Hexn).
  assert (Hnone : forall t, In t tasks -> ~ registered Scheduler_init t)
    by (intros t _ []).
  split; [|split; [exact Hexn|split; [|split; reflexivity]]].
  - rewrite Hiff. split; [now intros [H _]|intros H; now split].
  - intros Hnd.
    destruct (Hrest (proj2 Hiff (conj Hnd Hnone))) as (Hk & Hwf & Hcb & _).
    split; [exact Hk|]. split; [exact (Hwf sched_wf_init)|exact Hcb].
Qed.

(** X, P and Q handed to the constructor at once. *)
Lemma Scheduler_new_registers_witness :
  keys (task_to_dependencies
          (run_sched (Scheduler_new Examples.objects_XPQ
                        (Some [Examples.X; Examples.P; Examples.Q]))))
  = [Examples.X; Examples.P; Examples.Q]
  /\ sched_wf (run_sched (Scheduler_new Examples.objects_XPQ
                            (Some [Examples.X; Examples.P; Examples.Q]))).
Proof.
  assert (Hnd : NoDup (ids [Examples.X; Examples.P; Examples.Q])).
  { simpl. repeat constructor; simpl; intuition discriminate. }
  destruct (Scheduler_new_registers Examples.objects_XPQ
              [Examples.X; Examples.P; Examples.Q]) as (_ & _ & H & _).
  destruct (H Hnd) as (Hk & Hwf & _). split; assumption.
Defined.

(** X3.  In every state the code can be brought to, no identifier is
    registered twice, and [task_to_dependents] is the transpose of
    [task_to_dependencies]: a task is among the dependents recorded for
    [p] exactly when it is registered with [p] among its recorded
    dependencies, whether or not [p] itself is registered. *)
Theorem dependents_is_transpose (st : store) (s : Scheduler) (p t : TaskRef) :
  reachable st s ->
  NoDup (ids (keys (task_to_dependencies s)))
  /\ NoDup (ids (dependents_of (task_to_dependents s) p))
  /\ (In (task_id t) (ids (dependents_of (task_to_dependents s) p))
      <-> exists deps, dict_find t (task_to_dependencies s) = Some deps
                       /\ In (task_id p) (ids deps))
  /\ (In (task_id t) (ids (dependents_of (task_to_dependents s) p)) -> registered s t).
Proof.
  intros Hr. pose proof (reachable_wf st s Hr) as Hwf.
  split; [exact (wf_keys s Hwf)|]. split; [exact (wf_dependents s Hwf p)|].
  split; [exact (wf_transpose s Hwf p t)|].
  intros Hin. apply (wf_transpose s Hwf) in Hin.
  exact (depends_on_registered s t p Hin).
Qed.

Lemma Examples_XPQ_reachable :
  reachable (run_store Examples.scheduled_XPQ) (run_sched Examples.scheduled_XPQ).
Proof. repeat apply reach_schedule. apply reach_init. Qed.

(** Q is the one dependent recorded for P. *)
Lemma dependents_is_transpose_witness :
  In (task_id Examples.Q)
     (ids (dependents_of (task_to_dependents (run_sched Examples.scheduled_XPQ))
             Examples.P))
  <-> exists deps,
      dict_find Examples.Q (task_to_dependencies (run_sched Examples.scheduled_XPQ))
      = Some deps
      /\ In (task_id Examples.P) (ids deps).
Proof.
  exact (proj1 (proj2 (proj2 (dependents_is_transpose _ _ Examples.P Examples.Q
                                Examples_XPQ_reachable)))).
Defined.

(* ================================================================= *)
(** * The cycle check answers exactly *)
(* ================================================================= *)

Lemma ready_queue_of_complete (t2d : dict taskset) (k : TaskRef) :
  In (k, []) t2d -> In k (ready_queue_of (out_degree_of t2d)).
Proof.
  unfold ready_queue_of, out_degree_of.
  induction t2d as [|[k0 v0] d IH]; simpl; [intros []|].
  intros [[= -> ->]|Hin].
  - simpl. now left.
  - destruct (Z.of_nat (List.length v0) =? 0)%Z; simpl; [right|]; now apply IH.
Qed.

Lemma kahn_full_init (s : Scheduler) :
  kahn_full s [] (ready_queue_of (out_degree_of (task_to_dependencies s))).
Proof.
  intros t deps Hf Hz. rewrite remaining_nil in Hz.
  destruct deps; [|discriminate]. simpl.
  destruct (dict_find_Some_In _ _ _ Hf) as (k & Hk & Hid).
  rewrite <- Hid. apply In_ids. exists k. split; [|reflexivity].
  now apply ready_queue_of_complete.
Qed.

Lemma kahn_full_step (s : Scheduler) (P : list string) (p : TaskRef)
    (Q Q' : list TaskRef) (D D' : dict Z) :
  sched_wf s ->
  kahn_inv s P (p :: Q) D ->
  kahn_full s P (p :: Q) ->
  visit_dependents (dependents_of (task_to_dependents s) p) D Q = Some (D', Q') ->
  kahn_full s (P ++ [task_id p]) Q'.
Proof.
  intros Hwf Hinv Hfull Hv.
  set (L := dependents_of (task_to_dependents s) p) in *.
  assert (Hp : ~ In (task_id p) P).
  { pose proof (ki_nodup _ _ _ _ Hinv) as Hnd. simpl in Hnd.
    apply NoDup_remove_2 in Hnd. intros H. apply Hnd. apply in_or_app. now left. }
  assert (Hdeg : forall t deps, dict_find t (task_to_dependencies s) = Some deps ->
                   dict_find t D = Some (Z.of_nat (remaining P deps))).
  { intros t deps Hf. rewrite (ki_deg _ _ _ _ Hinv), Hf. reflexivity. }
  destruct (visit_dependents_spec L D Q (wf_dependents s Hwf p)) as (D1 & Hv1 & _).
  { intros t Ht.
    assert (Hd : depends_on s t p).
    { apply (wf_transpose s Hwf). apply In_ids. now exists t. }
    destruct Hd as (deps & Hf & _). rewrite (Hdeg t deps Hf). discriminate. }
  rewrite Hv1 in Hv. injection Hv as _ <-.
  intros t deps Hf Hz.
  destruct (Nat.eq_dec (remaining P deps) 0) as [Hz0|Hnz].
  - pose proof (Hfull t deps Hf Hz0) as Hin.
    unfold ids in *. rewrite map_app. simpl in Hin.
    rewrite !in_app_iff in *. simpl in *. tauto.
  - assert (Hpd : In (task_id p) (ids deps)).
    { destruct (in_dec string_dec (task_id p) (ids deps)) as [H|H]; [exact H|].
      rewrite (remaining_snoc_notin P (task_id p) deps H) in Hz. contradiction. }
    assert (Hnd : NoDup (ids deps)).
    { destruct (dict_find_Some_In _ _ _ Hf) as (k & Hk & _).
      exact (wf_deps s Hwf k deps Hk). }
    pose proof (remaining_snoc_in P (task_id p) deps Hnd Hpd Hp) as Hone.
    rewrite Hz in Hone.
    assert (HtL : In (task_id t) (ids L)).
    { apply (wf_transpose s Hwf). exists deps. now split. }
    apply In_ids in HtL. destruct HtL as (t' & Ht' & Hid).
    apply in_or_app. right. apply In_ids. exists t'. split; [|exact Hid].
    apply in_or_app. right. apply filter_In. split; [exact Ht'|].
    unfold hits_zero. rewrite (dict_find_cong t' t D Hid), (Hdeg t deps Hf), Hone.
    reflexivity.
Qed.

Lemma kahn_loop_full (s : Scheduler) :
  sched_wf s ->
  forall (fuel : nat) (E : dict taskset) (P : list string) (Q : list TaskRef) (D : dict Z),
    (forall k, dependents_of E k = dependents_of (task_to_dependents s) k) ->
    kahn_inv s P Q D ->
    kahn_full s P Q ->
    List.length (task_to_dependencies s) <= fuel + List.length P ->
    exists E' P',
      kahn_loop fuel E D Q (List.length P) = (E', Done (List.length P'))
      /\ NoDup P'
      /\ (forall x, In x P' -> In x (ids (keys (task_to_dependencies s))))
      /\ kahn_full s P' [].
Proof.
  intros Hwf fuel. induction fuel as [|fuel IH]; intros E P Q D HE Hinv Hfull Hfuel.
  - destruct Q as [|p Q].
    + exists E, P. simpl. split; [reflexivity|].
      pose proof (ki_nodup _ _ _ _ Hinv) as Hnd. simpl in Hnd. rewrite app_nil_r in Hnd.
      split; [assumption|]. split; [|exact Hfull].
      intros x Hx. apply (ki_reg _ _ _ _ Hinv). apply in_or_app. now left.
    + exfalso. apply kahn_inv_length in Hinv. simpl in Hinv, Hfuel. lia.
  - destruct Q as [|p Q].
    + exists E, P. simpl. split; [reflexivity|].
      pose proof (ki_nodup _ _ _ _ Hinv) as Hnd. simpl in Hnd. rewrite app_nil_r in Hnd.
      split; [assumption|]. split; [|exact Hfull].
      intros x Hx. apply (ki_reg _ _ _ _ Hinv). apply in_or_app. now left.
    + simpl.
      pose proof (defaultdict_getitem_fst p E) as Hfst.
      pose proof (fun k => defaultdict_getitem_snd p k E) as Hsnd.
      destruct (defaultdict_getitem p E) as [L E1]. simpl in Hfst, Hsnd.
      rewrite Hfst, HE.
      destruct (kahn_inv_step s P p Q D Hwf Hinv) as (D' & Q' & Hv & Hinv').
      pose proof (kahn_full_step s P p Q Q' D D' Hwf Hinv Hfull Hv) as Hfull'.
      rewrite Hv.
      destruct (IH E1 (P ++ [task_id p]) Q' D') as (E' & P' & Hrun & Hrest).
      * intros k. now rewrite Hsnd, HE.
      * exact Hinv'.
      * exact Hfull'.
      * rewrite last_length. lia.
      * rewrite last_length in Hrun. exists E', P'. split; assumption.
Qed.

(** What the check has popped when it ends: every task all of whose
    dependencies were popped. *)
Lemma has_cycles_full (s : Scheduler) :
  sched_wf s ->
  exists s' P,
    Scheduler__has_cycles s
    = (s', Done (List.length P <? List.length (task_to_dependencies s)))
    /\ NoDup P
    /\ (forall x, In x P -> In x (ids (keys (task_to_dependencies s))))
    /\ kahn_full s P [].
Proof.
  intros Hwf.
  destruct (kahn_loop_full s Hwf (S (List.length (task_to_dependencies s)))
              (task_to_dependents s) []
              (ready_queue_of (out_degree_of (task_to_dependencies s)))
              (out_degree_of (task_to_dependencies s)))
    as (E' & P & Hrun & Hnd & Hreg & Hfull).
  - reflexivity.
  - now apply kahn_inv_init.
  - apply kahn_full_init.
  - simpl. lia.
  - assert (Hle : List.length P <= List.length (task_to_dependencies s)).
    { pose proof (NoDup_incl_length Hnd Hreg) as Hle.
      unfold ids, keys in Hle. now rewrite !length_map in Hle. }
    exists {| task_to_dependencies := task_to_dependencies s;
              task_to_dependents := E' |}, P.
    split; [|split; [exact Hnd|split; [exact Hreg|exact Hfull]]].
    unfold Scheduler__has_cycles, processed.
    change (List.length (@nil string)) with 0 in Hrun. rewrite Hrun.
    f_equal. f_equal.
    destruct (Nat.eqb_spec (List.length P) (List.length (task_to_dependencies s)));
      destruct (Nat.ltb_spec (List.length P) (List.length (task_to_dependencies s)));
      simpl; try reflexivity; lia.
Qed.

(** The loop ends having popped a duplicate-free topological order of
    registered tasks that misses no task whose dependencies were all
    popped. *)
Lemma kahn_loop_popped (s : Scheduler) :
  sched_wf s ->
  forall (fuel : nat) (E : dict taskset) (P : list string) (Q : list TaskRef) (D : dict Z),
    (forall k, dependents_of E k = dependents_of (task_to_dependents s) k) ->
    kahn_inv s P Q D ->
    kahn_full s P Q ->
    List.length (task_to_dependencies s) <= fuel + List.length P ->
    exists E' P',
      kahn_loop fuel E D Q (List.length P) = (E', Done (List.length P'))
      /\ (forall k, dependents_of E' k = dependents_of (task_to_dependents s) k)
      /\ NoDup P'
      /\ (forall x, In x P' -> In x (ids (keys (task_to_dependencies s))))
      /\ topological (task_to_dependencies s) P'
      /\ kahn_full s P' [].
Proof.
  intros Hwf fuel. induction fuel as [|fuel IH]; intros E P Q D HE Hinv Hfull Hfuel.
  - destruct Q as [|p Q].
    + exists E, P. simpl. split; [reflexivity|]. split; [assumption|].
      pose proof (ki_nodup _ _ _ _ Hinv) as Hnd. simpl in Hnd. rewrite app_nil_r in Hnd.
      split; [assumption|].
      split; [|split; [exact (ki_topo _ _ _ _ Hinv)|exact Hfull]].
      intros x Hx. apply (ki_reg _ _ _ _ Hinv). apply in_or_app. now left.
    + exfalso. apply kahn_inv_length in Hinv. simpl in Hinv, Hfuel. lia.
  - destruct Q as [|p Q].
    + exists E, P. simpl. split; [reflexivity|]. split; [assumption|].
      pose proof (ki_nodup _ _ _ _ Hinv) as Hnd. simpl in Hnd. rewrite app_nil_r in Hnd.
      split; [assumption|].
      split; [|split; [exact (ki_topo _ _ _ _ Hinv)|exact Hfull]].
      intros x Hx. apply (ki_reg _ _ _ _ Hinv). apply in_or_app. now left.
    + simpl.
      pose proof (defaultdict_getitem_fst p E) as Hfst.
      pose proof (fun k => defaultdict_getitem_snd p k E) as Hsnd.
      destruct (defaultdict_getitem p E) as [L E1]. simpl in Hfst, Hsnd.
      rewrite Hfst, HE.
      destruct (kahn_inv_step s P p Q D Hwf Hinv) as (D' & Q' & Hv & Hinv').
      pose proof (kahn_full_step s P p Q Q' D D' Hwf Hinv Hfull Hv) as Hfull'.
      rewrite Hv.
      destruct (IH E1 (P ++ [task_id p]) Q' D') as (E' & P' & Hrun & Hrest).
      * intros k. now rewrite Hsnd, HE.
      * exact Hinv'.
      * exact Hfull'.
      * rewrite last_length. lia.
      * rewrite last_length in Hrun. exists E', P'. split; assumption.
Qed.

(** C3.  On the scheduler's mappings the cycle check is Kahn's
    algorithm.  It ends, and the tasks it has popped form a list [P]
    that is a duplicate-free topological order of registered tasks and
    misses nobody: a registered task is popped as soon as all its
    recorded dependencies are, the tasks without dependencies first.
    So [P] holds exactly the tasks that Kahn's algorithm removes, their
    number is at most the number of registered tasks, and the check
    answers yes exactly when fewer tasks were popped than are
    registered.  It leaves [task_to_dependencies] as it was and the
    dependents of every task reading as before.  When the graph has a
    cycle among registered tasks, fewer are popped, and the first
    advance of a [ready_tasks] generator raises the scheduling error and
    closes the generator, so nothing is yielded. *)
Theorem has_cycles_is_kahn (st : store) (s : Scheduler) :
  sched_wf s ->
  exists s' P,
    processed (S (List.length (task_to_dependencies s))) s
    = (task_to_dependents s', Done (List.length P))
    /\ NoDup P
    /\ (forall x, In x P -> In x (ids (keys (task_to_dependencies s))))
    /\ topological (task_to_dependencies s) P
    /\ (forall t deps,
          dict_find t (task_to_dependencies s) = Some deps ->
          (forall d, In d deps -> In (task_id d) P) ->
          In (task_id t) P)
    /\ List.length P <= List.length (task_to_dependencies s)
    /\ Scheduler__has_cycles s
       = (s', Done (List.length P <? List.length (task_to_dependencies s)))
    /\ task_to_dependencies s' = task_to_dependencies s
    /\ (forall k, dependents_of (task_to_dependents s') k
                  = dependents_of (task_to_dependents s) k)
    /\ (cyclic s ->
        List.length P < List.length (task_to_dependencies s)
        /\ next st s GEN_CREATED = (st, s', GEN_CLOSED, Raise circular_dependencies)).
Proof.
  intros Hwf.
  destruct (kahn_loop_popped s Hwf (S (List.length (task_to_dependencies s)))
              (task_to_dependents s) []
              (ready_queue_of (out_degree_of (task_to_dependencies s)))
              (out_degree_of (task_to_dependencies s)))
    as (E' & P & Hrun & HE & Hnd & Hreg & Htopo & Hfull).
  { reflexivity. }
  { now apply kahn_inv_init. }
  { apply kahn_full_init. }
  { simpl. lia. }
  change (List.length (@nil string)) with 0 in Hrun.
  assert (Hle : List.length P <= List.length (task_to_dependencies s)).
  { pose proof (NoDup_incl_length Hnd Hreg) as Hle.
    unfold ids, keys in Hle. now rewrite !length_map in Hle. }
  assert (Hc : Scheduler__has_cycles s
               = ({| task_to_dependencies := task_to_dependencies s;
                     task_to_dependents := E' |},
                  Done (List.length P <? List.length (task_to_dependencies s)))).
  { unfold Scheduler__has_cycles, processed. rewrite Hrun. f_equal. f_equal.
    destruct (Nat.eqb_spec (List.length P) (List.length (task_to_dependencies s)));
      destruct (Nat.ltb_spec (List.length P) (List.length (task_to_dependencies s)));
      simpl; try reflexivity; lia. }
  exists {| task_to_dependencies := task_to_dependencies s; task_to_dependents := E' |}, P.
  split; [exact Hrun|]. split; [exact Hnd|]. split; [exact Hreg|].
  split; [exact Htopo|]. split.
  { intros t deps Hf Hall.
    pose proof (Hfull t deps Hf (proj2 (remaining_zero P deps) Hall)) as Hin.
    simpl in Hin. now rewrite app_nil_r in Hin. }
  split; [exact Hle|]. split; [exact Hc|]. split; [reflexivity|]. split; [exact HE|].
  intros Hcyc.
  destruct (cyclic_has_cycles s Hwf Hcyc) as (s1 & Hc1 & _).
  rewrite Hc in Hc1. injection Hc1 as _ Hlt. split.
  - now apply Nat.ltb_lt.
  - apply next_created_raises. rewrite Hc, Hlt. reflexivity.
Qed.

(** With the cycle p -> q -> p registered, the first advance raises. *)
Lemma has_cycles_is_kahn_witness :
  exists s',
    next (run_store Examples.scheduled_XPQ) (run_sched Examples.scheduled_XPQ) GEN_CREATED
    = (run_store Examples.scheduled_XPQ, s', GEN_CLOSED, Raise circular_dependencies).
Proof.
  destruct (has_cycles_is_kahn (run_store Examples.scheduled_XPQ)
              (run_sched Examples.scheduled_XPQ) Examples_XPQ_wf)
    as (s' & P & _ & _ & _ & _ & _ & _ & _ & _ & _ & Hcyc).
  exists s'. apply Hcyc. exact Examples_XPQ_cyclic.
Defined.

Lemma walk_head (s : Scheduler) (u : TaskRef) (w : list TaskRef) :
  walk s (u :: w) -> registered s u.
Proof. intros H. inversion H; assumption. Qed.

Lemma walk_registered (s : Scheduler) (w : list TaskRef) :
  walk s w -> forall t, In t w -> registered s t.
Proof.
  intros H. induction H as [u Hu|u v w Hu Hd Hw IH]; intros t Ht.
  - destruct Ht as [<-|[]]. exact Hu.
  - destruct Ht as [<-|Ht]; [exact Hu|now apply IH].
Qed.

Lemma walk_suffix (s : Scheduler) (a b : list TaskRef) :
  walk s (a ++ b) -> b <> [] -> walk s b.
Proof.
  induction a as [|x a IH]; simpl; intros H Hb; [exact H|].
  apply IH; [|exact Hb].
  remember (x :: a ++ b) as l eqn:El. destruct H as [u Hu|u v w Hu Hd Hw].
  - injection El as _ El. destruct a; simpl in El; [subst b; contradiction|discriminate].
  - injection El as _ El. rewrite <- El. exact Hw.
Qed.

Lemma walk_chain (s : Scheduler) (m : list TaskRef) :
  forall x y c, walk s (x :: m ++ y :: c) -> chain s x y.
Proof.
  induction m as [|z m IH]; intros x y c H; simpl in H;
    inversion H as [|u v w Hu Hd Hw]; subst.
  - apply chain_edge; [exact Hd|exact (walk_head s y c Hw)].
  - eapply chain_step; [exact Hd|exact (walk_head s z _ Hw)|].
    exact (IH z y c Hw).
Qed.

Lemma chain_cong_r (s : Scheduler) (a b b' : TaskRef) :
  chain s a b -> task_id b = task_id b' -> chain s a b'.
Proof.
  intros H Hid. induction H as [a b Hd Hr|a b c Hd Hr Hch IH].
  - apply chain_edge.
    + exact (depends_on_cong s a a b b' eq_refl Hid Hd).
    + unfold registered in *. now rewrite <- Hid.
  - eapply chain_step; [exact Hd|exact Hr|now apply IH].
Qed.

(** More tasks than identifiers: two carry the same one. *)
Lemma repeated_identifier (w : list TaskRef) :
  forall l : list string,
    (forall t, In t w -> In (task_id t) l) ->
    List.length l < List.length w ->
    exists a x b y c, w = a ++ x :: b ++ y :: c /\ task_id x = task_id y.
Proof.
  induction w as [|t w IH]; intros l Hin Hlen; [simpl in Hlen; lia|].
  destruct (in_dec string_dec (task_id t) (ids w)) as [Hrep|Hnew].
  - apply In_ids in Hrep. destruct Hrep as (y & Hy & Hid).
    apply in_split in Hy. destruct Hy as (b & c & ->).
    exists [], t, b, y, c. split; [reflexivity|now symmetry].
  - destruct (IH (remove string_dec (task_id t) l)) as (a & x & b & y & c & -> & Hid).
    + intros u Hu. apply in_in_remove; [|apply Hin; now right].
      intros Heq. apply Hnew. rewrite <- Heq. apply In_ids. now exists u.
    + pose proof (remove_length_lt string_dec l (task_id t) (Hin t (or_introl eq_refl))).
      simpl in Hlen. lia.
    + exists (t :: a), x, b, y, c. split; [reflexivity|exact Hid].
Qed.

(** From a registered task the check has not popped, dependency edges
    lead on and on through unpopped registered tasks, unless one leads
    out of the registered tasks. *)
Lemma unpopped_walk (s : Scheduler) (P : list string) :
  kahn_full s P [] ->
  forall (n : nat) (u : TaskRef),
    registered s u -> ~ In (task_id u) P ->
    dangling s \/ exists w, walk s (u :: w) /\ List.length w = n.
Proof.
  intros Hfull n. induction n as [|n IH]; intros u Hu Hnp.
  - right. exists []. split; [now apply walk_one|reflexivity].
  - destruct (dict_find_is_Some u _ Hu) as (deps & Hf).
    assert (Hnz : remaining P deps <> 0).
    { intros Hz. pose proof (Hfull u deps Hf Hz) as Hin.
      rewrite app_nil_r in Hin. contradiction. }
    unfold remaining in Hnz.
    destruct (filter (fun d => negb (inb (task_id d) P)) deps) as [|d rest] eqn:Efil;
      [contradiction|].
    assert (Hd : In d (filter (fun d => negb (inb (task_id d) P)) deps))
      by (rewrite Efil; now left).
    apply filter_In in Hd. destruct Hd as [Hd Hdp].
    apply negb_true_iff, inb_false in Hdp.
    assert (Hdep : depends_on s u d).
    { exists deps. split; [exact Hf|]. apply In_ids. now exists d. }
    destruct (in_dec string_dec (task_id d) (ids (keys (task_to_dependencies s))))
      as [Hreg|Hnreg].
    + destruct (IH d Hreg Hdp) as [Hdang|(w & Hw & Hlen)]; [now left|].
      right. exists (d :: w). split; [|simpl; now rewrite Hlen].
      now apply walk_cons.
    + left. exists u, d. split; assumption.
Qed.

Lemma unpopped_exists (l P : list string) :
  List.length P < List.length l -> NoDup l -> exists x, In x l /\ ~ In x P.
Proof.
  intros Hlen Hnd.
  destruct (Exists_dec (fun x => ~ In x P) l) as [Hex|Hno].
  - intros x. destruct (in_dec string_dec x P); [right; tauto|now left].
  - apply Exists_exists in Hex. exact Hex.
  - exfalso.
    assert (Hincl : incl l P).
    { intros x Hx. destruct (in_dec string_dec x P) as [H|H]; [exact H|].
      exfalso. apply Hno. apply Exists_exists. now exists x. }
    pose proof (NoDup_incl_length Hnd Hincl). lia.
Qed.

Lemma has_cycles_true_cause (s s' : Scheduler) :
  sched_wf s ->
  Scheduler__has_cycles s = (s', Done true) ->
  cyclic s \/ dangling s.
Proof.
  intros Hwf Hc.
  destruct (has_cycles_full s Hwf) as (s1 & P & Hc1 & Hnd & Hreg & Hfull).
  rewrite Hc in Hc1. injection Hc1 as _ Hlt. symmetry in Hlt. apply Nat.ltb_lt in Hlt.
  destruct (unpopped_exists (ids (keys (task_to_dependencies s))) P) as (x & Hx & Hxp).
  { unfold ids, keys. now rewrite !length_map. }
  { exact (wf_keys s Hwf). }
  apply In_ids in Hx. destruct Hx as (u & Hu & <-).
  assert (Hur : registered s u) by (apply In_ids; now exists u).
  destruct (unpopped_walk s P Hfull (List.length (task_to_dependencies s)) u Hur Hxp)
    as [Hdang|(w & Hw & Hlen)]; [now right|].
  left.
  destruct (repeated_identifier (u :: w) (ids (keys (task_to_dependencies s))))
    as (a & x & b & y & c & Heq & Hid).
  - intros t Ht. exact (walk_registered s _ Hw t Ht).
  - unfold ids, keys. rewrite !length_map. simpl. lia.
  - rewrite Heq in Hw.
    assert (Hw' : walk s (x :: b ++ y :: c))
      by (apply (walk_suffix s a); [exact Hw|discriminate]).
    exists x. apply (chain_cong_r s x y x); [|now symmetry].
    exact (walk_chain s b x y c Hw').
Qed.

Lemma dangling_has_cycles (s : Scheduler) :
  sched_wf s -> dangling s ->
  exists s', Scheduler__has_cycles s = (s', Done true).
Proof.
  intros Hwf (t & d & Hd & Hn).
  destruct (blocked_has_cycles s (fun x => x = task_id t) t Hwf
              (unregistered_blocked s t d Hd Hn)
              (depends_on_registered s t d Hd) eq_refl) as (s' & Hc & _).
  now exists s'.
Qed.

(** X4.  In every state the code can be brought to, the cycle check
    ends with an answer: it raises no [KeyError], and the loop pops the
    same number of tasks on any fuel that is at least the number of
    registered tasks.  It leaves [task_to_dependencies] as it was and
    changes [task_to_dependents] at most by empty entries, so the
    dependents of every task read as before. *)
Theorem has_cycles_ends_cleanly (st : store) (s : Scheduler) :
  reachable st s ->
  exists s' b n,
    Scheduler__has_cycles s = (s', Done b)
    /\ task_to_dependencies s' = task_to_dependencies s
    /\ (forall k, dependents_of (task_to_dependents s') k
                  = dependents_of (task_to_dependents s) k)
    /\ sched_wf s'
    /\ (forall extra,
          snd (processed (List.length (task_to_dependencies s) + extra) s) = Done n)
    /\ b = (n <? List.length (task_to_dependencies s)).
Proof.
  intros Hr. pose proof (reachable_wf st s Hr) as Hwf.
  destruct (has_cycles_runs s Hwf) as (E' & P & Hp & Hc & _ & HE & _).
  exists {| task_to_dependencies := task_to_dependencies s; task_to_dependents := E' |},
    (List.length P <? List.length (task_to_dependencies s)), (List.length P).
  split; [exact Hc|]. split; [reflexivity|]. split; [exact HE|].
  split; [apply (sched_wf_ext s); [reflexivity|exact HE|exact Hwf]|].
  split; [|reflexivity].
  destruct (kahn_loop_runs s Hwf (List.length (task_to_dependencies s))
              (task_to_dependents s) []
              (ready_queue_of (out_degree_of (task_to_dependencies s)))
              (out_degree_of (task_to_dependencies s)))
    as (E1 & P1 & Hrun & _).
  { reflexivity. }
  { now apply kahn_inv_init. }
  { simpl. lia. }
  change (List.length (@nil string)) with 0 in Hrun.
  assert (Hsame : List.length P1 = List.length P).
  { pose proof (kahn_loop_more_fuel _ 1 _ _ _ _ _ _ Hrun) as H1.
    rewrite Nat.add_1_r in H1. unfold processed in Hp. rewrite H1 in Hp.
    now injection Hp. }
  intros extra. unfold processed.
  rewrite (kahn_loop_more_fuel _ extra _ _ _ _ _ _ Hrun). simpl. now rewrite Hsame.
Qed.

(** With X, P and Q registered the check ends, whatever the fuel. *)
Lemma has_cycles_ends_cleanly_witness :
  exists s' b,
    Scheduler__has_cycles (run_sched Examples.scheduled_XPQ) = (s', Done b)
    /\ task_to_dependencies s' = task_to_dependencies (run_sched Examples.scheduled_XPQ).
Proof.
  destruct (has_cycles_ends_cleanly _ _ Examples_XPQ_reachable)
    as (s' & b & n & Hc & HT & _).
  exists s', b. split; assumption.
Defined.

(** X5.  On the scheduler's mappings the cycle check answers yes
    exactly when the graph has a cycle among registered tasks or some
    registered task has a dependency that is not registered, and no
    exactly when the registered tasks can be listed, each once, with the
    dependencies of every task before it. *)
Theorem has_cycles_exact (s : Scheduler) :
  sched_wf s ->
  exists s' b,
    Scheduler__has_cycles s = (s', Done b)
    /\ (b = true <-> cyclic s \/ dangling s)
    /\ (b = false <->
        exists L, NoDup L
                  /\ (forall x, In x L <-> In x (ids (keys (task_to_dependencies s))))
                  /\ topological (task_to_dependencies s) L).
Proof.
  intros Hwf.
  destruct (has_cycles_runs s Hwf) as (E' & P & _ & Hc & Hle & _ & Hnd & Hreg & Htopo).
  set (s' := {| task_to_dependencies := task_to_dependencies s;
                task_to_dependents := E' |}) in *.
  set (b := List.length P <? List.length (task_to_dependencies s)) in *.
  assert (Htrue : b = true <-> cyclic s \/ dangling s).
  { split.
    - intros Hb. rewrite Hb in Hc. exact (has_cycles_true_cause s s' Hwf Hc).
    - intros [Hcyc|Hdang].
      + destruct (cyclic_has_cycles s Hwf Hcyc) as (s1 & Hc1 & _). congruence.
      + destruct (dangling_has_cycles s Hwf Hdang) as (s1 & Hc1). congruence. }
  exists s', b. split; [exact Hc|]. split; [exact Htrue|]. split.
  - intros Hb. exists P. split; [exact Hnd|]. split; [|exact Htopo].
    intros x. split; [apply Hreg|].
    unfold b in Hb. apply Nat.ltb_ge in Hb.
    assert (Hlen : List.length (ids (keys (task_to_dependencies s))) <= List.length P)
      by (unfold ids, keys; rewrite !length_map; exact Hb).
    exact (NoDup_length_incl Hnd Hlen Hreg x).
  - intros (L & HndL & HL & HtopoL).
    destruct b eqn:Eb; [|reflexivity]. exfalso.
    assert (Hin : forall x, In x L -> In x (ids (keys (task_to_dependencies s))))
      by (intros x; apply HL).
    destruct (proj1 Htrue eq_refl) as [(t & Hch)|(t & d & Hd & Hn)].
    + apply (topological_avoids_blocked s (on_cycle s) L (on_cycle_blocked s)
               HtopoL Hin (task_id t)).
      * apply HL. exact (chain_registered s t t Hch).
      * exists t. now split.
    + apply (topological_avoids_blocked s (fun x => x = task_id t) L
               (unregistered_blocked s t d Hd Hn) HtopoL Hin (task_id t)).
      * apply HL. exact (depends_on_registered s t d Hd).
      * reflexivity.
Qed.

(** The graph with the cycle p -> q -> p: the check answers yes. *)
Lemma has_cycles_exact_witness :
  exists s', Scheduler__has_cycles (run_sched Examples.scheduled_XPQ) = (s', Done true).
Proof.
  destruct (has_cycles_exact (run_sched Examples.scheduled_XPQ) Examples_XPQ_wf)
    as (s' & b & Hc & Htrue & _).
  exists s'. rewrite Hc. f_equal. f_equal.
  apply Htrue. left. exact Examples_XPQ_cyclic.
Defined.

(* ================================================================= *)
(** * The three ways a pass of ready_tasks ends *)
(* ================================================================= *)

Lemma find_ready_None (st : store) (items : dict taskset) :
  find_ready st items = None
  <-> forall t deps, In (t, deps) items -> status st t = PENDING ->
        all_deps_completed st deps = false.
Proof.
  split.
  - intros Hnone t deps Hin Hp.
    destruct (all_deps_completed st deps) eqn:E; [|reflexivity].
    exfalso. exact (find_ready_complete st items t deps Hin Hp E Hnone).
  - intros H. destruct (find_ready st items) as [t|] eqn:E; [|reflexivity].
    apply find_ready_Some in E.
    destruct E as (before & deps & after & -> & Hp & Hd & _).
    rewrite (H t deps) in Hd; [discriminate| |exact Hp].
    apply in_or_app. right. now left.
Qed.

Lemma has_pending_tasks_true (st : store) (t2d : dict taskset) :
  has_pending_tasks st t2d = true
  <-> exists t, In t (keys t2d) /\ status st t = PENDING.
Proof.
  unfold has_pending_tasks, keys. rewrite existsb_exists.
  split; intros (t & Hin & Hp); exists t; (split; [exact Hin|]);
    now apply TaskStatus_eqb_eq.
Qed.

(** X6.  A pass of the loop of [ready_tasks] ends in one of three ways
    and never raises.  It parks in [wait()] exactly when some registered
    task is Pending and every Pending registered task has a dependency
    that is not settled; it ends the sequence exactly when no registered
    task is Pending; otherwise it yields.  Unless it yields, it writes
    to no task. *)
Theorem ready_tasks_pass_waits (st : store) (s : Scheduler) :
  (snd (ready_tasks_pass st s) = Wait
   <-> (exists t, In t (keys (task_to_dependencies s)) /\ status st t = PENDING)
       /\ forall t deps, In (t, deps) (task_to_dependencies s) ->
            status st t = PENDING ->
            ~ (forall dep, In dep deps -> settled (status st dep)))
  /\ (snd (ready_tasks_pass st s) = StopIteration
      <-> forall t, In t (keys (task_to_dependencies s)) -> status st t <> PENDING)
  /\ (snd (ready_tasks_pass st s) = Wait
      \/ snd (ready_tasks_pass st s) = StopIteration
      \/ exists t, snd (ready_tasks_pass st s) = Yield t)
  /\ ((forall t, snd (ready_tasks_pass st s) <> Yield t) ->
      fst (fst (ready_tasks_pass st s)) = st).
Proof.
  unfold ready_tasks_pass.
  destruct (has_pending_tasks st (task_to_dependencies s)) eqn:Hp; simpl.
  - pose proof (proj1 (has_pending_tasks_true st _) Hp) as Hex.
    destruct (find_ready st (task_to_dependencies s)) as [t|] eqn:Hf; simpl.
    + split; [|split; [|split]].
      * split; [discriminate|]. intros [_ H]. exfalso.
        apply find_ready_Some in Hf.
        destruct Hf as (before & deps & after & Heq & Hpt & Hd & _).
        apply (H t deps); [rewrite Heq; apply in_or_app; right; now left|exact Hpt|].
        now apply all_deps_completed_iff.
      * split; [discriminate|]. intros H. exfalso.
        destruct Hex as (u & Hu & Hpu). exact (H u Hu Hpu).
      * right; right. now exists t.
      * intros H. exfalso. exact (H t eq_refl).
    + split; [|split; [|split]].
      * split; [|reflexivity]. intros _. split; [exact Hex|].
        intros t deps Hin Hpt Hall.
        pose proof (proj1 (find_ready_None st _) Hf t deps Hin Hpt) as Hfalse.
        apply all_deps_completed_iff in Hall. congruence.
      * split; [discriminate|]. intros H. exfalso.
        destruct Hex as (u & Hu & Hpu). exact (H u Hu Hpu).
      * now left.
      * reflexivity.
  - pose proof (proj1 (has_pending_tasks_false st _) Hp) as Hno.
    split; [|split; [|split]].
    + split; [discriminate|]. intros [(u & Hu & Hpu) _]. exfalso. exact (Hno u Hu Hpu).
    + split; [intros _; exact Hno|reflexivity].
    + right; now left.
    + reflexivity.
Qed.

(** Before A has run, B waits for it: with only B left Pending and A
    Scheduled, the pass parks. *)
Lemma ready_tasks_pass_waits_witness :
  snd (ready_tasks_pass (fst (fst (fst Examples.pulled_A)))
         (snd (fst (fst Examples.pulled_A)))) = Wait.
Proof.
  apply (proj1 (ready_tasks_pass_waits (fst (fst (fst Examples.pulled_A)))
                  (snd (fst (fst Examples.pulled_A))))).
  assert (HT : task_to_dependencies (snd (fst (fst Examples.pulled_A)))
               = [(Examples.A, []); (Examples.B, [Examples.A])])
    by (vm_compute; reflexivity).
  rewrite HT. split.
  - exists Examples.B. split; [right; left; reflexivity|vm_compute; reflexivity].
  - intros t deps [Heq|[Heq|[]]] Hp Hall; injection Heq as <- <-.
    + vm_compute in Hp. discriminate.
    + specialize (Hall Examples.A (or_introl eq_refl)).
      vm_compute in Hall. destruct Hall as [H|[H|H]]; discriminate.
Defined.

(* ================================================================= *)
(** * Cancellation cannot be taken back *)
(* ================================================================= *)

Lemma next_store_evolves (st : store) (s : Scheduler) (g : generator) (a : nat) :
  evolves (get st a) (get (fst (fst (fst (next st s g)))) a).
Proof.
  assert (Hpass : forall s1, evolves (get st a) (get (fst (fst (ready_tasks_pass st s1))) a)).
  { intros s1. unfold ready_tasks_pass. destruct (negb _); [apply evolves_refl|].
    destruct (find_ready st (task_to_dependencies s1)); simpl;
      [apply alter_status_evolves|apply evolves_refl]. }
  destruct g; simpl.
  - destruct (Scheduler__has_cycles s) as [s1 r].
    destruct r as [[|]| |]; simpl; try apply evolves_refl.
    specialize (Hpass s1). destruct (ready_tasks_pass st s1) as [[st' g'] sig].
    exact Hpass.
  - specialize (Hpass s). destruct (ready_tasks_pass st s) as [[st' g'] sig]. exact Hpass.
  - specialize (Hpass s). destruct (ready_tasks_pass st s) as [[st' g'] sig]. exact Hpass.
  - apply evolves_refl.
Qed.

(** No call clears a cancellation flag, changes a dependency set or
    swaps a work function. *)
Lemma leads_to_keeps (st0 st : store) (s0 s : Scheduler) (a : nat) :
  leads_to st0 s0 st s ->
  dependencies (get st a) = dependencies (get st0 a)
  /\ execute (get st a) = execute (get st0 a)
  /\ (canceled_event (get st0 a) = true -> canceled_event (get st a) = true).
Proof.
  intros H. induction H as [|st s t H IH|st s t H IH|st s t H IH|st s t H IH
                            |st s t f H IH|st s t f H IH|st s t f H IH|st s g H IH].
  - repeat split. auto.
  - destruct IH as (I1 & I2 & I3).
    destruct (schedule_store st s t a) as (H1 & _ & H3 & _ & H5 & _).
    repeat split; try congruence. intros Hc. rewrite H3. auto.
  - destruct IH as (I1 & I2 & I3).
    destruct (execute_task_evolves st s t a) as (H1 & _ & _ & _ & H5 & H6).
    repeat split; try congruence. auto.
  - destruct IH as (I1 & I2 & I3). unfold cancel. rewrite get_alter.
    destruct (Nat.eqb a (addr t)); repeat split; auto.
  - destruct IH as (I1 & I2 & I3). unfold mark_as_scheduled. rewrite get_alter.
    destruct (Nat.eqb a (addr t)); repeat split; auto.
  - destruct IH as (I1 & I2 & I3). unfold register_on_task_completed. rewrite get_alter.
    destruct (Nat.eqb a (addr t)); repeat split; auto.
  - destruct IH as (I1 & I2 & I3). unfold register_on_task_failed. rewrite get_alter.
    destruct (Nat.eqb a (addr t)); repeat split; auto.
  - destruct IH as (I1 & I2 & I3). unfold register_on_task_canceled. rewrite get_alter.
    destruct (Nat.eqb a (addr t)); repeat split; auto.
  - destruct IH as (I1 & I2 & I3).
    destruct (next_store_evolves st s g a) as (H1 & _ & _ & _ & H5 & H6).
    repeat split; try congruence. auto.
Qed.

(** X7.  Once [cancel] has been called on a task, whatever calls
    follow, on this task or on others (scheduling, registering
    callbacks, marking, executing, advancing generators, in any order),
    its flag stays set, and [execute_task] on it writes Canceled and
    nothing else to it, never invokes its work function and leaves its
    result as it was. *)
Theorem cancel_is_irrevocable (st0 st : store) (s0 s : Scheduler) (t : TaskRef) :
  leads_to (cancel st0 t) s0 st s ->
  canceled_event (get st (addr t)) = true
  /\ statuses_written t (run_trace (execute_task st s t)) = [CANCELED]
  /\ status (run_store (execute_task st s t)) t = CANCELED
  /\ work_invocations t (run_trace (execute_task st s t)) = 0
  /\ result (run_store (execute_task st s t)) t = result st t.
Proof.
  intros H.
  assert (Hc : canceled_event (get st (addr t)) = true).
  { apply (leads_to_keeps _ _ _ _ (addr t) H). unfold cancel.
    now rewrite get_alter_same. }
  split; [exact Hc|].
  destruct (execute_task_flag_set st s t Hc) as (H1 & H2 & H3 & H4 & _).
  repeat split; assumption.
Qed.

(** B is canceled before anything is scheduled; A and B are then
    scheduled, and a generator is advanced: B still ends Canceled. *)
Lemma cancel_is_irrevocable_witness :
  status
    (run_store
       (execute_task
          (fst (fst (fst (next
             (run_store (schedule (run_store (schedule
                 (cancel Examples.objects_AB Examples.B) Scheduler_init Examples.A))
                 (run_sched (schedule
                   (cancel Examples.objects_AB Examples.B) Scheduler_init Examples.A))
                 Examples.B))
             (run_sched (schedule (run_store (schedule
                 (cancel Examples.objects_AB Examples.B) Scheduler_init Examples.A))
                 (run_sched (schedule
                   (cancel Examples.objects_AB Examples.B) Scheduler_init Examples.A))
                 Examples.B))
             GEN_CREATED))))
          (snd (fst (fst (next
             (run_store (schedule (run_store (schedule
                 (cancel Examples.objects_AB Examples.B) Scheduler_init Examples.A))
                 (run_sched (schedule
                   (cancel Examples.objects_AB Examples.B) Scheduler_init Examples.A))
                 Examples.B))
             (run_sched (schedule (run_store (schedule
                 (cancel Examples.objects_AB Examples.B) Scheduler_init Examples.A))
                 (run_sched (schedule
                   (cancel Examples.objects_AB Examples.B) Scheduler_init Examples.A))
                 Examples.B))
             GEN_CREATED))))
          Examples.B))
    Examples.B = CANCELED.
Proof.
  refine (proj1 (proj2 (proj2 (cancel_is_irrevocable Examples.objects_AB _
                                  Scheduler_init _ Examples.B _)))).
  apply lead_next. apply lead_schedule. apply lead_schedule. apply lead_here.
Defined.

(* ================================================================= *)
(** * What escapes execute_task, and what it touches *)
(* ================================================================= *)

(** How a call of [execute_task] ends, read off the flag, the work
    function and the callbacks. *)
Lemma execute_task_raised (st : store) (s : Scheduler) (self : TaskRef) :
  run_raised (execute_task st s self)
  = if canceled_event (get st (addr self))
    then slot_raises (on_task_canceled (get st (addr self)))
    else match execute (get st (addr self)) with
         | Raises e =>
             if is_Exception e then slot_raises (on_task_failed (get st (addr self)))
             else Some e
         | Returns _ =>
             match slot_raises (on_task_completed (get st (addr self))) with
             | None => None
             | Some e =>
                 if is_Exception e
                 then slot_raises (on_task_failed (get st (addr self)))
                 else Some e
             end
         end.
Proof.
  unfold execute_task.
  destruct (canceled_event (get st (addr self))) eqn:Hc.
  - rewrite get_alter_same. simpl (on_task_canceled _). unfold slot_raises.
    destruct (armed (on_task_canceled (get st (addr self)))) as [f|]; simpl run_raised;
      [apply call_raised|reflexivity].
  - rewrite get_alter_same. simpl (execute _).
    destruct (execute (get st (addr self))) as [v|e0] eqn:He.
    + rewrite !get_alter_same. simpl (on_task_completed _).
      destruct (armed (on_task_completed (get st (addr self)))) as [f|] eqn:Ef.
      * rewrite (slot_raises_armed _ f Ef), call_raised.
        destruct (callback_raises f) as [e1|]; [|reflexivity].
        destruct (is_Exception e1); [|reflexivity].
        rewrite execute_task_except_raised, on_task_failed_after_call.
        rewrite !get_alter_same. reflexivity.
      * rewrite (slot_raises_None _ Ef). reflexivity.
    + destruct (is_Exception e0); [|reflexivity].
      rewrite execute_task_except_raised, get_alter_same. reflexivity.
Qed.

(** X8.  What escapes [execute_task].  An [Exception] raised by the
    work function or by the on-completed callback is caught; whatever
    else they raise escapes.  Apart from that the call raises exactly
    what the callback it calls last raises: the on-canceled callback
    when the flag is set, the on-failed callback when the flag is unset
    and the work function or the on-completed callback raised an
    [Exception].  A callback is called only when the slot holds an
    object whose truth value is true. *)
Theorem execute_task_raises_iff (st : store) (s : Scheduler) (self : TaskRef) (e : exn) :
  run_raised (execute_task st s self) = Some e
  <-> (canceled_event (get st (addr self)) = true
       /\ slot_raises (on_task_canceled (get st (addr self))) = Some e)
      \/ (canceled_event (get st (addr self)) = false
          /\ execute (get st (addr self)) = Raises e
          /\ is_Exception e = false)
      \/ (canceled_event (get st (addr self)) = false
          /\ (exists v, execute (get st (addr self)) = Returns v)
          /\ slot_raises (on_task_completed (get st (addr self))) = Some e
          /\ is_Exception e = false)
      \/ (canceled_event (get st (addr self)) = false
          /\ slot_raises (on_task_failed (get st (addr self))) = Some e
          /\ ((exists e', execute (get st (addr self)) = Raises e'
                          /\ is_Exception e' = true)
              \/ exists v e', execute (get st (addr self)) = Returns v
                              /\ slot_raises (on_task_completed (get st (addr self)))
                                 = Some e'
                              /\ is_Exception e' = true)).
Proof.
  rewrite execute_task_raised.
  destruct (canceled_event (get st (addr self))) eqn:Hc.
  { split.
    - intros H. left. now split.
    - intros [[_ H]|[[H _]|[[H _]|[H _]]]]; [exact H|discriminate..]. }
  destruct (execute (get st (addr self))) as [v|e0] eqn:He.
  - destruct (slot_raises (on_task_completed (get st (addr self)))) as [e1|] eqn:Ef.
    + destruct (is_Exception e1) eqn:Hx.
      * split.
        -- intros H. right; right; right. split; [reflexivity|]. split; [exact H|].
           right. exists v, e1. repeat split; assumption.
        -- intros [[H _]|[(_ & H & _)|[(_ & _ & H & Hx')|(_ & H & _)]]];
             [discriminate|discriminate| |exact H].
           injection H as <-. congruence.
      * split.
        -- intros [= <-]. right; right; left. split; [reflexivity|].
           split; [now exists v|]. split; [reflexivity|exact Hx].
        -- intros [[H _]|[(_ & H & _)|[(_ & _ & H & _)|(_ & _ & H)]]];
             [discriminate|discriminate|exact H|].
           destruct H as [(e' & H & _)|(v' & e' & _ & H & Hx')]; [discriminate|].
           injection H as <-. congruence.
    + split; [discriminate|].
      intros [[H _]|[(_ & H & _)|[(_ & _ & H & _)|(_ & _ & H)]]]; try discriminate.
      destruct H as [(e' & H & _)|(v' & e' & _ & H & _)]; discriminate.
  - destruct (is_Exception e0) eqn:Hx.
    + split.
      * intros H. right; right; right. split; [reflexivity|]. split; [exact H|].
        left. exists e0. now split.
      * intros [[H _]|[(_ & H & Hx')|[(_ & (v & H) & _)|(_ & H & _)]]];
          [discriminate| |discriminate|exact H].
        injection H as <-. congruence.
    + split.
      * intros [= <-]. right; left. repeat split; assumption.
      * intros [[H _]|[(_ & H & _)|[(_ & (v & H) & _)|(_ & _ & H)]]];
          [discriminate| |discriminate|].
        -- injection H as <-. reflexivity.
        -- destruct H as [(e' & H & Hx')|(v' & e' & H & _)]; [|discriminate].
           injection H as <-. congruence.
Qed.

(** The work function of K raises [KeyboardInterrupt]: it escapes. *)
Lemma execute_task_raises_iff_witness :
  run_raised (execute_task Examples.objects_K Scheduler_init Examples.K)
  = Some (Interrupt "KeyboardInterrupt").
Proof.
  apply (proj2 (execute_task_raises_iff Examples.objects_K Scheduler_init Examples.K
                  (Interrupt "KeyboardInterrupt"))).
  right; left. repeat split.
Defined.

Lemma set_canceled_event_idem (o : Task) :
  set_canceled_event (set_canceled_event o) = set_canceled_event o.
Proof. reflexivity. Qed.

Lemma cancel_all_get (ts : taskset) (st : store) (a : nat) :
  get (cancel_all st ts) a
  = if existsb (fun t => Nat.eqb a (addr t)) ts
    then set_canceled_event (get st a) else get st a.
Proof.
  unfold cancel_all. revert st.
  induction ts as [|t ts IH]; intros st; simpl; [reflexivity|].
  rewrite IH. unfold cancel. rewrite get_alter.
  destruct (Nat.eqb a (addr t)); simpl; [|reflexivity].
  destruct (existsb _ ts); reflexivity.
Qed.

(** X9.  With the Scheduler's handlers registered, an execution that
    ends Completed leaves every other task object exactly as it was; one
    that ends Failed or Canceled sets the flag of the objects that are
    direct dependents of the task and leaves every other task object
    exactly as it was.  In both cases [task_to_dependencies] is
    untouched. *)
Theorem execute_task_footprint (st : store) (s : Scheduler) (self : TaskRef) (a : nat) :
  scheduler_callbacks (get st (addr self)) ->
  a <> addr self ->
  (status (run_store (execute_task st s self)) self = COMPLETED ->
   get (run_store (execute_task st s self)) a = get st a)
  /\ (status (run_store (execute_task st s self)) self = FAILED
      \/ status (run_store (execute_task st s self)) self = CANCELED ->
      get (run_store (execute_task st s self)) a
      = if existsb (fun t => Nat.eqb a (addr t))
             (dependents_of (task_to_dependents s) self)
        then set_canceled_event (get st a) else get st a)
  /\ task_to_dependencies (run_sched (execute_task st s self)) = task_to_dependencies s.
Proof.
  intros (Hoc & Hof & Hca) Hne.
  assert (Hn : returns_normally (on_task_completed (get st (addr self)))).
  { intros e. rewrite Hoc. discriminate. }
  split; [|split; [|apply execute_task_sched]].
  - intros Hst.
    destruct (canceled_event (get st (addr self))) eqn:Hc.
    { destruct (execute_task_flag_set st s self Hc) as (_ & H & _). congruence. }
    destruct (execute (get st (addr self))) as [v|e] eqn:He.
    2:{ destruct (is_Exception e) eqn:Hx.
        - destruct (execute_task_work_raises st s self e Hc He Hx) as (_ & H & _).
          congruence.
        - rewrite (execute_task_work_escapes st s self e Hc He Hx) in Hst.
          unfold status in Hst. simpl in Hst. rewrite get_alter_same in Hst.
          discriminate. }
    unfold execute_task. rewrite Hc, get_alter_same. simpl (execute _). rewrite He.
    rewrite !get_alter_same. simpl (on_task_completed _). rewrite Hoc. simpl.
    now rewrite !get_alter_other.
  - intros Hst.
    destruct (canceled_event (get st (addr self))) eqn:Hc.
    + unfold execute_task. rewrite Hc, get_alter_same. simpl (on_task_canceled _).
      rewrite Hca. simpl. unfold Scheduler__on_task_canceled.
      pose proof (defaultdict_getitem_fst self (task_to_dependents s)) as Hfst.
      destruct (defaultdict_getitem self (task_to_dependents s)) as [ds d']. simpl in *.
      rewrite cancel_all_get, Hfst. now rewrite get_alter_other.
    + destruct (execute (get st (addr self))) as [v|e] eqn:He.
      { destruct (execute_task_work_returns st s self v Hc He Hn) as (_ & H & _).
        rewrite H in Hst. destruct Hst; discriminate. }
      destruct (is_Exception e) eqn:Hx.
      2:{ rewrite (execute_task_work_escapes st s self e Hc He Hx) in Hst.
          unfold status in Hst. simpl in Hst. rewrite get_alter_same in Hst.
          destruct Hst; discriminate. }
      unfold execute_task. rewrite Hc, get_alter_same. simpl (execute _).
      rewrite He, Hx.
      unfold execute_task_except. rewrite !get_alter_same. simpl (on_task_failed _).
      rewrite Hof. simpl. unfold Scheduler__on_task_failed.
      pose proof (defaultdict_getitem_fst self (task_to_dependents s)) as Hfst.
      destruct (defaultdict_getitem self (task_to_dependents s)) as [ds d']. simpl in *.
      rewrite cancel_all_get, Hfst. now rewrite !get_alter_other.
Qed.

(** A fails: B, its dependent, has its flag set and is otherwise as it
    was. *)
Lemma execute_task_footprint_witness :
  canceled_event (get (run_store Examples.executed_A) (addr Examples.B)) = true
  /\ task_status (get (run_store Examples.executed_A) (addr Examples.B)) = PENDING.
Proof.
  assert (Hcb : scheduler_callbacks
                  (get (fst (fst (fst Examples.pulled_A))) (addr Examples.A)))
    by (vm_compute; repeat split).
  assert (Hne : addr Examples.B <> addr Examples.A) by (vm_compute; discriminate).
  destruct (execute_task_footprint (fst (fst (fst Examples.pulled_A)))
              (snd (fst (fst Examples.pulled_A))) Examples.A (addr Examples.B) Hcb Hne)
    as (_ & H & _).
  assert (Hst : status (run_store
                          (execute_task (fst (fst (fst Examples.pulled_A)))
                             (snd (fst (fst Examples.pulled_A))) Examples.A))
                  Examples.A = FAILED) by (vm_compute; reflexivity).
  specialize (H (or_introl Hst)).
  assert (Hin : existsb (fun t => Nat.eqb (addr Examples.B) (addr t))
                  (dependents_of (task_to_dependents (snd (fst (fst Examples.pulled_A))))
                     Examples.A) = true) by (vm_compute; reflexivity).
  rewrite Hin in H. unfold Examples.executed_A. rewrite H.
  split; [reflexivity|vm_compute; reflexivity].
Defined.

(* ================================================================= *)
(** * More about a drain *)
(* ================================================================= *)

(** Where a flag found set after an execution comes from. *)
Lemma execute_task_flag_origin (st : store) (s : Scheduler) (self : TaskRef) (a : nat) :
  scheduler_callbacks (get st (addr self)) ->
  canceled_event (get (run_store (execute_task st s self)) a) = true ->
  canceled_event (get st a) = true
  \/ ((status (run_store (execute_task st s self)) self = FAILED
       \/ status (run_store (execute_task st s self)) self = CANCELED)
      /\ exists b, In b (dependents_of (task_to_dependents s) self) /\ addr b = a).
Proof.
  intros (Hoc & Hof & Hca).
  assert (Halt : forall f st', (forall o, canceled_event (f o) = canceled_event o) ->
             canceled_event (get (alter f (addr self) st') a) = canceled_event (get st' a)).
  { intros f st' Hf. rewrite get_alter. destruct (Nat.eqb a (addr self)); [apply Hf|reflexivity]. }
  assert (Hex : forall ds, existsb (fun t => Nat.eqb a (addr t)) ds = true ->
             exists b, In b ds /\ addr b = a).
  { intros ds H. apply existsb_exists in H. destruct H as (b & Hb & Heq).
    apply Nat.eqb_eq in Heq. exists b. split; [exact Hb|now symmetry]. }
  assert (Hn : returns_normally (on_task_completed (get st (addr self)))).
  { intros e. rewrite Hoc. discriminate. }
  intros Hflag.
  destruct (canceled_event (get st (addr self))) eqn:Hc.
  - destruct (execute_task_flag_set st s self Hc) as (_ & Hst & _).
    unfold execute_task in Hflag. rewrite Hc, get_alter_same in Hflag.
    simpl (on_task_canceled _) in Hflag. rewrite Hca in Hflag.
    simpl in Hflag. unfold Scheduler__on_task_canceled in Hflag.
    pose proof (defaultdict_getitem_fst self (task_to_dependents s)) as Hfst.
    destruct (defaultdict_getitem self (task_to_dependents s)) as [ds d'].
    simpl in Hfst, Hflag.
    rewrite cancel_all_flag, Halt in Hflag by reflexivity.
    apply orb_true_iff in Hflag. destruct Hflag as [H|H]; [now left|].
    right. split; [now right|]. rewrite <- Hfst. now apply Hex.
  - destruct (execute (get st (addr self))) as [v|e] eqn:He.
    + unfold execute_task in Hflag. rewrite Hc, get_alter_same in Hflag.
      simpl (execute _) in Hflag. rewrite He in Hflag.
      rewrite !get_alter_same in Hflag. simpl (on_task_completed _) in Hflag.
      rewrite Hoc in Hflag. simpl in Hflag.
      rewrite !Halt in Hflag by reflexivity. now left.
    + destruct (is_Exception e) eqn:Hx.
      2:{ rewrite (execute_task_work_escapes st s self e Hc He Hx) in Hflag.
          simpl in Hflag. rewrite Halt in Hflag by reflexivity. now left. }
      destruct (execute_task_work_raises st s self e Hc He Hx) as (_ & Hst & _).
      unfold execute_task in Hflag. rewrite Hc, get_alter_same in Hflag.
      simpl (execute _) in Hflag. rewrite He, Hx in Hflag.
      unfold execute_task_except in Hflag. rewrite !get_alter_same in Hflag.
      simpl (on_task_failed _) in Hflag. rewrite Hof in Hflag.
      simpl in Hflag. unfold Scheduler__on_task_failed in Hflag.
      pose proof (defaultdict_getitem_fst self (task_to_dependents s)) as Hfst.
      destruct (defaultdict_getitem self (task_to_dependents s)) as [ds d'].
      simpl in Hfst, Hflag.
      rewrite cancel_all_flag, !Halt in Hflag by reflexivity.
      apply orb_true_iff in Hflag. destruct Hflag as [H|H]; [now left|].
      right. split; [now left|]. rewrite <- Hfst. now apply Hex.
Qed.

Lemma execute_task_result_frame (st : store) (s : Scheduler) (self u : TaskRef) :
  addr u <> addr self ->
  result (run_store (execute_task st s self)) u = result st u.
Proof.
  intros Hne. unfold result. now apply (execute_task_frame st s self (addr u)).
Qed.

Lemma drain_more_step (st0 st : store) (s : Scheduler) (ys : list TaskRef)
    (tr : list event) (t : TaskRef) :
  sched_wf s -> objects_wf s ->
  drain_inv (task_to_dependencies s) st ys tr ->
  drain_more (task_to_dependencies s) st0 st ys tr ->
  find_ready st (task_to_dependencies s) = Some t ->
  drain_more (task_to_dependencies s) st0
    (run_store (execute_task (mark_as_scheduled st t) s t))
    (ys ++ [t]) (tr ++ run_trace (execute_task (mark_as_scheduled st t) s t)).
Proof.
  intros Hwf How Hinv Hmore Hfind.
  apply find_ready_Some in Hfind.
  destruct Hfind as (before & deps & after & HeqT & Hpend & Hall & _).
  assert (Ht : In (t, deps) (task_to_dependencies s))
    by (rewrite HeqT; apply in_or_app; right; now left).
  assert (Hk : In t (keys (task_to_dependencies s))) by exact (In_entry_keys _ _ _ Ht).
  assert (Hdeps : forall d, In d deps -> settled (status st d))
    by (now apply all_deps_completed_iff).
  set (st1 := mark_as_scheduled st t).
  set (r := execute_task st1 s t).
  assert (Hev : forall a, evolves (get st a) (get (run_store r) a)).
  { intros a. eapply evolves_trans; [|apply execute_task_evolves].
    apply alter_status_evolves. }
  assert (Hcb1 : scheduler_callbacks (get st1 (addr t))).
  { eapply evolves_callbacks; [apply alter_status_evolves|].
    exact (di_callbacks _ _ _ _ Hinv t Hk). }
  assert (Hst1 : forall a, canceled_event (get st1 a) = canceled_event (get st a)
                           /\ execute (get st1 a) = execute (get st a)
                           /\ task_result (get st1 a) = task_result (get st a)).
  { intros a. unfold st1, mark_as_scheduled. rewrite get_alter.
    destruct (Nat.eqb a (addr t)); repeat split. }
  assert (Hn : returns_normally (on_task_completed (get st1 (addr t)))).
  { intros e. destruct Hcb1 as (-> & _). discriminate. }
  assert (Hx1 : work_catchable (get st1 (addr t))).
  { intros e He. apply (di_catchable _ _ _ _ Hinv t Hk e).
    rewrite <- He. symmetry. exact (proj1 (proj2 (Hst1 (addr t)))). }
  pose proof (execute_task_three_outcomes st1 s t Hn Hx1) as Hout. fold r in Hout.
  rewrite (proj1 (Hst1 (addr t))), (proj1 (proj2 (Hst1 (addr t)))) in Hout.
  assert (Hframe : forall u, addr u <> addr t ->
                     status (run_store r) u = status st u
                     /\ result (run_store r) u = result st u).
  { intros u Hne. unfold r.
    rewrite execute_task_status_frame, execute_task_result_frame by assumption.
    unfold st1. rewrite status_mark_as_scheduled.
    destruct (Nat.eqb_spec (addr u) (addr t)); [contradiction|].
    split; [reflexivity|]. unfold result, mark_as_scheduled.
    now rewrite get_alter_other. }
  assert (Hcase : forall u, In u (keys (task_to_dependencies s)) ->
                    u = t \/ (addr u <> addr t
                              /\ status (run_store r) u = status st u
                              /\ result (run_store r) u = result st u)).
  { intros u Hu. destruct (Nat.eq_dec (addr u) (addr t)) as [Ha|Ha].
    - left. exact (NoDup_map_inj addr _ u t (ow_addr s How) Hu Hk Ha).
    - right. split; [assumption|now apply Hframe]. }
  assert (Hentry : forall u du, In (u, du) (task_to_dependencies s) ->
                     dict_find u (task_to_dependencies s) = Some du).
  { intros u du Hu. exact (dict_find_In_NoDup u du _ (wf_keys s Hwf) Hu). }
  assert (Hdepk : forall d, In d deps -> d <> t).
  { intros d Hd ->. pose proof (Hdeps t Hd) as Hs.
    apply settled_not_pending in Hs. contradiction. }
  (* a registered dependent, by address, of the executed task has it
     among its recorded dependencies *)
  assert (Hdependent : forall u b, In u (keys (task_to_dependencies s)) ->
             In b (dependents_of (task_to_dependents s) t) -> addr b = addr u ->
             exists du, In (u, du) (task_to_dependencies s) /\ In t du).
  { intros u b Hu Hb Hab.
    assert (b = u) as ->.
    { apply (NoDup_map_inj addr (keys (task_to_dependencies s)));
        [exact (ow_addr s How)|exact (ow_dependents s How t b Hb)|exact Hu|exact Hab]. }
    assert (Hd : depends_on s u t).
    { apply (wf_transpose s Hwf). apply In_ids. now exists u. }
    destruct Hd as (du & Hf & Hin).
    destruct (In_keys_entry u _ Hu) as (du' & Hentry').
    assert (du' = du) as -> by (pose proof (Hentry u du' Hentry'); congruence).
    exists du. split; [exact Hentry'|].
    apply In_ids in Hin. destruct Hin as (d & Hd & Hid).
    assert (d = t) as <-; [|exact Hd].
    apply (NoDup_map_inj task_id (keys (task_to_dependencies s)));
      [exact (wf_keys s Hwf)|exact (ow_deps s How u du d Hentry' Hd)|exact Hk|exact Hid]. }
  constructor.
  - intros ys1 x ys2 Heq du d Hx Hd.
    destruct ys2 as [|z ys2] using rev_ind.
    + apply app_inj_tail in Heq. destruct Heq as [<- <-].
      assert (du = deps) as ->
        by (pose proof (Hentry t du Hx); pose proof (Hentry t deps Ht); congruence).
      apply (di_yielded _ _ _ _ Hinv d (ow_deps s How t deps d Ht Hd)).
      now apply Hdeps.
    + clear IHys2. change (x :: ys2 ++ [z]) with ((x :: ys2) ++ [z]) in Heq.
      rewrite app_assoc in Heq. apply app_inj_tail in Heq. destruct Heq as [Heq _].
      exact (dm_order _ _ _ _ _ Hmore ys1 x ys2 Heq du d Hx Hd).
  - intros u Hu Hst. rewrite work_invocations_app.
    destruct (Hcase u Hu) as [->|(Hne & Hs & _)].
    + rewrite (di_work _ _ _ _ Hinv t Hk (or_introl Hpend)).
      destruct Hout as [(_ & _ & H & _)|[(_ & _ & _ & _ & H & _)|(_ & _ & _ & _ & H & _)]].
      * rewrite H in Hst. destruct Hst; discriminate.
      * now rewrite H.
      * now rewrite H.
    + rewrite Hs in Hst. rewrite (dm_work _ _ _ _ _ Hmore u Hu Hst).
      unfold r. now rewrite work_invocations_other.
  - intros u Hu Hst. destruct (Hcase u Hu) as [->|(Hne & Hs & Hr)].
    + destruct Hout as [(_ & _ & H & _)|[(_ & (v & He & Hres) & _)|(_ & _ & _ & H & _)]];
        try congruence.
      rewrite Hres, <- He. symmetry. apply (dm_evolves _ _ _ _ _ Hmore (addr t)).
    + rewrite Hs in Hst. rewrite Hr. exact (dm_completed _ _ _ _ _ Hmore u Hu Hst).
  - intros u Hu Hst. destruct (Hcase u Hu) as [->|(Hne & Hs & Hr)].
    + destruct Hout as [(_ & _ & H & _)|[(_ & _ & _ & H & _)|(_ & (e & He & Hres) & _)]];
        try congruence.
      exists e. split; [|exact Hres].
      rewrite <- He. symmetry. apply (dm_evolves _ _ _ _ _ Hmore (addr t)).
    + rewrite Hs in Hst. rewrite Hr. exact (dm_failed _ _ _ _ _ Hmore u Hu Hst).
  - intros u Hu Hst. destruct (Hcase u Hu) as [->|(Hne & Hs & Hr)].
    + destruct Hst as [Hst|Hst].
      * exfalso.
        destruct Hout as [(_ & _ & H & _)|[(_ & _ & _ & H & _)|(_ & _ & _ & H & _)]];
          congruence.
      * destruct (execute_task_flag_set st1 s t) as (_ & _ & _ & Hres & _).
        { rewrite (proj1 (Hst1 (addr t))).
          destruct Hout as [(H & _)|[(_ & _ & _ & H & _)|(_ & _ & _ & H & _)]];
            [exact H|fold r in Hst; congruence|fold r in Hst; congruence]. }
        fold r in Hres. rewrite Hres. unfold result.
        rewrite (proj2 (proj2 (Hst1 (addr t)))).
        exact (dm_untouched _ _ _ _ _ Hmore t Hk (or_introl Hpend)).
    + rewrite Hs in Hst. rewrite Hr. exact (dm_untouched _ _ _ _ _ Hmore u Hu Hst).
  - intros a. eapply evolves_trans; [apply (dm_evolves _ _ _ _ _ Hmore a)|apply Hev].
  - intros u Hu Hfl.
    assert (Hkeep : forall du d, In (u, du) (task_to_dependencies s) -> In d du ->
               status st d = FAILED \/ status st d = CANCELED ->
               status (run_store r) d = FAILED \/ status (run_store r) d = CANCELED).
    { intros du d Hudu Hd Hsd.
      destruct (Hcase d (ow_deps s How u du d Hudu Hd)) as [->|(_ & Hs & _)].
      - rewrite Hpend in Hsd. destruct Hsd; discriminate.
      - now rewrite Hs. }
    destruct (execute_task_flag_origin st1 s t (addr u) Hcb1 Hfl) as [Hold|[Hst (b & Hb & Hab)]].
    + rewrite (proj1 (Hst1 (addr u))) in Hold.
      destruct (dm_flag _ _ _ _ _ Hmore u Hu Hold) as [H0|(du & d & Hudu & Hd & Hsd)];
        [now left|].
      right. exists du, d. split; [exact Hudu|]. split; [exact Hd|].
      exact (Hkeep du d Hudu Hd Hsd).
    + destruct (Hdependent u b Hu Hb Hab) as (du & Hudu & Htdu).
      right. exists du, t. split; [exact Hudu|]. split; [exact Htdu|exact Hst].
  - intros u Hu Hst. destruct (Hcase u Hu) as [->|(Hne & Hs & _)].
    + apply (proj2 (proj2 (proj2 (proj2 (proj2 (execute_task_evolves st1 s t (addr t))))))).
      rewrite (proj1 (Hst1 (addr t))).
      destruct Hout as [(H & _)|[(_ & _ & _ & H & _)|(_ & _ & _ & H & _)]];
        [exact H|fold r in Hst; congruence|fold r in Hst; congruence].
    + rewrite Hs in Hst. apply (Hev (addr u)).
      exact (dm_canceled _ _ _ _ _ Hmore u Hu Hst).
  - intros u Hu Hst.
    destruct (canceled_event (get (run_store r) (addr u))) eqn:Hfl; [|reflexivity].
    exfalso.
    destruct (execute_task_flag_origin st1 s t (addr u) Hcb1 Hfl) as [Hold|[Hst' (b & Hb & Hab)]].
    + rewrite (proj1 (Hst1 (addr u))) in Hold.
      destruct (Hcase u Hu) as [->|(Hne & Hs & _)].
      * destruct Hout as [(_ & _ & H & _)|[(H & _)|(H & _)]]; try congruence.
        fold r in Hst. rewrite H in Hst. destruct Hst; discriminate.
      * rewrite Hs in Hst.
        pose proof (dm_unflagged _ _ _ _ _ Hmore u Hu Hst). congruence.
    + destruct (Hdependent u b Hu Hb Hab) as (du & Hudu & Htdu).
      destruct (Hcase u Hu) as [->|(Hne & Hs & _)].
      * assert (du = deps) as ->
          by (pose proof (Hentry t du Hudu); pose proof (Hentry t deps Ht); congruence).
        exact (Hdepk t Htdu eq_refl).
      * rewrite Hs in Hst.
        pose proof (di_done _ _ _ _ Hinv u du t Hudu Hst Htdu). congruence.
Qed.

Lemma drain_runs_more (P : list string) (st0 : store) :
  forall (fuel : nat) (st : store) (s : Scheduler) (ys : list TaskRef) (tr : list event),
    sched_wf s -> objects_wf s ->
    drain_inv (task_to_dependencies s) st ys tr ->
    drain_more (task_to_dependencies s) st0 st ys tr ->
    topological (task_to_dependencies s) P ->
    (forall t, In t (keys (task_to_dependencies s)) -> In (task_id t) P) ->
    drain_more (task_to_dependencies s) st0
      (d_store (drain fuel st s GEN_SUSPENDED ys tr))
      (d_yielded (drain fuel st s GEN_SUSPENDED ys tr))
      (d_trace (drain fuel st s GEN_SUSPENDED ys tr)).
Proof.
  induction fuel as [|fuel IH]; intros st s ys tr Hwf How Hinv Hmore Htopo Hcover.
  - exact Hmore.
  - simpl. unfold ready_tasks_pass.
    destruct (has_pending_tasks st (task_to_dependencies s)) eqn:Hp; simpl;
      [|exact Hmore].
    pose proof (drain_progress st s ys tr P Hwf How Hinv Htopo Hcover Hp) as Hready.
    destruct (find_ready st (task_to_dependencies s)) as [t|] eqn:Hfind;
      [|contradiction].
    destruct (drain_step st s ys tr t Hwf How Hinv Hfind) as [Hret Hinv'].
    pose proof (drain_more_step st0 st s ys tr t Hwf How Hinv Hmore Hfind) as Hmore'.
    rewrite Hret.
    destruct (execute_task_sched (mark_as_scheduled st t) s t) as [HT HE].
    set (r := execute_task (mark_as_scheduled st t) s t) in *.
    rewrite <- HT in Hinv', Hmore', Htopo, Hcover.
    pose proof (IH (run_store r) (run_sched r) (ys ++ [t]) (tr ++ run_trace r)
                  (execute_task_wf _ s t Hwf)
                  (objects_wf_ext s _ HT HE How) Hinv' Hmore' Htopo Hcover) as Hfin.
    rewrite HT in Hfin. exact Hfin.
Qed.

(** What a drain of all registered tasks ends in. *)
Lemma drain_all_ends (st : store) (s : Scheduler) :
  sched_wf s -> objects_wf s -> drain_start st s ->
  snd (Scheduler__has_cycles s) = Done false ->
  d_signal (drain_all st s) = StopIteration
  /\ drain_inv (task_to_dependencies s) (d_store (drain_all st s))
       (d_yielded (drain_all st s)) (d_trace (drain_all st s))
  /\ drain_more (task_to_dependencies s) st (d_store (drain_all st s))
       (d_yielded (drain_all st s)) (d_trace (drain_all st s))
  /\ forall t, In t (keys (task_to_dependencies s)) ->
       settled (status (d_store (drain_all st s)) t).
Proof.
  intros Hwf How Hstart Hacyclic. unfold drain_all.
  destruct (has_cycles_runs s Hwf) as (E' & P & _ & Hc & Hle & HE & Hnd & Hreg & Htopo).
  rewrite Hc in Hacyclic. simpl in Hacyclic. injection Hacyclic as Hlt.
  rewrite Hlt in Hc. apply Nat.ltb_ge in Hlt.
  set (s1 := {| task_to_dependencies := task_to_dependencies s;
                task_to_dependents := E' |}) in *.
  rewrite (drain_created _ st s s1 [] [] Hc).
  assert (Hcover : forall t, In t (keys (task_to_dependencies s)) -> In (task_id t) P).
  { intros t Ht.
    assert (Hlen : List.length (ids (keys (task_to_dependencies s))) <= List.length P)
      by (unfold ids, keys; rewrite !length_map; exact Hlt).
    apply (NoDup_length_incl Hnd Hlen Hreg). apply In_ids. now exists t. }
  assert (Hwf1 : sched_wf s1) by (apply (sched_wf_ext s); [reflexivity|exact HE|exact Hwf]).
  assert (How1 : objects_wf s1)
    by (apply (objects_wf_ext s); [reflexivity|exact HE|exact How]).
  assert (Hpending : forall t, In t (keys (task_to_dependencies s)) -> status st t = PENDING)
    by (intros t Ht; exact (proj1 (proj2 (Hstart t Ht)))).
  assert (Hinv0 : drain_inv (task_to_dependencies s1) st [] []).
  { constructor.
    - intros t Ht. left. now apply Hpending.
    - intros t deps d Ht Hd Hst. exfalso.
      rewrite (Hpending d (ow_deps s How t deps d Ht Hd)) in Hst.
      destruct Hst; discriminate.
    - intros t deps d Ht Hst Hd. exfalso.
      rewrite (Hpending t (In_entry_keys _ _ _ Ht)) in Hst.
      destruct Hst; discriminate.
    - intros t Ht. exact (proj1 (Hstart t Ht)).
    - reflexivity.
    - intros t Ht Hst. exfalso. rewrite (Hpending t Ht) in Hst.
      apply settled_not_pending in Hst. congruence.
    - intros t [].
    - constructor.
    - intros t Ht. exact (proj2 (proj2 (Hstart t Ht))). }
  assert (Hmore0 : drain_more (task_to_dependencies s1) st st [] []).
  { constructor.
    - intros ys1 t ys2 Heq. destruct ys1; discriminate.
    - intros t Ht Hst. exfalso. rewrite (Hpending t Ht) in Hst.
      destruct Hst; discriminate.
    - intros t Ht Hst. exfalso. rewrite (Hpending t Ht) in Hst. discriminate.
    - intros t Ht Hst. exfalso. rewrite (Hpending t Ht) in Hst. discriminate.
    - reflexivity.
    - intros a. apply evolves_refl.
    - intros t Ht Hfl. now left.
    - intros t Ht Hst. exfalso. rewrite (Hpending t Ht) in Hst. discriminate.
    - intros t Ht Hst. exfalso. rewrite (Hpending t Ht) in Hst.
      destruct Hst; discriminate. }
  destruct (drain_runs P (S (List.length (task_to_dependencies s))) st s1 [] []
              Hwf1 How1 Hinv0 Htopo Hcover) as (Hsig & Hinv & Hnp).
  { simpl. lia. }
  pose proof (drain_runs_more P st (S (List.length (task_to_dependencies s))) st s1 [] []
                Hwf1 How1 Hinv0 Hmore0 Htopo Hcover) as Hmore.
  split; [exact Hsig|]. split; [exact Hinv|]. split; [exact Hmore|].
  intros t Ht. destruct (di_status _ _ _ _ Hinv t Ht) as [Hp|Hs]; [|exact Hs].
  exfalso. exact (Hnp t Ht Hp).
Qed.

Lemma Examples_AB_start :
  drain_start (run_store Examples.scheduled_AB) (run_sched Examples.scheduled_AB).
Proof.
  assert (Hk : keys (task_to_dependencies (run_sched Examples.scheduled_AB))
               = [Examples.A; Examples.B]) by (vm_compute; reflexivity).
  intros t Ht. rewrite Hk in Ht.
  destruct Ht as [<-|[<-|[]]];
    (split; [vm_compute; repeat split|split; [vm_compute; reflexivity|]]).
  - intros e He. vm_compute in He. injection He as <-. reflexivity.
  - intros e He. vm_compute in He. discriminate.
Qed.

Lemma Examples_AB_acyclic :
  snd (Scheduler__has_cycles (run_sched Examples.scheduled_AB)) = Done false.
Proof. vm_compute. reflexivity. Qed.

Lemma Examples_GH_wf : sched_wf (run_sched Examples.scheduled_GH).
Proof.
  unfold Examples.scheduled_GH, Scheduler_new.
  destruct (schedule_each_spec [Examples.G; Examples.H] Examples.objects_GH
              Scheduler_init) as (_ & Hrest & _).
  assert (Hnone : run_raised (schedule_each Examples.objects_GH Scheduler_init
                                [Examples.G; Examples.H]) = None)
    by (vm_compute; reflexivity).
  destruct (Hrest Hnone) as (_ & Hwf & _). exact (Hwf sched_wf_init).
Qed.

Lemma Examples_GH_objects : objects_wf (run_sched Examples.scheduled_GH).
Proof.
  assert (HT : task_to_dependencies (run_sched Examples.scheduled_GH)
               = [(Examples.G, []); (Examples.H, [Examples.G])])
    by (vm_compute; reflexivity).
  assert (HE : task_to_dependents (run_sched Examples.scheduled_GH)
               = [(Examples.G, [Examples.H])])
    by (vm_compute; reflexivity).
  constructor; rewrite HT.
  - simpl. constructor; [intros [H|[]]; discriminate|].
    constructor; [intros []|constructor].
  - intros t deps d [H|[H|[]]] Hd; injection H as <- <-.
    + destruct Hd.
    + destruct Hd as [<-|[]]. left. reflexivity.
  - intros p u Hu. unfold dependents_of in Hu. rewrite HE in Hu. simpl in Hu.
    destruct (Task_eqb p Examples.G); [|destruct Hu].
    destruct Hu as [<-|[]]. right; left. reflexivity.
Qed.

Lemma Examples_GH_start :
  drain_start (run_store Examples.scheduled_GH) (run_sched Examples.scheduled_GH).
Proof.
  assert (Hk : keys (task_to_dependencies (run_sched Examples.scheduled_GH))
               = [Examples.G; Examples.H]) by (vm_compute; reflexivity).
  intros t Ht. rewrite Hk in Ht.
  destruct Ht as [<-|[<-|[]]];
    (split; [vm_compute; repeat split|split; [vm_compute; reflexivity|]]);
    intros e He; vm_compute in He; discriminate.
Qed.

Lemma Examples_GH_acyclic :
  snd (Scheduler__has_cycles (run_sched Examples.scheduled_GH)) = Done false.
Proof. vm_compute. reflexivity. Qed.

(** The drains considered from here on start under the same
    conditions.  The two mappings satisfy the scheduler's invariant ([sched_wf]).  The
    registered tasks are different objects, and every task recorded as
    a dependency or as a dependent is one of these registered objects:
    each dependency was itself passed to [schedule], as that very
    object ([objects_wf]).  Every registered task is Pending, carries
    the Scheduler's handlers, and has a work function that returns or
    raises an [Exception] ([drain_start]).  The cycle check answers
    no.  One thread then runs
    [for task in scheduler.ready_tasks: task.execute_task()]. *)

(** X10.  Under these conditions ([sched_wf], [objects_wf],
    [drain_start], no cycle reported) the drain reaches the end of the
    sequence, every registered task is yielded exactly once and nothing
    else is, and each task is yielded after all the tasks recorded as
    its dependencies. *)
Theorem drain_yields_once_in_order (st : store) (s : Scheduler) :
  sched_wf s -> objects_wf s -> drain_start st s ->
  snd (Scheduler__has_cycles s) = Done false ->
  d_signal (drain_all st s) = StopIteration
  /\ NoDup (d_yielded (drain_all st s))
  /\ (forall t, In t (d_yielded (drain_all st s))
                <-> In t (keys (task_to_dependencies s)))
  /\ (forall ys1 t ys2, d_yielded (drain_all st s) = ys1 ++ t :: ys2 ->
        forall deps d, In (t, deps) (task_to_dependencies s) -> In d deps ->
          In d ys1).
Proof.
  intros Hwf How Hstart Hacyclic.
  destruct (drain_all_ends st s Hwf How Hstart Hacyclic) as (Hsig & Hinv & Hmore & Hset).
  split; [exact Hsig|].
  split; [exact (di_ys_nodup _ _ _ _ Hinv)|]. split.
  - intros t. split.
    + intros Ht. exact (proj1 (di_ys _ _ _ _ Hinv t Ht)).
    + intros Ht. exact (di_yielded _ _ _ _ Hinv t Ht (Hset t Ht)).
  - exact (dm_order _ _ _ _ _ Hmore).
Qed.

(** A and B: each is yielded once. *)
Lemma drain_yields_once_in_order_witness :
  NoDup (d_yielded (drain_all (run_store Examples.scheduled_AB)
                      (run_sched Examples.scheduled_AB)))
  /\ (forall t, In t (d_yielded (drain_all (run_store Examples.scheduled_AB)
                                  (run_sched Examples.scheduled_AB)))
                <-> In t (keys (task_to_dependencies (run_sched Examples.scheduled_AB)))).
Proof.
  destruct (drain_yields_once_in_order _ _ Examples_AB_wf Examples_AB_objects
              Examples_AB_start Examples_AB_acyclic) as (_ & H1 & H2 & _).
  split; assumption.
Defined.

(** X11.  Under the conditions above ([sched_wf], [objects_wf],
    [drain_start], no cycle reported) every registered task ends
    Completed, Failed or Canceled, and its work function has run once
    if it ends Completed or Failed and not at all if it ends Canceled;
    no work function runs twice. *)
Theorem drain_invokes_work_once (st : store) (s : Scheduler) (t : TaskRef) :
  sched_wf s -> objects_wf s -> drain_start st s ->
  snd (Scheduler__has_cycles s) = Done false ->
  In t (keys (task_to_dependencies s)) ->
  (status (d_store (drain_all st s)) t = COMPLETED
   /\ work_invocations t (d_trace (drain_all st s)) = 1)
  \/ (status (d_store (drain_all st s)) t = FAILED
      /\ work_invocations t (d_trace (drain_all st s)) = 1)
  \/ (status (d_store (drain_all st s)) t = CANCELED
      /\ work_invocations t (d_trace (drain_all st s)) = 0).
Proof.
  intros Hwf How Hstart Hacyclic Ht.
  destruct (drain_all_ends st s Hwf How Hstart Hacyclic) as (_ & Hinv & Hmore & Hset).
  destruct (Hset t Ht) as [H|[H|H]].
  - left. split; [exact H|]. exact (dm_work _ _ _ _ _ Hmore t Ht (or_introl H)).
  - right; left. split; [exact H|]. exact (dm_work _ _ _ _ _ Hmore t Ht (or_intror H)).
  - right; right. split; [exact H|]. exact (di_work _ _ _ _ Hinv t Ht (or_intror H)).
Qed.

(** A fails after running once. *)
Lemma drain_invokes_work_once_witness :
  work_invocations Examples.A
    (d_trace (drain_all (run_store Examples.scheduled_AB)
                (run_sched Examples.scheduled_AB))) = 1.
Proof.
  assert (Hk : In Examples.A
                 (keys (task_to_dependencies (run_sched Examples.scheduled_AB))))
    by (vm_compute; left; reflexivity).
  destruct (drain_invokes_work_once _ _ Examples.A Examples_AB_wf Examples_AB_objects
              Examples_AB_start Examples_AB_acyclic Hk)
    as [[_ H]|[[_ H]|[Hst _]]]; try exact H.
  vm_compute in Hst. discriminate.
Defined.

(** X12.  Under the conditions above ([sched_wf], [objects_wf],
    [drain_start], no cycle reported) the result slot of a registered
    task ends as its own work function left it: the value returned if
    the task ends Completed, the exception raised if it ends Failed, and
    what it held before the drain if it ends Canceled. *)
Theorem drain_stores_results (st : store) (s : Scheduler) (t : TaskRef) :
  sched_wf s -> objects_wf s -> drain_start st s ->
  snd (Scheduler__has_cycles s) = Done false ->
  In t (keys (task_to_dependencies s)) ->
  (status (d_store (drain_all st s)) t = COMPLETED ->
   execute (get st (addr t)) = Returns (result (d_store (drain_all st s)) t))
  /\ (status (d_store (drain_all st s)) t = FAILED ->
      exists e, execute (get st (addr t)) = Raises e
                /\ result (d_store (drain_all st s)) t = VExc e)
  /\ (status (d_store (drain_all st s)) t = CANCELED ->
      result (d_store (drain_all st s)) t = result st t).
Proof.
  intros Hwf How Hstart Hacyclic Ht.
  destruct (drain_all_ends st s Hwf How Hstart Hacyclic) as (_ & _ & Hmore & _).
  split; [exact (dm_completed _ _ _ _ _ Hmore t Ht)|].
  split; [exact (dm_failed _ _ _ _ _ Hmore t Ht)|].
  intros H. exact (dm_untouched _ _ _ _ _ Hmore t Ht (or_intror H)).
Qed.

(** A ends Failed holding the exception its work function raised. *)
Lemma drain_stores_results_witness :
  exists e,
    execute (get (run_store Examples.scheduled_AB) (addr Examples.A)) = Raises e
    /\ result (d_store (drain_all (run_store Examples.scheduled_AB)
                          (run_sched Examples.scheduled_AB))) Examples.A = VExc e.
Proof.
  assert (Hk : In Examples.A
                 (keys (task_to_dependencies (run_sched Examples.scheduled_AB))))
    by (vm_compute; left; reflexivity).
  destruct (drain_stores_results _ _ Examples.A Examples_AB_wf Examples_AB_objects
              Examples_AB_start Examples_AB_acyclic Hk) as (_ & H & _).
  apply H. vm_compute. reflexivity.
Defined.

(** X13.  Under the conditions above ([sched_wf], [objects_wf],
    [drain_start], no cycle reported), when moreover no registered
    task has its flag set before the drain and every work function
    returns, the drain completes every registered task: it reaches the
    end of the sequence, and each task ends Completed with the value
    its work function returned as result; nothing is canceled. *)
Theorem drain_completes_all (st : store) (s : Scheduler) :
  sched_wf s -> objects_wf s -> drain_start st s ->
  snd (Scheduler__has_cycles s) = Done false ->
  (forall t, In t (keys (task_to_dependencies s)) ->
     canceled_event (get st (addr t)) = false
     /\ exists v, execute (get st (addr t)) = Returns v) ->
  d_signal (drain_all st s) = StopIteration
  /\ forall t, In t (keys (task_to_dependencies s)) ->
       status (d_store (drain_all st s)) t = COMPLETED
       /\ execute (get st (addr t)) = Returns (result (d_store (drain_all st s)) t).
Proof.
  intros Hwf How Hstart Hacyclic Hgood.
  destruct (drain_all_ends st s Hwf How Hstart Hacyclic) as (Hsig & Hinv & Hmore & Hset).
  split; [exact Hsig|].
  assert (Hpre : forall ys1 ys2, d_yielded (drain_all st s) = ys1 ++ ys2 ->
             forall t, In t ys1 -> status (d_store (drain_all st s)) t = COMPLETED).
  { induction ys1 as [|x ys1 IH] using rev_ind; intros ys2 Heq t Ht; [destruct Ht|].
    rewrite <- app_assoc in Heq. simpl in Heq.
    apply in_app_or in Ht. destruct Ht as [Ht|[<-|[]]]; [exact (IH _ Heq t Ht)|].
    assert (Hx : In x (keys (task_to_dependencies s))).
    { apply (di_ys _ _ _ _ Hinv). rewrite Heq. apply in_or_app. right. now left. }
    destruct (Hgood x Hx) as (Hunset & v & Hv).
    destruct (Hset x Hx) as [H|[H|H]]; [exact H| |].
    - destruct (dm_failed _ _ _ _ _ Hmore x Hx H) as (e & He & _). congruence.
    - exfalso. pose proof (dm_canceled _ _ _ _ _ Hmore x Hx H) as Hfl.
      destruct (dm_flag _ _ _ _ _ Hmore x Hx Hfl) as [H0|(deps & d & Hxd & Hd & Hsd)];
        [congruence|].
      pose proof (dm_order _ _ _ _ _ Hmore ys1 x ys2 Heq deps d Hxd Hd) as Hdin.
      rewrite (IH _ Heq d Hdin) in Hsd. destruct Hsd; discriminate. }
  intros t Ht.
  assert (Hc : status (d_store (drain_all st s)) t = COMPLETED).
  { apply (Hpre (d_yielded (drain_all st s)) [] (eq_sym (app_nil_r _))).
    exact (di_yielded _ _ _ _ Hinv t Ht (Hset t Ht)). }
  split; [exact Hc|exact (dm_completed _ _ _ _ _ Hmore t Ht Hc)].
Qed.

(** G and H both succeed: both end Completed. *)
Lemma drain_completes_all_witness :
  status (d_store (drain_all (run_store Examples.scheduled_GH)
                     (run_sched Examples.scheduled_GH))) Examples.H = COMPLETED.
Proof.
  assert (Hgood : forall t,
             In t (keys (task_to_dependencies (run_sched Examples.scheduled_GH))) ->
             canceled_event (get (run_store Examples.scheduled_GH) (addr t)) = false
             /\ exists v, execute (get (run_store Examples.scheduled_GH) (addr t))
                          = Returns v).
  { assert (Hk : keys (task_to_dependencies (run_sched Examples.scheduled_GH))
                 = [Examples.G; Examples.H]) by (vm_compute; reflexivity).
    intros t Ht. rewrite Hk in Ht.
    destruct Ht as [<-|[<-|[]]]; (split; [vm_compute; reflexivity|]);
      eexists; vm_compute; reflexivity. }
  destruct (drain_completes_all _ _ Examples_GH_wf Examples_GH_objects
              Examples_GH_start Examples_GH_acyclic Hgood) as (_ & H).
  apply H. vm_compute. right; left. reflexivity.
Defined.

(** X14.  Under the conditions above ([sched_wf], [objects_wf],
    [drain_start], no cycle reported) a registered task ends Canceled
    exactly when its flag was set before the drain or one of its
    recorded dependencies ended Failed or Canceled; a failure reaches
    nobody else. *)
Theorem drain_cancels_exactly (st : store) (s : Scheduler) (t : TaskRef) :
  sched_wf s -> objects_wf s -> drain_start st s ->
  snd (Scheduler__has_cycles s) = Done false ->
  In t (keys (task_to_dependencies s)) ->
  (status (d_store (drain_all st s)) t = CANCELED
   <-> canceled_event (get st (addr t)) = true
       \/ exists deps d,
            In (t, deps) (task_to_dependencies s) /\ In d deps
            /\ (status (d_store (drain_all st s)) d = FAILED
                \/ status (d_store (drain_all st s)) d = CANCELED)).
Proof.
  intros Hwf How Hstart Hacyclic Ht.
  destruct (drain_all_ends st s Hwf How Hstart Hacyclic) as (_ & Hinv & Hmore & Hset).
  split.
  - intros Hc. apply (dm_flag _ _ _ _ _ Hmore t Ht).
    exact (dm_canceled _ _ _ _ _ Hmore t Ht Hc).
  - intros [Hfl|(deps & d & Htd & Hd & Hsd)].
    + assert (Hfin : canceled_event (get (d_store (drain_all st s)) (addr t)) = true)
        by (apply (dm_evolves _ _ _ _ _ Hmore (addr t)); exact Hfl).
      destruct (Hset t Ht) as [H|[H|H]]; [| |exact H].
      * pose proof (dm_unflagged _ _ _ _ _ Hmore t Ht (or_introl H)). congruence.
      * pose proof (dm_unflagged _ _ _ _ _ Hmore t Ht (or_intror H)). congruence.
    + destruct (Hset t Ht) as [H|[H|H]]; [| |exact H].
      * pose proof (di_done _ _ _ _ Hinv t deps d Htd (or_introl H) Hd) as Hd'.
        rewrite Hd' in Hsd. destruct Hsd; discriminate.
      * pose proof (di_done _ _ _ _ Hinv t deps d Htd (or_intror H) Hd) as Hd'.
        rewrite Hd' in Hsd. destruct Hsd; discriminate.
Qed.

(** B ends Canceled because A, which it depends on, ended Failed. *)
Lemma drain_cancels_exactly_witness :
  status (d_store (drain_all (run_store Examples.scheduled_AB)
                     (run_sched Examples.scheduled_AB))) Examples.B = CANCELED.
Proof.
  assert (Hk : In Examples.B
                 (keys (task_to_dependencies (run_sched Examples.scheduled_AB))))
    by (vm_compute; right; left; reflexivity).
  apply (proj2 (drain_cancels_exactly _ _ Examples.B Examples_AB_wf Examples_AB_objects
                  Examples_AB_start Examples_AB_acyclic Hk)).
  right. exists [Examples.A], Examples.A.
  split; [vm_compute; right; left; reflexivity|].
  split; [left; reflexivity|]. left. vm_compute. reflexivity.
Defined.
